(** * Trend detection engine: keyword extraction, external signal,
      velocity, scoring and the trend store.

    Shallow embedding of
      backend/app/services/keyword_extraction_service.py
      backend/app/services/google_trends_service.py
      backend/app/services/trend_service.py

    Conventions of the embedding.
    - Python floats are modelled by exact rationals ([Q]); [round(x, 2)] is
      rounding to the nearest hundredth, ties to even, and the float it
      returns is identified with that decimal.  The quotient of two counts
      in [calculate_velocity] is taken in double precision ([binary64]).
    - Python [str] is modelled by [list ascii] (ASCII text).
    - Timestamps are integers (seconds); [datetime.now()] reads the clock of
      the world.
    - Code that can raise is written in a state-and-exception monad over the
      world; [try ... except Exception] is [try_except]. *)

From Stdlib Require Import ZArith QArith Qround Qabs Qminmax Qreduction.
From Stdlib Require Import Ascii String.
From Stdlib Require Import List Bool Arith Lia Lqa Sorted Permutation.
Import ListNotations.

Set Implicit Arguments.

Close Scope Q_scope.
Close Scope Z_scope.
Open Scope nat_scope.

(* ------------------------------------------------------------------ *)
(** * Part I: the program *)

(** ** Numbers: rounding to two decimals *)

(** Nearest integer, ties to even. *)
Definition round_half_even (x : Q) : Z :=
  let f := Qfloor x in
  let r := (x - inject_Z f)%Q in
  match Qcompare r (1 # 2)%Q with
  | Lt => f
  | Gt => (f + 1)%Z
  | Eq => if Z.even f then f else (f + 1)%Z
  end.

(** [round(x, 2)] *)
Definition round2 (x : Q) : Q :=
  Qred (inject_Z (round_half_even (x * 100)) / 100)%Q.

(** ** Numbers: double precision *)

(** [x * 2^e] *)
Definition scale2 (x : Q) (e : Z) : Q :=
  if (0 <=? e)%Z then (x * inject_Z (2 ^ e))%Q
  else (x / inject_Z (2 ^ (- e)))%Q.

(** [floor (log2 x)] of a positive rational. *)
Definition Qlog2 (x : Q) : Z :=
  let k := (Z.log2 (Qnum x) - Z.log2 (Zpos (Qden x)))%Z in
  if Qle_bool (scale2 1 k) x then k else (k - 1)%Z.

(** The double nearest to [x], ties to even: 53 significant bits, and
    multiples of [2^-1074] below the normal range.  Counts are lengths of
    lists and stay far below the overflow threshold [2^1024]. *)
Definition binary64 (x : Q) : Q :=
  if Qeq_bool x 0 then 0%Q
  else
    let e := Z.max (Qlog2 (Qabs x) - 52) (-1074) in
    scale2 (inject_Z (round_half_even (scale2 x (- e)))) e.

(** ** Text: characters, [str.lower], the two regular expressions *)

Definition text := list ascii.

Definition T (s : string) : text := list_ascii_of_string s.

Definition text_eqb (a b : text) : bool :=
  if list_eq_dec ascii_dec a b then true else false.

Definition mem (w : text) (l : list text) : bool := existsb (text_eqb w) l.

Definition code (c : ascii) : nat := nat_of_ascii c.

Definition between (lo hi : nat) (c : ascii) : bool :=
  (lo <=? code c) && (code c <=? hi).

(** [[a-z]] *)
Definition is_az (c : ascii) : bool := between 97 122 c.

Definition is_upper (c : ascii) : bool := between 65 90 c.

Definition is_digit (c : ascii) : bool := between 48 57 c.

(** [\w] on ASCII text: letters, digits and the underscore. *)
Definition is_word (c : ascii) : bool :=
  is_az c || is_upper c || is_digit c || (code c =? 95).

(** [\s] on ASCII text: TAB, LF, VT, FF, CR, the separators FS..US, space. *)
Definition is_space (c : ascii) : bool :=
  between 9 13 c || between 28 32 c.

(** [\S] *)
Definition non_space (c : ascii) : bool := negb (is_space c).

Definition is_newline (c : ascii) : bool := code c =? 10.

Definition lower_char (c : ascii) : ascii :=
  if is_upper c then ascii_of_nat (code c + 32) else c.

(** [text.lower()] *)
Definition lower (s : text) : text := map lower_char s.

Fixpoint take_while (p : ascii -> bool) (s : text) : text :=
  match s with
  | c :: s' => if p c then c :: take_while p s' else []
  | [] => []
  end.

Fixpoint drop_while (p : ascii -> bool) (s : text) : text :=
  match s with
  | c :: s' => if p c then drop_while p s' else s
  | [] => []
  end.

(** [s] without the prefix [p], when [s] starts with [p]. *)
Fixpoint strip_prefix (p s : text) : option text :=
  match p, s with
  | [], _ => Some s
  | a :: p', c :: s' => if Ascii.eqb a c then strip_prefix p' s' else None
  | _ :: _, [] => None
  end.

Definition nonempty (s : text) : bool :=
  match s with [] => false | _ :: _ => true end.

(** Length of the match of [http\S+|www.\S+] at the head of [s], if any.
    The dot of [www.] is unescaped in the source: it takes any character
    but a newline. *)
Definition url_match (s : text) : option nat :=
  match strip_prefix (T "http") s with
  | Some r =>
      let run := take_while non_space r in
      if nonempty run then Some (4 + length run) else None
  | None =>
      match strip_prefix (T "www") s with
      | Some (c :: r) =>
          let run := take_while non_space r in
          if negb (is_newline c) && nonempty run
          then Some (4 + length run) else None
      | _ => None
      end
  end.

(** [re.sub(r'http\S+|www.\S+', '', s)]: [skip] counts the characters of
    the current match still to be dropped. *)
Fixpoint sub_urls (skip : nat) (s : text) : text :=
  match s with
  | [] => []
  | c :: s' =>
      match skip with
      | S k => sub_urls k s'
      | O =>
          match url_match s with
          | Some (S k) => sub_urls k s'
          | _ => c :: sub_urls 0 s'
          end
      end
  end.

Definition is_word_opt (c : option ascii) : bool :=
  match c with Some c => is_word c | None => false end.

(** [\b] between the character before and the character after. *)
Definition word_boundary (prev next : option ascii) : bool :=
  xorb (is_word_opt prev) (is_word_opt next).

Definition last_opt (s : text) (prev : option ascii) : option ascii :=
  match rev s with c :: _ => Some c | [] => prev end.

Definition is_tag_char (c : ascii) : bool :=
  (code c =? 35) || (code c =? 64).

(** Match of [#\w+|@\w+] at the head of [s]. *)
Definition tag_match (s : text) : option text :=
  match s with
  | c :: r =>
      if is_tag_char c && nonempty (take_while is_word r)
      then Some (c :: take_while is_word r) else None
  | [] => None
  end.

(** Match of [\b[a-z]{n,}\b] at the head of [s], [prev] being the character
    before it.  The greedy run of letters is the only non-empty candidate
    (a shorter one ends between two letters, where there is no boundary);
    for [n = 0] the engine backtracks to the empty match. *)
Definition plain_match (n : nat) (prev : option ascii) (s : text)
  : option text :=
  let run := take_while is_az s in
  let rest := drop_while is_az s in
  if word_boundary prev (hd_error s) then
    if (n <=? length run) && nonempty run
       && word_boundary (last_opt run prev) (hd_error rest)
    then Some run
    else if n =? 0 then Some [] else None
  else None.

(** The alternation, leftmost alternative first. *)
Definition token_match (n : nat) (prev : option ascii) (s : text)
  : option text :=
  match tag_match s with
  | Some t => Some t
  | None => plain_match n prev s
  end.

(** [re.findall(r'#\w+|@\w+|\b[a-z]{n,}\b', s)], scanning left to right;
    [skip] counts the characters of the current match still to be passed.
    After an empty match the scan resumes one character further. *)
Fixpoint findall_go (n : nat) (prev : option ascii) (skip : nat) (s : text)
  : list text :=
  match s with
  | [] =>
      match skip with
      | O => match token_match n prev [] with
             | Some t => [t]
             | None => []
             end
      | S _ => []
      end
  | c :: s' =>
      match skip with
      | S k => findall_go n (Some c) k s'
      | O =>
          match token_match n prev s with
          | Some t => t :: findall_go n (Some c) (pred (length t)) s'
          | None => findall_go n (Some c) 0 s'
          end
      end
  end.

Definition findall (n : nat) (s : text) : list text :=
  findall_go n None 0 s.

(** ** KeywordExtractionService *)

Definition stop_words : list text := map T
  [ "the"; "be"; "to"; "of"; "and"; "a"; "in"; "that"; "have"; "i";
    "it"; "for"; "not"; "on"; "with"; "he"; "as"; "you"; "do"; "at";
    "this"; "but"; "his"; "by"; "from"; "they"; "we"; "say"; "her"; "she";
    "or"; "an"; "will"; "my"; "one"; "all"; "would"; "there"; "their";
    "what"; "so"; "up"; "out"; "if"; "about"; "who"; "get"; "which"; "go";
    "me"; "when"; "make"; "can"; "like"; "time"; "no"; "just"; "him"; "know";
    "take"; "people"; "into"; "year"; "your"; "good"; "some"; "could"; "them";
    "see"; "other"; "than"; "then"; "now"; "look"; "only"; "come"; "its"; "over";
    "think"; "also"; "back"; "after"; "use"; "two"; "how"; "our"; "work"; "first";
    "well"; "way"; "even"; "new"; "want"; "because"; "any"; "these"; "give"; "day";
    "most"; "us"; "is"; "was"; "are"; "been"; "has"; "had"; "were"; "said"; "did";
    "having"; "may"; "should"; "am"; "being"; "does"; "did"; "doing" ]%string.

(** [word.startswith('#') or word.startswith('@')] *)
Definition is_tag (w : text) : bool :=
  match w with c :: _ => is_tag_char c | [] => false end.

(** The filter loop of [extract_keywords_from_text]. *)
Definition keep_keyword (w : text) : bool :=
  if is_tag w then true else negb (mem w stop_words).

(** [Counter]: counts in order of first occurrence. *)
Fixpoint counter_add (w : text) (c : list (text * nat)) : list (text * nat) :=
  match c with
  | [] => [(w, 1)]
  | (k, m) :: c' =>
      if text_eqb k w then (k, S m) :: c' else (k, m) :: counter_add w c'
  end.

Definition Counter (ws : list text) : list (text * nat) :=
  fold_left (fun c w => counter_add w c) ws [].

(** Stable sort by decreasing key; [lt x y] says that the key of [x] is
    strictly below the key of [y]. *)
Fixpoint insert_by {A} (lt : A -> A -> bool) (x : A) (l : list A) : list A :=
  match l with
  | [] => [x]
  | y :: l' => if lt x y then y :: insert_by lt x l' else x :: y :: l'
  end.

Definition sort_by {A} (lt : A -> A -> bool) (l : list A) : list A :=
  fold_right (insert_by lt) [] l.

Definition count_lt (x y : text * nat) : bool := snd x <? snd y.

(** [Counter.most_common(k)] *)
Definition most_common (k : nat) (c : list (text * nat)) : list (text * nat) :=
  firstn k (sort_by count_lt c).

(** The kept tokens of a non-empty text, before counting. *)
Definition keywords_of (s : text) (min_length : nat) : list text :=
  filter keep_keyword (findall min_length (sub_urls 0 (lower s))).

(** [extract_keywords_from_text(text, min_length, max_keywords)];
    [None] is a missing text. *)
Definition extract_keywords_from_text
  (txt : option text) (min_length max_keywords : nat) : list text :=
  match txt with
  | None | Some [] => []
  | Some s =>
      map fst (most_common max_keywords (Counter (keywords_of s min_length)))
  end.

(** ** The world: content store, trend store, clock, collaborators *)

Record ContentItem := {
  c_id : text;
  c_user_id : text;
  c_title : option text;
  c_body : option text;
  c_created_at : Z
}.

(** A row of the [trends] table. *)
Record TrendRow := {
  t_id : nat;
  t_user_id : text;
  t_keyword : text;
  t_score : Q;
  t_google_trends_score : Q;
  t_content_mentions : nat;
  t_velocity : Q;
  t_related_content_ids : list text;
  t_detected_at : Z;
  t_created_at : Z
}.

(** The trend dictionaries built by [detect_trends]. *)
Record Trend := {
  keyword : text;
  score : Q;
  google_trends_score : Q;
  content_mentions : nat;
  velocity : Q;
  related_content_ids : list text
}.

(** models/trend.py, [TrendResponse] *)
Record TrendResponse := {
  r_id : nat;
  r_keyword : text;
  r_score : Q;
  r_google_trends_score : Q;
  r_content_mentions : nat;
  r_velocity : Q;
  r_related_content_ids : list text;
  r_detected_at : Z;
  r_created_at : Z
}.

(** What [pytrends] answers for one payload: it raises, or gives an empty
    frame, or a frame with the mean interest of some columns. *)
Inductive Frame :=
| ProviderRaises
| EmptyFrame
| Columns (means : list (text * Q)).

Inductive Exception := DbError | ProviderError | ValueError.

(** [faults] schedules the store: each [execute()] takes the head, and
    raises when it is [true]; an empty schedule means no failure.
    [provider k batch] is the answer of the external index to the [k]-th
    payload.  [uuid_ok] is the [UUID] constructor of the standard library
    (it raises [ValueError] on a malformed string). *)
Record World := {
  content : list ContentItem;
  trends : list TrendRow;
  next_id : nat;
  now : Z;
  faults : list bool;
  provider : nat -> list text -> Frame;
  provider_calls : nat;
  uuid_ok : text -> bool
}.

Definition set_trends (w : World) (rows : list TrendRow) (nid : nat) : World :=
  {| content := content w; trends := rows; next_id := nid; now := now w;
     faults := faults w; provider := provider w;
     provider_calls := provider_calls w; uuid_ok := uuid_ok w |}.

Definition set_faults (w : World) (f : list bool) : World :=
  {| content := content w; trends := trends w; next_id := next_id w;
     now := now w; faults := f; provider := provider w;
     provider_calls := provider_calls w; uuid_ok := uuid_ok w |}.

Definition set_now (w : World) (t : Z) : World :=
  {| content := content w; trends := trends w; next_id := next_id w;
     now := t; faults := faults w; provider := provider w;
     provider_calls := provider_calls w; uuid_ok := uuid_ok w |}.

Definition set_provider_calls (w : World) (k : nat) : World :=
  {| content := content w; trends := trends w; next_id := next_id w;
     now := now w; faults := faults w; provider := provider w;
     provider_calls := k; uuid_ok := uuid_ok w |}.

(** ** State and exceptions *)

Inductive outcome (A : Type) :=
| Ok (a : A)
| Raised (e : Exception).

Arguments Ok {A} a.
Arguments Raised {A} e.

Definition M (A : Type) := World -> outcome A * World.

Definition ret {A} (a : A) : M A := fun w => (Ok a, w).

Definition raise {A} (e : Exception) : M A := fun w => (Raised e, w).

Definition bind {A B} (m : M A) (k : A -> M B) : M B :=
  fun w =>
    match m w with
    | (Ok a, w') => k a w'
    | (Raised e, w') => (Raised e, w')
    end.

(** [try: m  except Exception: h] *)
Definition try_except {A} (m : M A) (h : Exception -> M A) : M A :=
  fun w =>
    match m w with
    | (Ok a, w') => (Ok a, w')
    | (Raised e, w') => h e w'
    end.

Notation "x <- m ;; k" := (bind m (fun x => k))
  (at level 61, m at next level, right associativity).

Definition get {A} (f : World -> A) : M A := fun w => (Ok (f w), w).

(** [.execute()]: consumes one entry of the fault schedule. *)
Definition execute : M unit :=
  fun w =>
    match faults w with
    | true :: f => (Raised DbError, set_faults w f)
    | false :: f => (Ok tt, set_faults w f)
    | [] => (Ok tt, w)
    end.

(** [time.sleep(secs)] *)
Definition sleep (secs : Z) : M unit :=
  fun w => (Ok tt, set_now w (now w + secs)%Z).

Definition days (d : Z) : Z := (d * 86400)%Z.

(** [supabase.table('content').select(...)...execute()] *)
Definition select_content (p : ContentItem -> bool) : M (list ContentItem) :=
  _ <- execute ;;
  rows <- get content ;;
  ret (filter p rows).

(** ** GoogleTrendsService *)

(** Dictionaries keep insertion order. *)
Definition dict := list (text * Q).

Fixpoint dict_get (d : dict) (k : text) : option Q :=
  match d with
  | [] => None
  | (k', v) :: d' => if text_eqb k' k then Some v else dict_get d' k
  end.

Fixpoint dict_set (d : dict) (k : text) (v : Q) : dict :=
  match d with
  | [] => [(k, v)]
  | (k', v') :: d' =>
      if text_eqb k' k then (k', v) :: d' else (k', v') :: dict_set d' k v
  end.

(** [d.update(e)] *)
Definition dict_update (d e : dict) : dict :=
  fold_left (fun acc kv => dict_set acc (fst kv) (snd kv)) e d.

(** [{kw: 0.0 for kw in keywords}] *)
Definition zeros (keywords : list text) : dict :=
  dict_update [] (map (fun kw => (kw, 0%Q)) keywords).

(** [build_payload] followed by [interest_over_time]. *)
Definition interest_over_time (keywords : list text) : M Frame :=
  fun w =>
    let w' := set_provider_calls w (S (provider_calls w)) in
    match provider w (provider_calls w) keywords with
    | ProviderRaises => (Raised ProviderError, w')
    | f => (Ok f, w')
    end.

Definition get_interest_over_time (keywords : list text) : M dict :=
  match keywords with
  | [] => ret []
  | _ =>
      let keywords := firstn 5 keywords in
      try_except
        (interest_df <- interest_over_time keywords ;;
         match interest_df with
         | Columns means =>
             ret (dict_update []
                    (map (fun kw =>
                            match dict_get means kw with
                            | Some avg => (kw, round2 avg)
                            | None => (kw, 0%Q)
                            end) keywords))
         | _ => ret (zeros keywords)
         end)
        (fun _ => ret (zeros keywords))
  end.

(** [range(0, n, 5)] *)
Definition range5 (n : nat) : list nat :=
  map (fun j => 5 * j) (seq 0 ((n + 4) / 5)).

(** [keywords[i:i+5]] *)
Definition slice5 (keywords : list text) (i : nat) : list text :=
  firstn 5 (skipn i keywords).

Fixpoint batch_loop (keywords : list text) (starts : list nat)
  (results : dict) : M dict :=
  match starts with
  | [] => ret results
  | i :: starts' =>
      batch_results <- get_interest_over_time (slice5 keywords i) ;;
      let results := dict_update results batch_results in
      _ <- (if i + 5 <? length keywords then sleep 2 else ret tt) ;;
      batch_loop keywords starts' results
  end.

Definition batch_get_interest (keywords : list text) : M dict :=
  try_except
    (match keywords with
     | [] => ret []
     | _ => batch_loop keywords (range5 (length keywords)) []
     end)
    (fun _ => ret (zeros keywords)).

(** ** KeywordExtractionService, over the content store *)

(** [keyword -> list of content ids], in insertion order. *)
Definition content_map := list (text * list text).

Fixpoint map_append (m : content_map) (k : text) (cid : text) : content_map :=
  match m with
  | [] => [(k, [cid])]
  | (k', ids) :: m' =>
      if text_eqb k' k then (k', ids ++ [cid]) :: m'
      else (k', ids) :: map_append m' k cid
  end.

(** The text of an item: the title and a space when there is a title, then
    the body when there is one. *)
Definition item_text (item : ContentItem) : text :=
  (match c_title item with
   | Some ((_ :: _) as t) => t ++ T " "
   | _ => []
   end)
  ++
  (match c_body item with
   | Some ((_ :: _) as b) => b
   | _ => []
   end).

(** [UUID(s)] *)
Definition UUID (s : text) : M text :=
  ok <- get uuid_ok ;;
  if ok s then ret s else raise ValueError.

(** The inner loop over the keywords of one item. *)
Fixpoint append_item (id : text) (keywords : list text) (m : content_map)
  : M content_map :=
  match keywords with
  | [] => ret m
  | kw :: keywords' =>
      cid <- UUID id ;;
      append_item id keywords' (map_append m kw cid)
  end.

Fixpoint collect_keywords (items : list ContentItem) (m : content_map)
  : M content_map :=
  match items with
  | [] => ret m
  | item :: items' =>
      let keywords := extract_keywords_from_text (Some (item_text item)) 3 20 in
      m' <- append_item (c_id item) keywords m ;;
      collect_keywords items' m'
  end.

(** [list(set(ids))], here in order of first occurrence. *)
Definition unique_ids (ids : list text) : list text :=
  nodup (list_eq_dec ascii_dec) ids.

Definition Candidate := (text * nat * list text)%type.

Definition mentions_lt (x y : Candidate) : bool := snd (fst x) <? snd (fst y).

Definition extract_keywords_from_content
  (user_id : text) (ndays : Z) (min_mentions : nat) : M (list Candidate) :=
  try_except
    (t <- get now ;;
     let cutoff_date := (t - days ndays)%Z in
     rows <- select_content
               (fun c => text_eqb (c_user_id c) user_id
                         && (cutoff_date <=? c_created_at c)%Z) ;;
     match rows with
     | [] => ret []
     | _ =>
         keyword_content_map <- collect_keywords rows [] ;;
         let trending_keywords :=
           flat_map (fun kv : text * list text =>
                       let mention_count := length (snd kv) in
                       if min_mentions <=? mention_count
                       then [(fst kv, mention_count, unique_ids (snd kv))]
                       else [])
                    keyword_content_map in
         ret (sort_by mentions_lt trending_keywords)
     end)
    (fun _ => ret []).

(** ** TrendService *)

Definition calculate_trend_score
  (content_mentions : Z) (google_trends_score velocity : Q) : Q :=
  let normalized_mentions :=
    Qmin (inject_Z content_mentions / 50 * 100) 100 in
  let normalized_velocity :=
    if Qeq_bool velocity 0 then 0%Q
    else Qmin (Qabs velocity / 5 * 100) 100 in
  let score :=
    (normalized_mentions * (4 # 10) +
     google_trends_score * (4 # 10) +
     normalized_velocity * (2 # 10))%Q in
  round2 score.

(** [x in y] on strings. *)
Fixpoint contains (needle hay : text) : bool :=
  match strip_prefix needle hay with
  | Some _ => true
  | None =>
      match hay with
      | [] => false
      | _ :: hay' => contains needle hay'
      end
  end.

(** [f"{x}"] of an optional string: a null renders as [None]. *)
Definition render (x : option text) : text :=
  match x with Some s => s | None => T "None" end.

(** [f"{item.get('title', '')} {item.get('body', '')}".lower()] *)
Definition velocity_text (item : ContentItem) : text :=
  lower (render (c_title item) ++ T " " ++ render (c_body item)).

Definition count_mentions (kw : text) (items : list ContentItem) : nat :=
  length (filter (fun item => contains (lower kw) (velocity_text item)) items).

(** The arithmetic at the end of [calculate_velocity], before rounding:
    [float(recent_mentions)], and the true division of two integers, which
    gives the double nearest to the quotient. *)
Definition velocity_of_counts (recent_mentions older_mentions : nat) : Q :=
  if older_mentions =? 0 then
    if 0 <? recent_mentions
    then binary64 (inject_Z (Z.of_nat recent_mentions))
    else 0%Q
  else
    binary64
      ((inject_Z (Z.of_nat recent_mentions)
        - inject_Z (Z.of_nat older_mentions))
       / inject_Z (Z.of_nat older_mentions))%Q.

Definition calculate_velocity (user_id kw : text) : M Q :=
  try_except
    (t <- get now ;;
     let recent_cutoff := (t - days 3)%Z in
     let older_cutoff := (t - days 7)%Z in
     recent <- select_content
                 (fun c => text_eqb (c_user_id c) user_id
                           && (recent_cutoff <=? c_created_at c)%Z) ;;
     older <- select_content
                (fun c => text_eqb (c_user_id c) user_id
                          && (older_cutoff <=? c_created_at c)%Z
                          && (c_created_at c <? recent_cutoff)%Z) ;;
     let recent_mentions := count_mentions kw recent in
     let older_mentions := count_mentions kw older in
     ret (round2 (velocity_of_counts recent_mentions older_mentions)))
    (fun _ => ret 0%Q).

Definition score_lt (x y : Trend) : bool :=
  match Qcompare (score x) (score y) with Lt => true | _ => false end.

Fixpoint score_candidates (user_id : text) (google_scores : dict)
  (cands : list Candidate) : M (list Trend) :=
  match cands with
  | [] => ret []
  | (kw, mention_count, content_ids) :: cands' =>
      let google_score :=
        match dict_get google_scores kw with Some g => g | None => 0%Q end in
      v <- calculate_velocity user_id kw ;;
      let trend_score :=
        calculate_trend_score (Z.of_nat mention_count) google_score v in
      rest <- score_candidates user_id google_scores cands' ;;
      ret ({| keyword := kw; score := trend_score;
              google_trends_score := google_score;
              content_mentions := mention_count; velocity := v;
              related_content_ids := content_ids |} :: rest)
  end.

Definition detect_trends (user_id : text) (max_trends : nat)
  : M (list Trend) :=
  try_except
    (trending_keywords <- extract_keywords_from_content user_id 7 2 ;;
     match trending_keywords with
     | [] => ret []
     | _ =>
         let top := firstn (max_trends * 2) trending_keywords in
         let top_keywords := map (fun c : Candidate => fst (fst c)) top in
         google_scores <- batch_get_interest (firstn 20 top_keywords) ;;
         found <- score_candidates user_id google_scores top ;;
         ret (firstn max_trends (sort_by score_lt found))
     end)
    (fun _ => ret []).

(** [table('trends').select('id').eq('user_id', u).eq('keyword', k)] *)
Definition select_trend (user_id kw : text) : M (list TrendRow) :=
  _ <- execute ;;
  rows <- get trends ;;
  ret (filter (fun r => text_eqb (t_user_id r) user_id
                        && text_eqb (t_keyword r) kw) rows).

Definition updated_row (r : TrendRow) (d : Trend) (detected_at : Z)
  : TrendRow :=
  {| t_id := t_id r; t_user_id := t_user_id r; t_keyword := t_keyword r;
     t_score := score d; t_google_trends_score := google_trends_score d;
     t_content_mentions := content_mentions d; t_velocity := velocity d;
     t_related_content_ids := related_content_ids d;
     t_detected_at := detected_at; t_created_at := t_created_at r |}.

(** [table('trends').update({...}).eq('id', id).execute()] *)
Definition update_trend (id : nat) (d : Trend) (detected_at : Z) : M unit :=
  _ <- execute ;;
  fun w =>
    (Ok tt,
     set_trends w
       (map (fun r => if t_id r =? id then updated_row r d detected_at else r)
            (trends w))
       (next_id w)).

(** [table('trends').insert({...}).execute()]; the store gives the row its
    id and its creation time. *)
Definition insert_trend (user_id : text) (d : Trend) (detected_at : Z)
  : M unit :=
  _ <- execute ;;
  fun w =>
    (Ok tt,
     set_trends w
       (trends w ++
        [{| t_id := next_id w; t_user_id := user_id; t_keyword := keyword d;
            t_score := score d;
            t_google_trends_score := google_trends_score d;
            t_content_mentions := content_mentions d;
            t_velocity := velocity d;
            t_related_content_ids := related_content_ids d;
            t_detected_at := detected_at; t_created_at := now w |}])
       (S (next_id w))).

Fixpoint save_loop (user_id : text) (detected_at : Z) (ts : list Trend)
  (saved_count : nat) : M nat :=
  match ts with
  | [] => ret saved_count
  | trend_data :: ts' =>
      saved_count' <-
        try_except
          (existing <- select_trend user_id (keyword trend_data) ;;
           _ <- match existing with
                | e :: _ => update_trend (t_id e) trend_data detected_at
                | [] => insert_trend user_id trend_data detected_at
                end ;;
           ret (saved_count + 1))
          (fun _ => ret saved_count) ;;
      save_loop user_id detected_at ts' saved_count'
  end.

Definition save_trends (user_id : text) (ts : list Trend) : M nat :=
  try_except
    (match ts with
     | [] => ret 0
     | _ =>
         detected_at <- get now ;;
         save_loop user_id detected_at ts 0
     end)
    (fun _ => ret 0).

Definition row_score_lt (x y : TrendRow) : bool :=
  match Qcompare (t_score x) (t_score y) with Lt => true | _ => false end.

(** [table('trends').select('*').eq('user_id', u).gte('detected_at', c)
      .order('score', desc=True).limit(n).execute()] *)
Definition select_top (user_id : text) (cutoff : Z) (limit : nat)
  : M (list TrendRow) :=
  _ <- execute ;;
  rows <- get trends ;;
  ret (firstn limit
         (sort_by row_score_lt
            (filter (fun r => text_eqb (t_user_id r) user_id
                              && (cutoff <=? t_detected_at r)%Z) rows))).

Fixpoint parse_ids (ids : list text) : M (list text) :=
  match ids with
  | [] => ret []
  | i :: ids' =>
      u <- UUID i ;;
      us <- parse_ids ids' ;;
      ret (u :: us)
  end.

(** The body of the parsing loop of [get_top_trends] for one row. *)
Definition parse_row (item : TrendRow) : M TrendResponse :=
  ids <- parse_ids (t_related_content_ids item) ;;
  ret {| r_id := t_id item; r_keyword := t_keyword item;
         r_score := t_score item;
         r_google_trends_score := t_google_trends_score item;
         r_content_mentions := t_content_mentions item;
         r_velocity := t_velocity item;
         r_related_content_ids := ids;
         r_detected_at := t_detected_at item;
         r_created_at := t_created_at item |}.

Fixpoint parse_loop (items : list TrendRow) : M (list TrendResponse) :=
  match items with
  | [] => ret []
  | item :: items' =>
      parsed <- try_except (r <- parse_row item ;; ret [r])
                           (fun _ => ret []) ;;
      rest <- parse_loop items' ;;
      ret (parsed ++ rest)
  end.

Definition get_top_trends (user_id : text) (limit : nat)
  : M (list TrendResponse) :=
  try_except
    (t <- get now ;;
     let cutoff_date := (t - days 7)%Z in
     rows <- select_top user_id cutoff_date limit ;;
     match rows with
     | [] => ret []
     | _ => parse_loop rows
     end)
    (fun _ => ret []).

(** The result of [detect_and_save_trends]. *)
Record Summary := {
  detected : nat;
  saved : nat;
  top_3 : list (text * Q)
}.

Definition empty_summary : Summary :=
  {| detected := 0; saved := 0; top_3 := [] |}.

Definition detect_and_save_trends (user_id : text) : M Summary :=
  try_except
    (found <- detect_trends user_id 10 ;;
     match found with
     | [] => ret empty_summary
     | _ =>
         saved_count <- save_trends user_id found ;;
         top <- get_top_trends user_id 3 ;;
         ret {| detected := length found; saved := saved_count;
                top_3 := map (fun t => (r_keyword t, r_score t)) top |}
     end)
    (fun _ => ret empty_summary).

(** ** The specification's own wording, for comparison with the code *)

(** The composite score as the specification words it. *)
Definition composite_score (content_mentions : Z)
  (external_signal velocity : Q) : Q :=
  ((4 # 10) * Qmin (inject_Z content_mentions / 50 * 100) 100
   + (4 # 10) * external_signal
   + (2 # 10) * Qmin (Qabs velocity / 5 * 100) 100)%Q.

Definition or_empty (x : option text) : text :=
  match x with Some s => s | None => [] end.

(** An item mentions a keyword when its title and body, taken together,
    contain it, whatever the case. *)
Definition mentions (kw : text) (item : ContentItem) : bool :=
  contains (lower kw)
    (lower (or_empty (c_title item) ++ T " " ++ or_empty (c_body item))).

Definition in_recent_window (t : Z) (item : ContentItem) : bool :=
  (t - days 3 <=? c_created_at item)%Z.

Definition in_prior_window (t : Z) (item : ContentItem) : bool :=
  (t - days 7 <=? c_created_at item)%Z && (c_created_at item <? t - days 3)%Z.

Definition owned_by (owner : text) (item : ContentItem) : bool :=
  text_eqb (c_user_id item) owner.

Definition recent_count (w : World) (owner kw : text) : nat :=
  length (filter (fun i => owned_by owner i && in_recent_window (now w) i
                           && mentions kw i) (content w)).

Definition prior_count (w : World) (owner kw : text) : nat :=
  length (filter (fun i => owned_by owner i && in_prior_window (now w) i
                           && mentions kw i) (content w)).

(** The velocity of the specification: no rounding. *)
Definition spec_velocity (recent prior : nat) : Q :=
  if (prior =? 0) && (0 <? recent) then inject_Z (Z.of_nat recent)
  else if (prior =? 0) && (recent =? 0) then 0%Q
  else ((inject_Z (Z.of_nat recent) - inject_Z (Z.of_nat prior))
        / inject_Z (Z.of_nat prior))%Q.

Definition has_title_and_body (item : ContentItem) : bool :=
  match c_title item, c_body item with
  | Some _, Some _ => true
  | _, _ => false
  end.

(** The claim as the specification states it: the result is the unrounded
    velocity of the two counts. *)
Definition velocity_claim (w : World) (user_id kw : text) : Prop :=
  exists q, fst (calculate_velocity user_id kw w) = Ok q
            /\ (q == spec_velocity (recent_count w user_id kw)
                                   (prior_count w user_id kw))%Q.

(** The propagation policy as the specification states it: a failing first
    query of the content store reaches the caller as an exception. *)
Definition propagation_claim (w : World) (owner : text) : Prop :=
  hd false (faults w) = true ->
  exists e, fst (detect_and_save_trends owner w) = Raised e.

(** The score that one answer of the provider gives a keyword: the rounded
    mean of its column, 0.0 without a column, without data or on failure. *)
Definition fetched (f : Frame) (kw : text) : Q :=
  match f with
  | Columns means =>
      match dict_get means kw with Some avg => round2 avg | None => 0%Q end
  | _ => 0%Q
  end.

(** The [j]-th batch of a keyword list. *)
Definition batch (keywords : list text) (j : nat) : list text :=
  slice5 keywords (5 * j).

Definition batch_count (keywords : list text) : nat :=
  (length keywords + 4) / 5.

(** The answer of the provider to the [j]-th batch of a call made in [w]. *)
Definition answer (w : World) (keywords : list text) (j : nat) : Frame :=
  provider w (provider_calls w + j) (batch keywords j).

(** The isolation of failures as the specification states it: every
    keyword of a batch on which the provider fails is mapped to 0.0. *)
Definition batch_claim (keywords : list text) (w : World) : Prop :=
  forall j kw,
    In kw (batch keywords j) ->
    answer w keywords j = ProviderRaises ->
    exists d, fst (batch_get_interest keywords w) = Ok d
              /\ dict_get d kw = Some 0%Q.

(** What one batch contributes to the results. *)
Definition batch_dict (f : Frame) (b : list text) : dict :=
  dict_update [] (map (fun kw => (kw, fetched f kw)) b).

(** The results after the batches [js], the first of them being call [c]. *)
Fixpoint loop_results (prov : nat -> list text -> Frame) (c : nat)
  (keywords : list text) (js : list nat) (results : dict) : dict :=
  match js with
  | [] => results
  | j :: js' =>
      loop_results prov (S c) keywords js'
        (dict_update results
           (batch_dict (prov c (batch keywords j)) (batch keywords j)))
  end.

(** [re.findall(r'#\w+|@\w+', s)]: the hashtags and mentions of a text,
    whatever the minimum length of plain words. *)
Fixpoint find_tags_go (skip : nat) (s : text) : list text :=
  match s with
  | [] => []
  | _ :: s' =>
      match skip with
      | S k => find_tags_go k s'
      | O =>
          match tag_match s with
          | Some t => t :: find_tags_go (pred (length t)) s'
          | None => find_tags_go 0 s'
          end
      end
  end.

Definition find_tags (s : text) : list text := find_tags_go 0 s.

(** A character that separates words: not a word character, and not the
    mark of a hashtag or a mention. *)
Definition is_separator (c : ascii) : bool :=
  negb (is_word c) && negb (is_tag_char c).

(** Texts made of words that satisfy [P], kept apart by separators. *)
Inductive words_apart (P : text -> Prop) : text -> Prop :=
| wa_nil : words_apart P []
| wa_sep (c : ascii) (s : text) :
    is_separator c = true -> words_apart P s -> words_apart P (c :: s)
| wa_last (w : text) : P w -> words_apart P w
| wa_word (w : text) (c : ascii) (s : text) :
    P w -> is_separator c = true -> words_apart P s ->
    words_apart P (w ++ c :: s).

(** Texts that contain only stop words, in any case. *)
Definition only_stop_words (s : text) : Prop :=
  words_apart (fun w => In (lower w) stop_words) s.

(** The same after [lower()]. *)
Definition stop_text (s : text) : Prop :=
  words_apart (fun w => In w stop_words) s.

(** [s] starts like a URL of the pattern [http\S+|www.\S+]. *)
Definition url_start (s : text) : bool :=
  match strip_prefix (T "http") s, strip_prefix (T "www") s with
  | None, None => false
  | _, _ => true
  end.

(** No URL starts inside [w]. *)
Fixpoint url_free (w : text) : bool :=
  match w with
  | [] => true
  | _ :: w' => negb (url_start w) && url_free w'
  end.

(** A non-empty word of lowercase letters in which no URL starts. *)
Definition good_word (w : text) : bool :=
  nonempty w && forallb is_az w && url_free w.

(** What may follow a word: the end of the text, or a non-word character. *)
Definition ends_word (rest : text) : bool :=
  match rest with [] => true | c :: _ => negb (is_word c) end.

(** ** Vocabulary of the properties *)

Local Open Scope Q_scope.

(** [m] never changes the [trends] table. *)
Definition stable {A} (m : M A) : Prop :=
  forall w, trends (snd (m w)) = trends w.

Definition key (r : TrendRow) : text * text := (t_user_id r, t_keyword r).

(** At most one row per (owner, keyword). *)
Definition unique_keys (rows : list TrendRow) : Prop :=
  NoDup (map key rows).

(** The stores that detection-and-save runs can produce from an empty trend
    table; between runs the content, the clock, the fault schedule and the
    provider may change freely. *)
Inductive reachable : World -> Prop :=
| reach_empty (w : World) : trends w = [] -> reachable w
| reach_run (w : World) (owner : text) :
    reachable w -> reachable (snd (detect_and_save_trends owner w))
| reach_env (w w' : World) :
    reachable w -> trends w' = trends w -> reachable w'.

(** [m] returns a value from every world. *)
Definition never_raises {A} (m : M A) : Prop :=
  forall w, exists a w', m w = (Ok a, w').

(** [x] may stand before [y] in a ranking by decreasing score. *)
Definition row_ge (x y : TrendRow) : Prop := t_score y <= t_score x.

Definition response_ge (x y : TrendResponse) : Prop := r_score y <= r_score x.

Definition parses (w : World) (row : TrendRow) : bool :=
  forallb (uuid_ok w) (t_related_content_ids row).

(** The rows that the query of [get_top_trends] selects. *)
Definition top_rows (w : World) (owner : text) (limit : nat) : list TrendRow :=
  firstn limit
    (sort_by row_score_lt
       (filter (fun r => text_eqb (t_user_id r) owner
                         && (now w - days 7 <=? t_detected_at r)%Z)
               (trends w))).

Definition has_key (e : dict) (kw : text) : bool :=
  existsb (fun kv => text_eqb (fst kv) kw) e.

Local Close Scope Q_scope.

(** ** Concrete worlds used in the examples *)

Definition velocity_world (items : list ContentItem) : World :=
  {| content := items; trends := []; next_id := 0; now := 1000000%Z;
     faults := []; provider := fun _ _ => EmptyFrame; provider_calls := 0;
     uuid_ok := fun _ => true |}.

Definition post (id : string) (title body : string) (created_at : Z)
  : ContentItem :=
  {| c_id := T id; c_user_id := T "u1"; c_title := Some (T title);
     c_body := Some (T body); c_created_at := created_at |}.

(** One recent mention of "rocket", three in the prior window. *)
Definition one_recent_three_prior : World :=
  velocity_world
    [ post "c1" "Rocket launch" "today" 990000;
      post "c2" "Old news" "a rocket" 600000;
      post "c3" "Older" "ROCKET fuel" 500000;
      post "c4" "Oldest" "rockets" 400000 ].

(** Three items of one owner, all inside the trailing week. *)
Definition demo_world : World :=
  velocity_world
    [ post "c1" "Rocket news" "Crypto and rocket" 1000000;
      post "c2" "rocket again #ai" "weekly" 900000;
      post "c3" "Digest" "More ROCKET #ai crypto" 990000 ].

(** The same world with a store that fails on every call. *)
Definition unreachable_world : World :=
  set_faults demo_world (repeat true 8).

(** What [get_top_trends] makes of a row it can parse. *)
Definition response_of (row : TrendRow) : TrendResponse :=
  {| r_id := t_id row; r_keyword := t_keyword row; r_score := t_score row;
     r_google_trends_score := t_google_trends_score row;
     r_content_mentions := t_content_mentions row;
     r_velocity := t_velocity row;
     r_related_content_ids := t_related_content_ids row;
     r_detected_at := t_detected_at row;
     r_created_at := t_created_at row |}.



Definition stored (id : nat) (kw : string) (sc : Q) (detected_at : Z)
  : TrendRow :=
  {| t_id := id; t_user_id := T "u1"; t_keyword := T kw; t_score := sc;
     t_google_trends_score := 0; t_content_mentions := 2; t_velocity := 0;
     t_related_content_ids := [T "c1"]; t_detected_at := detected_at;
     t_created_at := detected_at |}.

Definition ranking_world : World :=
  set_trends demo_world
    [ stored 0 "crypto" 45 950000; stored 1 "rocket" (723 # 10) 960000 ] 2.

(** Six keywords, the first repeated in the second batch; the provider
    fails on the first payload and answers the second. *)
Definition repeated_keywords : list text :=
  map T ["alpha"; "beta"; "gamma"; "delta"; "epsilon"; "alpha"]%string.

Definition flaky_world : World :=
  {| content := []; trends := []; next_id := 0; now := 1000000%Z;
     faults := [];
     provider := fun k _ =>
                   match k with
                   | O => ProviderRaises
                   | S _ => Columns [(T "alpha", 50%Q)]
                   end;
     provider_calls := 0; uuid_ok := fun _ => true |}.

(** ** Vocabulary of the further properties *)

(** How often a token occurs in a list of tokens. *)
Definition occurrences (t : text) (ws : list text) : nat :=
  count_occ (list_eq_dec ascii_dec) ws t.

(** The count that a [Counter] holds for a key, 0 without an entry. *)
Fixpoint counter_get (c : list (text * nat)) (k : text) : nat :=
  match c with
  | [] => 0
  | (k', m) :: c' => if text_eqb k' k then m else counter_get c' k
  end.

(** A hashtag or a mention: the mark and at least one word character. *)
Definition tag_shaped (t : text) : Prop :=
  exists c w, t = c :: w /\ is_tag_char c = true /\ w <> []
              /\ forallb is_word w = true.

(** ** Further operations of the services *)

(** Dictionaries with values of any type, in insertion order. *)
Fixpoint assoc_get {V} (d : list (text * V)) (k : text) : option V :=
  match d with
  | [] => None
  | (k', v) :: d' => if text_eqb k' k then Some v else assoc_get d' k
  end.

Fixpoint assoc_set {V} (d : list (text * V)) (k : text) (v : V)
  : list (text * V) :=
  match d with
  | [] => [(k, v)]
  | (k', v') :: d' =>
      if text_eqb k' k then (k', v) :: d' else (k', v') :: assoc_set d' k v
  end.

(** [interest_scores.get(keyword, 0.0)] *)
Definition interest_or_zero (d : dict) (k : text) : Q :=
  match dict_get d k with Some v => v | None => 0%Q end.

(** The entry of [compare_keywords] for one keyword:
    [avg_interest] and [is_trending]. *)
Definition metric (interest_scores : dict) (kw : text) : Q * bool :=
  (interest_or_zero interest_scores kw,
   negb (Qle_bool (interest_or_zero interest_scores kw) 50)).

(** google_trends_service.py, [compare_keywords] *)
Definition compare_keywords (keywords : list text)
  : M (list (text * (Q * bool))) :=
  try_except
    (if match keywords with [] => true | _ => false end
        || (5 <? length keywords)
     then ret []
     else
       interest_scores <- get_interest_over_time keywords ;;
       ret (fold_left
              (fun results kw => assoc_set results kw (metric interest_scores kw))
              keywords []))
    (fun _ => ret []).

(** keyword_extraction_service.py, [get_keyword_suggestions] *)
Definition get_keyword_suggestions (user_id : text) (ndays : Z)
  : M (list text) :=
  try_except
    (trending_keywords <- extract_keywords_from_content user_id ndays 2 ;;
     ret (map (fun c : Candidate => fst (fst c))
            (firstn 30 trending_keywords)))
    (fun _ => ret []).

(** The result of [get_trend_stats]. *)
Record Stats := {
  total_trends : nat;
  active_trends : nat;
  avg_score : Q;
  top_keywords : list text
}.

Definition empty_stats : Stats :=
  {| total_trends := 0; active_trends := 0; avg_score := 0;
     top_keywords := [] |}.

(** [sum(scores)] *)
Definition Qsum (l : list Q) : Q := fold_right Qplus 0%Q l.

(** trend_service.py, [get_trend_stats]; the comparison of the timestamp
    strings is the comparison of the instants. *)
Definition get_trend_stats (user_id : text) : M Stats :=
  try_except
    (_ <- execute ;;
     rows <- get trends ;;
     match filter (fun r => text_eqb (t_user_id r) user_id) rows with
     | [] => ret empty_stats
     | data =>
         t <- get now ;;
         let cutoff_date := (t - days 7)%Z in
         let active := filter (fun r => (cutoff_date <=? t_detected_at r)%Z)
                              data in
         let scores := map t_score active in
         let avg :=
           match scores with
           | [] => 0%Q
           | _ => (Qsum scores / inject_Z (Z.of_nat (length scores)))%Q
           end in
         ret {| total_trends := length data;
                active_trends := length active;
                avg_score := round2 avg;
                top_keywords :=
                  map t_keyword (firstn 5 (sort_by row_score_lt active)) |}
     end)
    (fun _ => ret empty_stats).

(** What an endpoint answers: a value, or an HTTP error status. *)
Inductive reply (A : Type) :=
| Replied (a : A)
| HttpError (status : nat).

Arguments Replied {A} a.
Arguments HttpError {A} status.

Definition targets (user_id : text) (trend_id : nat) (r : TrendRow) : bool :=
  text_eqb (t_user_id r) user_id && (t_id r =? trend_id).

(** api/trends.py, [delete_trend]: 404 when the store deleted nothing,
    500 when the store call failed. *)
Definition delete_trend (user_id : text) (trend_id : nat)
  : World -> reply unit * World :=
  fun w =>
    match execute w with
    | (Raised _, w') => (HttpError 500, w')
    | (Ok _, w') =>
        match filter (targets user_id trend_id) (trends w') with
        | [] => (HttpError 404, w')
        | _ :: _ =>
            (Replied tt,
             set_trends w'
               (filter (fun r => negb (targets user_id trend_id r))
                       (trends w'))
               (next_id w'))
        end
    end.

(** models/trend.py, [TrendList] *)
Record TrendList := {
  items : list TrendResponse;
  total : nat;
  page : nat;
  page_size : nat;
  pages : nat
}.

(** The rows that the listing query matches at time [t], by decreasing
    score. *)
Definition matching_rows (t : Z) (user_id : text) (rows : list TrendRow)
  : list TrendRow :=
  sort_by row_score_lt
    (filter (fun r => text_eqb (t_user_id r) user_id
                      && (t - days 30 <=? t_detected_at r)%Z)
            rows).

Definition listed_rows (w : World) (user_id : text) : list TrendRow :=
  matching_rows (now w) user_id (trends w).

(** The list comprehension that builds a [TrendResponse] from every item
    of the answer: the first row that does not validate raises. *)
Fixpoint validate_rows (rows : list TrendRow) : M (list TrendResponse) :=
  match rows with
  | [] => ret []
  | item :: rows' =>
      r <- parse_row item ;;
      rs <- validate_rows rows' ;;
      ret (r :: rs)
  end.

(** api/trends.py, [get_trends]: page [pg] (from 1) of [size] records. *)
Definition get_trends (user_id : text) (pg size : nat)
  : World -> reply TrendList * World :=
  fun w =>
    match
      (t <- get now ;;
       let offset := (pg - 1) * size in
       _ <- execute ;;
       rows <- get trends ;;
       let matching := matching_rows t user_id rows in
       found <- validate_rows (firstn size (skipn offset matching)) ;;
       ret (found, length matching)) w
    with
    | (Raised _, w') => (HttpError 500, w')
    | (Ok (found, count), w') =>
        (Replied {| items := found; total := count; page := pg;
                    page_size := size;
                    pages := (count + size - 1) / size |}, w')
    end.

(** scheduler_service.py, [detect_trends_for_all_users]; the users are
    taken in order of first occurrence. *)
Fixpoint detect_for_users (user_ids : list text) (total_trends : nat)
  : M nat :=
  match user_ids with
  | [] => ret total_trends
  | user_id :: rest =>
      total' <-
        try_except
          (u <- UUID user_id ;;
           results <- detect_and_save_trends u ;;
           ret (total_trends + detected results))
          (fun _ => ret total_trends) ;;
      detect_for_users rest total'
  end.

Definition detect_trends_for_all_users : M unit :=
  try_except
    (_ <- execute ;;
     items <- get content ;;
     match items with
     | [] => ret tt
     | _ =>
         let user_ids := unique_ids (map c_user_id items) in
         _ <- detect_for_users user_ids 0 ;;
         ret tt
     end)
    (fun _ => ret tt).

(** [m] makes no call to the external provider. *)
Definition quiet {A} (m : M A) : Prop :=
  forall w, provider_calls (snd (m w)) = provider_calls w
            /\ provider (snd (m w)) = provider w.

(** The rows of the other owners, in store order. *)
Definition rows_of_others (user_id : text) (rows : list TrendRow)
  : list TrendRow :=
  filter (fun r => negb (text_eqb (t_user_id r) user_id)) rows.

(** Row ids are distinct and below the next id the store will give. *)
Definition ids_fresh (w : World) : Prop :=
  NoDup (map t_id (trends w))
  /\ Forall (fun r => t_id r < next_id w) (trends w).

(** What the map holds: every id stands under a keyword it supports. *)
Definition supported (Q : text -> text -> Prop) (m : content_map) : Prop :=
  forall kw ids id, In (kw, ids) m -> In id ids -> Q kw id.

(** The item that stands behind a content id under a keyword: an item of
    the owner, created in the trailing [ndays] days, whose own keywords
    contain the keyword. *)
Definition mentioned_in (w : World) (owner : text) (ndays : Z)
  (kw id : text) : Prop :=
  exists item,
    In item (content w) /\ c_id item = id /\ c_user_id item = owner
    /\ (now w - days ndays <= c_created_at item)%Z
    /\ In kw (extract_keywords_from_text (Some (item_text item)) 3 20).

(** The candidates that [extract_keywords_from_content] makes of the
    keyword map. *)
Definition candidates_of (min_mentions : nat) (m : content_map)
  : list Candidate :=
  flat_map (fun kv : text * list text =>
              let mention_count := length (snd kv) in
              if min_mentions <=? mention_count
              then [(fst kv, mention_count, unique_ids (snd kv))]
              else [])
           m.

(** The provider answers with interests between 0 and 100. *)
Definition provider_in_range (w : World) : Prop :=
  forall k b means kw v,
    provider w k b = Columns means -> dict_get means kw = Some v ->
    (0 <= v /\ v <= 100)%Q.

(** What [detect_trends] records for one keyword. *)
Definition well_scored (t : Trend) : Prop :=
  2 <= content_mentions t
  /\ (- (1) <= velocity t)%Q
  /\ score t = calculate_trend_score (Z.of_nat (content_mentions t))
                 (google_trends_score t) (velocity t).

Definition in_percent (q : Q) : Prop := (0 <= q /\ q <= 100)%Q.

(** What [score_candidates] makes of one candidate. *)
Definition scored_from (g : dict) (c : Candidate) (t : Trend) : Prop :=
  keyword t = fst (fst c)
  /\ content_mentions t = snd (fst c)
  /\ google_trends_score t
     = match dict_get g (fst (fst c)) with Some x => x | None => 0%Q end
  /\ (- (1) <= velocity t)%Q
  /\ score t = calculate_trend_score (Z.of_nat (content_mentions t))
                 (google_trends_score t) (velocity t).

(** The row [r] of the store holds the trend [d] of owner [u], detected
    at [t]. *)
Definition stored_as (u : text) (t : Z) (d : Trend) (r : TrendRow) : Prop :=
  t_user_id r = u /\ t_keyword r = keyword d /\ t_score r = score d
  /\ t_google_trends_score r = google_trends_score d
  /\ t_content_mentions r = content_mentions d
  /\ t_velocity r = velocity d
  /\ t_related_content_ids r = related_content_ids d
  /\ t_detected_at r = t.

(** The row that [insert_trend] adds in the world [w]. *)
Definition inserted_row (u : text) (d : Trend) (t : Z) (w : World) : TrendRow :=
  {| t_id := next_id w; t_user_id := u; t_keyword := keyword d;
     t_score := score d; t_google_trends_score := google_trends_score d;
     t_content_mentions := content_mentions d; t_velocity := velocity d;
     t_related_content_ids := related_content_ids d;
     t_detected_at := t; t_created_at := now w |}.

(** What one pass of the loop of [save_trends] can do to the store:
    nothing, an update of the rows with the id of a row found under the
    key, or an insert after a lookup that found nothing. *)
Definition upsert_effect (u : text) (d : Trend) (t : Z) (w w' : World)
  : Prop :=
  (trends w' = trends w /\ next_id w' = next_id w)
  \/ (exists e,
        In e (trends w) /\ key e = (u, keyword d)
        /\ trends w'
           = map (fun r => if t_id r =? t_id e then updated_row r d t else r)
                 (trends w)
        /\ next_id w' = next_id w)
  \/ (~ In (u, keyword d) (map key (trends w))
      /\ trends w' = trends w ++ [inserted_row u d t w]
      /\ next_id w' = S (next_id w)).

(** Two detected trends with distinct keywords. *)
Definition two_trends : list Trend :=
  [ {| keyword := T "rocket"; score := 723 # 10; google_trends_score := 80;
       content_mentions := 3; velocity := 2;
       related_content_ids := [T "c1"; T "c2"] |};
    {| keyword := T "crypto"; score := 45; google_trends_score := 40;
       content_mentions := 2; velocity := 0;
       related_content_ids := [T "c1"] |} ].

(** The items of an answer of [get_trends]; none when it is an error. *)
Definition items_of (r : reply TrendList) : list TrendResponse :=
  match r with
  | Replied l => items l
  | HttpError _ => []
  end.

(** The rows of page [pg] of the listing. *)
Definition page_rows (w : World) (user_id : text) (pg size : nat)
  : list TrendRow :=
  firstn size (skipn ((pg - 1) * size) (listed_rows w user_id)).

(** Page [pg] starts inside a listing of [n] rows; the first page always
    does. *)
Definition page_in_range (pg size n : nat) : Prop :=
  pg = 1 \/ (1 <= pg /\ (pg - 1) * size < n).

(** The number of pages that [get_trends] reports for [n] rows. *)
Definition page_count (n size : nat) : nat := (n + size - 1) / size.

(** api/trends.py, [get_trend_by_id]: 404 when the owner has no such
    record, 500 when the store call or the validation of the record
    fails. *)
Definition get_trend_by_id (user_id : text) (trend_id : nat)
  : World -> reply TrendResponse * World :=
  fun w =>
    match execute w with
    | (Raised _, w') => (HttpError 500, w')
    | (Ok _, w') =>
        match filter (targets user_id trend_id) (trends w') with
        | [] => (HttpError 404, w')
        | item :: _ =>
            match parse_row item w' with
            | (Ok r, w'') => (Replied r, w'')
            | (Raised _, w'') => (HttpError 500, w'')
            end
        end
    end.

(** What an endpoint makes of a service call: its value, or status 500
    when the call raises. *)
Definition or_500 {A B} (m : M A) (f : A -> B) : World -> reply B * World :=
  fun w =>
    match m w with
    | (Ok a, w') => (Replied (f a), w')
    | (Raised _, w') => (HttpError 500, w')
    end.

(** api/trends.py, [detect_trends]: the two counts of the message, and the
    results. *)
Definition api_detect_trends (user_id : text)
  : World -> reply (nat * nat * Summary) * World :=
  or_500 (detect_and_save_trends user_id)
         (fun results => (detected results, saved results, results)).

(** api/trends.py, [get_top_trends]: the trends and their count. *)
Definition api_get_top_trends (user_id : text) (limit : nat)
  : World -> reply (list TrendResponse * nat) * World :=
  or_500 (get_top_trends user_id limit)
         (fun found => (found, length found)).

(** api/trends.py, [get_trend_stats] *)
Definition api_get_trend_stats (user_id : text)
  : World -> reply Stats * World :=
  or_500 (get_trend_stats user_id) (fun stats => stats).

(** The content of [demo_world] with a provider that answers: mean
    interest 80.5 for "rocket" and 40 for "crypto", no column for any other
    keyword. *)
Definition trending_world : World :=
  {| content := content demo_world; trends := []; next_id := 0;
     now := 1000000%Z; faults := [];
     provider := fun _ _ =>
                   Columns [(T "rocket", (805 # 10)%Q); (T "crypto", 40%Q)];
     provider_calls := 0; uuid_ok := fun _ => true |}.

(** The rows that the listing query of [get_trends] matches: those of the
    owner detected in the trailing thirty days. *)
Definition in_listing (w : World) (user_id : text) (r : TrendRow) : bool :=
  text_eqb (t_user_id r) user_id && (now w - days 30 <=? t_detected_at r)%Z.

(** No two different rows have the same score. *)
Definition distinct_scores (rows : list TrendRow) : Prop :=
  forall a b, In a rows -> In b rows -> (t_score a == t_score b)%Q -> a = b.

(** [m] leaves what counts as a UUID as it is. *)
Definition steady {A} (m : M A) : Prop :=
  forall w, uuid_ok (snd (m w)) = uuid_ok w.

(** One detection run after the other for the owners given, in order; the
    numbers of detected trends are added to [total]. *)
Fixpoint detection_runs (owners : list text) (total : nat) (w : World)
  : nat * World :=
  match owners with
  | [] => (total, w)
  | u :: us =>
      match detect_and_save_trends u w with
      | (Ok results, w') => detection_runs us (total + detected results) w'
      | (Raised _, w') => detection_runs us total w'
      end
  end.

(** The world of [demo_world] in which the id "nobody" is no UUID. *)
Definition picky_world : World :=
  {| content := content demo_world; trends := []; next_id := 0;
     now := 1000000%Z; faults := [];
     provider := fun _ _ => EmptyFrame; provider_calls := 0;
     uuid_ok := fun s => negb (text_eqb s (T "nobody")) |}.

(* ------------------------------------------------------------------ *)
(** * Part II: properties *)

(** ** Rounding *)

Section Rounding.

Local Open Scope Q_scope.

Lemma round_half_even_comp (x y : Q) :
  x == y -> round_half_even x = round_half_even y.
Proof.
  intros E. unfold round_half_even.
  rewrite (Qfloor_comp _ _ E).
  assert (H : x - inject_Z (Qfloor y) == y - inject_Z (Qfloor y))
    by (rewrite E; reflexivity).
  rewrite H. reflexivity.
Qed.

Lemma round2_comp (x y : Q) : x == y -> round2 x = round2 y.
Proof.
  intros E. unfold round2.
  rewrite (round_half_even_comp (x := x * 100) (y := y * 100));
    [reflexivity | rewrite E; reflexivity].
Qed.

Lemma round_half_even_bounds (x : Q) :
  (Qfloor x <= round_half_even x <= Qfloor x + 1)%Z.
Proof.
  unfold round_half_even.
  destruct (Qcompare (x - inject_Z (Qfloor x)) (1 # 2)); try destruct (Z.even _); lia.
Qed.

Lemma round_half_even_Z (z : Z) : round_half_even (inject_Z z) = z.
Proof.
  unfold round_half_even. rewrite Qfloor_Z.
  assert (H : inject_Z z - inject_Z z == 0) by ring.
  rewrite H. reflexivity.
Qed.

(** Rounding never leaves an interval with integer end points. *)
Lemma round_half_even_range (a b : Z) (x : Q) :
  inject_Z a <= x -> x <= inject_Z b ->
  (a <= round_half_even x <= b)%Z.
Proof.
  intros Ha Hb.
  pose proof (round_half_even_bounds x) as [Hlo Hhi].
  assert (Hfa : (a <= Qfloor x)%Z).
  { rewrite <- (Qfloor_Z a). apply Qfloor_resp_le. exact Ha. }
  assert (Hfb : (Qfloor x <= b)%Z).
  { rewrite <- (Qfloor_Z b). apply Qfloor_resp_le. exact Hb. }
  split; [lia|].
  destruct (Z.eq_dec (Qfloor x) b) as [E|NE]; [|lia].
  assert (Ex : x == inject_Z b).
  { apply Qle_antisym; [exact Hb|].
    rewrite <- E. apply Qfloor_le. }
  rewrite (round_half_even_comp Ex), round_half_even_Z. lia.
Qed.

Lemma round2_range (x : Q) :
  0 <= x -> x <= 100 -> 0 <= round2 x /\ round2 x <= 100.
Proof.
  intros H0 H100. unfold round2.
  assert (R : (0 <= round_half_even (x * 100) <= 10000)%Z).
  { apply round_half_even_range.
    - change (inject_Z 0) with 0. nra.
    - change (inject_Z 10000) with (100 * 100). nra. }
  destruct R as [R0 R1].
  rewrite Qred_correct.
  rewrite Zle_Qle in R0, R1.
  change (inject_Z 0) with 0 in R0.
  change (inject_Z 10000) with (100 * 100) in R1.
  set (n := inject_Z (round_half_even (x * 100))) in *.
  split.
  - apply Qle_shift_div_l; [reflexivity | lra].
  - apply Qle_shift_div_r; [reflexivity | lra].
Qed.

End Rounding.


(** ** TrendScorer *)

Section Scorer.

Local Open Scope Q_scope.

Lemma Qmin_range (x : Q) : 0 <= x -> 0 <= Qmin x 100 /\ Qmin x 100 <= 100.
Proof.
  intros H. destruct (Q.min_spec x 100) as [[L E]|[L E]]; rewrite E; lra.
Qed.

Lemma normalized_mentions_range (content_mentions : Z) :
  (0 <= content_mentions)%Z ->
  0 <= Qmin (inject_Z content_mentions / 50 * 100) 100 <= 100.
Proof.
  intros H. apply Qmin_range.
  rewrite Zle_Qle in H. change (inject_Z 0) with 0 in H.
  unfold Qdiv. change (/ 50) with (1 # 50). nra.
Qed.

Lemma normalized_velocity_range (velocity : Q) :
  0 <= Qmin (Qabs velocity / 5 * 100) 100 <= 100.
Proof.
  apply Qmin_range.
  pose proof (Qabs_nonneg velocity).
  unfold Qdiv. change (/ 5) with (1 # 5). nra.
Qed.

Lemma velocity_guard (velocity : Q) :
  (if Qeq_bool velocity 0 then 0 else Qmin (Qabs velocity / 5 * 100) 100)
  == Qmin (Qabs velocity / 5 * 100) 100.
Proof.
  destruct (Qeq_bool velocity 0) eqn:E; [|reflexivity].
  apply Qeq_bool_eq in E.
  assert (A : Qabs velocity == 0) by (rewrite E; reflexivity).
  assert (B : Qabs velocity / 5 * 100 == 0) by (rewrite A; reflexivity).
  rewrite B. reflexivity.
Qed.

Lemma score_as_composite (content_mentions : Z)
  (google_trends_score velocity : Q) :
  calculate_trend_score content_mentions google_trends_score velocity
  = round2 (composite_score content_mentions google_trends_score velocity).
Proof.
  unfold calculate_trend_score, composite_score.
  apply round2_comp. rewrite velocity_guard. ring.
Qed.



End Scorer.

(** ** The monad *)

Section Monad.

Lemma execute_ok (w : World) :
  hd false (faults w) = false ->
  execute w = (Ok tt, set_faults w (tl (faults w))).
Proof.
  unfold execute. destruct w as [c t n nw f p pc u]; simpl.
  destruct f as [|[|] f]; simpl; intros H; try discriminate; reflexivity.
Qed.

Lemma select_content_ok (p : ContentItem -> bool) (w : World) :
  hd false (faults w) = false ->
  select_content p w
  = (Ok (filter p (content w)), set_faults w (tl (faults w))).
Proof.
  intros H. unfold select_content, bind, get, ret.
  rewrite (execute_ok w H). reflexivity.
Qed.

End Monad.

(** ** VelocityEstimator *)

Section Velocity.

Lemma velocity_of_counts_spec (recent prior : nat) :
  velocity_of_counts recent prior = binary64 (spec_velocity recent prior).
Proof.
  unfold velocity_of_counts, spec_velocity.
  destruct prior as [|p]; [|reflexivity].
  destruct recent as [|r]; reflexivity.
Qed.

Lemma Qlog2_Z (z : Z) : (0 < z)%Z -> Qlog2 (inject_Z z) = Z.log2 z.
Proof.
  intros P. unfold Qlog2. cbn [Qnum Qden inject_Z].
  change (Z.log2 1) with 0%Z. rewrite Z.sub_0_r.
  pose proof (Z.log2_nonneg z) as L.
  unfold scale2. destruct (Z.leb_spec 0 (Z.log2 z)) as [_|H]; [|lia].
  assert (B : Qle_bool (1 * inject_Z (2 ^ Z.log2 z)) (inject_Z z) = true).
  { apply Qle_bool_iff. rewrite Qmult_1_l, <- Zle_Qle.
    apply Z.log2_spec. exact P. }
  fold (inject_Z z). rewrite B. reflexivity.
Qed.

(** A positive integer below [2^53] is a double. *)
Lemma binary64_Z (z : Z) :
  (0 < z < 2 ^ 53)%Z -> (binary64 (inject_Z z) == inject_Z z)%Q.
Proof.
  intros [P B]. unfold binary64.
  destruct (Qeq_bool (inject_Z z) 0) eqn:E.
  { apply Qeq_bool_iff in E. unfold Qeq in E. simpl in E. lia. }
  assert (A : Qabs (inject_Z z) = inject_Z z).
  { unfold Qabs, inject_Z. rewrite Z.abs_eq by lia. reflexivity. }
  rewrite A, (Qlog2_Z P).
  assert (L : (0 <= Z.log2 z <= 52)%Z).
  { split; [apply Z.log2_nonneg|]. apply Z.lt_succ_r.
    apply Z.log2_lt_pow2; [exact P | exact B]. }
  rewrite Z.max_l by lia.
  set (e := (Z.log2 z - 52)%Z).
  assert (Pw : (0 < 2 ^ (- e))%Z) by (apply Z.pow_pos_nonneg; lia).
  assert (S : (scale2 (inject_Z z) (- e) == inject_Z (z * 2 ^ (- e)))%Q).
  { unfold scale2. destruct (Z.leb_spec 0 (- e)) as [_|H]; [|lia].
    rewrite inject_Z_mult. reflexivity. }
  rewrite (round_half_even_comp S), round_half_even_Z.
  unfold scale2. destruct (Z.leb_spec 0 e) as [H|H].
  - assert (E0 : e = 0%Z) by lia. rewrite E0.
    change (2 ^ (- 0))%Z with 1%Z. change (2 ^ 0)%Z with 1%Z.
    rewrite Z.mul_1_r. apply Qmult_1_r.
  - rewrite inject_Z_mult. field.
    intros N. unfold Qeq in N. simpl in N. lia.
Qed.

Lemma Qred_Z (z : Z) : Qred (inject_Z z) = inject_Z z.
Proof.
  unfold Qred, inject_Z.
  pose proof (Z.ggcd_gcd z 1) as G.
  pose proof (Z.ggcd_correct_divisors z 1) as D.
  destruct (Z.ggcd z 1) as [g [a b]]. cbn [fst snd] in *.
  rewrite Z.gcd_1_r in G. subst g. destruct D as [Da Db].
  rewrite Z.mul_1_l in Da, Db. subst a b. reflexivity.
Qed.

Lemma round2_Z (z : Z) : round2 (inject_Z z) = inject_Z z.
Proof.
  unfold round2.
  assert (S : (inject_Z z * 100 == inject_Z (z * 100))%Q)
    by (rewrite inject_Z_mult; reflexivity).
  rewrite (round_half_even_comp S), round_half_even_Z.
  transitivity (Qred (inject_Z z)); [|apply Qred_Z].
  apply Qred_complete. rewrite inject_Z_mult. field.
Qed.

Lemma velocity_text_present (kw : text) (item : ContentItem) :
  has_title_and_body item = true ->
  contains (lower kw) (velocity_text item) = mentions kw item.
Proof.
  unfold has_title_and_body, velocity_text, mentions.
  destruct (c_title item), (c_body item); intros H; try discriminate.
  reflexivity.
Qed.

Lemma count_mentions_filter (kw : text) (p : ContentItem -> bool)
  (items : list ContentItem) :
  forallb has_title_and_body items = true ->
  count_mentions kw (filter p items)
  = length (filter (fun i => p i && mentions kw i) items).
Proof.
  unfold count_mentions. induction items as [|i items IH]; simpl; [reflexivity|].
  intros H. apply andb_prop in H as [Hi Hs].
  destruct (p i); simpl; [|auto].
  rewrite (velocity_text_present kw i Hi).
  destruct (mentions kw i); simpl; auto.
Qed.

(** C2, as the code has it: over items that carry a title and a body, and
    when neither of the two queries fails, [calculate_velocity] is the
    velocity of the specification computed from the two window counts, the
    quotient taken in double precision, and then rounded to two decimals;
    without a prior mention it is the recent count itself (a count below
    2^53 is a double); 5 recent and no prior mention give 5.0, 3 recent and
    6 prior give -0.5. *)
Theorem calculate_velocity_rounded (w : World) (user_id kw : text) :
  forallb has_title_and_body (content w) = true ->
  nth 0 (faults w) false = false ->
  nth 1 (faults w) false = false ->
  fst (calculate_velocity user_id kw w)
  = Ok (round2 (binary64 (spec_velocity (recent_count w user_id kw)
                                        (prior_count w user_id kw))))
  /\ (prior_count w user_id kw = 0 ->
      (Z.of_nat (recent_count w user_id kw) < 2 ^ 53)%Z ->
      fst (calculate_velocity user_id kw w)
      = Ok (inject_Z (Z.of_nat (recent_count w user_id kw))))
  /\ round2 (binary64 (spec_velocity 5 0)) = 5%Q
  /\ round2 (binary64 (spec_velocity 3 6)) = (- (1 # 2))%Q.
Proof.
  intros Hp F0 F1.
  assert (R : fst (calculate_velocity user_id kw w)
              = Ok (round2 (binary64
                      (spec_velocity (recent_count w user_id kw)
                                     (prior_count w user_id kw))))).
  { unfold calculate_velocity, try_except, bind, get, ret.
    rewrite select_content_ok by (destruct (faults w); exact F0).
    rewrite select_content_ok
      by (simpl; destruct (faults w) as [|a [|b f]]; simpl in *; auto).
    cbn [fst content now set_faults]. rewrite velocity_of_counts_spec.
    rewrite !count_mentions_filter by exact Hp.
    unfold recent_count, prior_count, owned_by, in_recent_window,
      in_prior_window.
    do 4 f_equal; f_equal; apply filter_ext; intros i;
      rewrite ?andb_assoc; reflexivity. }
  split; [exact R|]. split; [|split; vm_compute; reflexivity].
  intros P0 B. rewrite R, P0. f_equal.
  destruct (recent_count w user_id kw) as [|r]; [reflexivity|].
  change (spec_velocity (S r) 0) with (inject_Z (Z.of_nat (S r))).
  rewrite <- (round2_Z (Z.of_nat (S r))) at 2.
  apply round2_comp. apply binary64_Z. lia.
Qed.

Lemma calculate_velocity_rounded_witness :
  fst (calculate_velocity (T "u1") (T "rocket") one_recent_three_prior)
  = Ok (- (67 # 100))%Q.
Proof.
  destruct (@calculate_velocity_rounded one_recent_three_prior
              (T "u1") (T "rocket")) as [E _];
    [reflexivity | reflexivity | reflexivity |].
  rewrite E. vm_compute. reflexivity.
Defined.

(** With one recent and three prior mentions the code returns -0.67, which
    is not (1 - 3) / 3. *)
Lemma calculate_velocity_not_exact :
  recent_count one_recent_three_prior (T "u1") (T "rocket") = 1
  /\ prior_count one_recent_three_prior (T "u1") (T "rocket") = 3
  /\ fst (calculate_velocity (T "u1") (T "rocket") one_recent_three_prior)
     = Ok (- (67 # 100))%Q
  /\ ~ velocity_claim one_recent_three_prior (T "u1") (T "rocket").
Proof.
  split; [reflexivity|]. split; [reflexivity|]. split; [reflexivity|].
  intros [q [E Q]].
  assert (E' : fst (calculate_velocity (T "u1") (T "rocket")
                      one_recent_three_prior) = Ok (- (67 # 100))%Q)
    by reflexivity.
  rewrite E' in E. injection E as <-.
  revert Q. vm_compute. discriminate.
Qed.

(** The quotient is the double-precision one: with 1 recent and 40 prior
    mentions the double nearest to -0.975 lies above it and the result is
    -0.97, where rounding the exact quotient would give -0.98; with 41
    recent and 40 prior mentions the result is 0.03. *)
Example quotient_in_double_precision :
  round2 (velocity_of_counts 1 40) = (- (97 # 100))%Q
  /\ round2 (spec_velocity 1 40) = (- (49 # 50))%Q
  /\ round2 (velocity_of_counts 41 40) = (3 # 100)%Q.
Proof. vm_compute. repeat split. Qed.

(** A null title or body is rendered as the word None by the f-string, so
    the keyword "none" is counted in an item that does not contain it. *)
Example null_field_counts_as_none :
  fst (calculate_velocity (T "u1") (T "none")
         (velocity_world
            [ {| c_id := T "c1"; c_user_id := T "u1";
                 c_title := Some (T "Rocket launch"); c_body := None;
                 c_created_at := 990000 |} ]))
  = Ok 1%Q.
Proof. reflexivity. Qed.

End Velocity.

(** ** Computations that leave the trend store alone *)

Section Stable.

Lemma stable_ret {A} (a : A) : stable (ret a).
Proof. intros w. reflexivity. Qed.

Lemma stable_raise {A} (e : Exception) : stable (@raise A e).
Proof. intros w. reflexivity. Qed.

Lemma stable_get {A} (f : World -> A) : stable (get f).
Proof. intros w. reflexivity. Qed.

Lemma stable_bind {A B} (m : M A) (k : A -> M B) :
  stable m -> (forall a, stable (k a)) -> stable (bind m k).
Proof.
  intros Hm Hk w. unfold bind. specialize (Hm w).
  destruct (m w) as [[a|e] w']; simpl in *; [|exact Hm].
  rewrite Hk. exact Hm.
Qed.

Lemma stable_try {A} (m : M A) (h : Exception -> M A) :
  stable m -> (forall e, stable (h e)) -> stable (try_except m h).
Proof.
  intros Hm Hh w. unfold try_except. specialize (Hm w).
  destruct (m w) as [[a|e] w']; simpl in *; [exact Hm|].
  rewrite Hh. exact Hm.
Qed.

Lemma stable_execute : stable execute.
Proof.
  intros w. unfold execute. destruct (faults w) as [|[|] f]; reflexivity.
Qed.

Lemma stable_sleep (secs : Z) : stable (sleep secs).
Proof. intros w. reflexivity. Qed.

Lemma stable_interest_over_time (kws : list text) :
  stable (interest_over_time kws).
Proof.
  intros w. unfold interest_over_time.
  destruct (provider w (provider_calls w) kws); reflexivity.
Qed.

End Stable.

Create HintDb stable.

#[export] Hint Resolve stable_ret stable_raise stable_get stable_execute
  stable_sleep stable_interest_over_time : stable.

Ltac stable_step :=
  first
    [ apply stable_bind | apply stable_try | apply stable_ret
    | apply stable_raise | apply stable_get | apply stable_execute
    | apply stable_sleep | apply stable_interest_over_time
    | match goal with
      | |- stable (match ?x with _ => _ end) => destruct x
      | |- stable (if ?b then _ else _) => destruct b
      | |- forall _, _ => intro
      end ].

Ltac stable_auto := repeat stable_step; auto with stable.

Section StableServices.

Lemma stable_select_content p : stable (select_content p).
Proof. unfold select_content. stable_auto. Qed.

Lemma stable_UUID s : stable (UUID s).
Proof. unfold UUID. stable_auto. Qed.

Lemma stable_append_item id kws : forall m, stable (append_item id kws m).
Proof.
  induction kws as [|kw kws IH]; intros m; simpl; [stable_auto|].
  apply stable_bind; [apply stable_UUID|]. intro. apply IH.
Qed.

Lemma stable_collect_keywords items : forall m,
  stable (collect_keywords items m).
Proof.
  induction items as [|item items IH]; intros m; [simpl; stable_auto|].
  cbn [collect_keywords].
  apply stable_bind; [apply stable_append_item|]. intro. apply IH.
Qed.

Lemma stable_extract_keywords_from_content u d n :
  stable (extract_keywords_from_content u d n).
Proof.
  unfold extract_keywords_from_content.
  apply stable_try; [|stable_auto].
  apply stable_bind; [stable_auto|]. intro.
  apply stable_bind; [apply stable_select_content|]. intros rows.
  destruct rows; [stable_auto|].
  apply stable_bind; [apply stable_collect_keywords|]. stable_auto.
Qed.

Lemma stable_get_interest_over_time kws :
  stable (get_interest_over_time kws).
Proof. unfold get_interest_over_time. stable_auto. Qed.

Lemma stable_batch_loop kws starts : forall results,
  stable (batch_loop kws starts results).
Proof.
  induction starts as [|i starts IH]; intros results; simpl; [stable_auto|].
  apply stable_bind; [apply stable_get_interest_over_time|]. intro.
  apply stable_bind; [stable_auto|]. intro. apply IH.
Qed.

Lemma stable_batch_get_interest kws : stable (batch_get_interest kws).
Proof.
  unfold batch_get_interest. apply stable_try; [|stable_auto].
  destruct kws; [stable_auto|]. apply stable_batch_loop.
Qed.

Lemma stable_calculate_velocity u kw : stable (calculate_velocity u kw).
Proof.
  unfold calculate_velocity. apply stable_try; [|stable_auto].
  apply stable_bind; [stable_auto|]. intro.
  apply stable_bind; [apply stable_select_content|]. intro.
  apply stable_bind; [apply stable_select_content|]. stable_auto.
Qed.

Lemma stable_score_candidates u g cands :
  stable (score_candidates u g cands).
Proof.
  induction cands as [|[[kw mc] ids] cands IH]; simpl; [stable_auto|].
  apply stable_bind; [apply stable_calculate_velocity|]. intro.
  apply stable_bind; [apply IH|]. stable_auto.
Qed.

Lemma stable_detect_trends u n : stable (detect_trends u n).
Proof.
  unfold detect_trends. apply stable_try; [|stable_auto].
  apply stable_bind; [apply stable_extract_keywords_from_content|].
  intros tk. destruct tk; [stable_auto|].
  apply stable_bind; [apply stable_batch_get_interest|]. intro.
  apply stable_bind; [apply stable_score_candidates|]. stable_auto.
Qed.

Lemma stable_parse_ids ids : stable (parse_ids ids).
Proof.
  induction ids as [|i ids IH]; simpl; [stable_auto|].
  apply stable_bind; [apply stable_UUID|]. intro.
  apply stable_bind; [apply IH|]. stable_auto.
Qed.

Lemma stable_parse_loop items : stable (parse_loop items).
Proof.
  induction items as [|item items IH]; simpl; [stable_auto|].
  apply stable_bind.
  - apply stable_try; [|stable_auto]. unfold parse_row.
    apply stable_bind; [|stable_auto].
    apply stable_bind; [apply stable_parse_ids|]. stable_auto.
  - intro. apply stable_bind; [apply IH|]. stable_auto.
Qed.

Lemma stable_get_top_trends u n : stable (get_top_trends u n).
Proof.
  unfold get_top_trends. apply stable_try; [|stable_auto].
  apply stable_bind; [stable_auto|]. intro.
  apply stable_bind; [unfold select_top; stable_auto|]. intros rows.
  destruct rows; [stable_auto|]. apply stable_parse_loop.
Qed.

End StableServices.

(** ** TrendStore: one record per owner and keyword *)

Section Upsert.

Lemma text_eqb_eq (a b : text) : text_eqb a b = true <-> a = b.
Proof.
  unfold text_eqb. destruct (list_eq_dec ascii_dec a b); split;
    intros; congruence.
Qed.

Lemma text_eqb_refl (a : text) : text_eqb a a = true.
Proof. apply text_eqb_eq. reflexivity. Qed.

(** An update in place keeps every key where it is. *)
Lemma update_keeps_keys (id : nat) (d : Trend) (t : Z) (rows : list TrendRow) :
  map key (map (fun r => if t_id r =? id then updated_row r d t else r) rows)
  = map key rows.
Proof.
  rewrite map_map. apply map_ext. intros r.
  destruct (t_id r =? id); reflexivity.
Qed.

(** An empty answer to the lookup means the key is absent. *)
Lemma select_empty_absent (u kw : text) (rows : list TrendRow) :
  filter (fun r => text_eqb (t_user_id r) u && text_eqb (t_keyword r) kw) rows
  = [] ->
  ~ In (u, kw) (map key rows).
Proof.
  induction rows as [|r rows IH]; simpl; [tauto|].
  destruct (text_eqb (t_user_id r) u && text_eqb (t_keyword r) kw) eqn:E;
    [discriminate|].
  intros F [K|K]; [|exact (IH F K)].
  unfold key in K. injection K as K1 K2.
  rewrite K1, K2, !text_eqb_refl in E. discriminate.
Qed.

Lemma unique_keys_insert (rows : list TrendRow) (r : TrendRow) :
  unique_keys rows -> ~ In (key r) (map key rows) ->
  unique_keys (rows ++ [r]).
Proof.
  unfold unique_keys. intros U N. rewrite map_app. simpl.
  apply NoDup_app; [exact U | repeat constructor; intros [] | ].
  intros k Hk [<-|[]]. exact (N Hk).
Qed.

(** One pass of the loop body of [save_trends] keeps the invariant,
    whichever store calls fail. *)
Lemma upsert_unique (u : text) (d : Trend) (t : Z) (n : nat) (w : World) :
  unique_keys (trends w) ->
  unique_keys
    (trends (snd (try_except
                    (existing <- select_trend u (keyword d) ;;
                     _ <- match existing with
                          | e :: _ => update_trend (t_id e) d t
                          | [] => insert_trend u d t
                          end ;;
                     ret (n + 1))
                    (fun _ => ret n) w))).
Proof.
  intros U.
  unfold select_trend, update_trend, insert_trend, try_except, bind, get, ret.
  pose proof (stable_execute w) as S1.
  destruct (execute w) as [[[]|e] w1]; simpl in S1 |- *; [|rewrite S1; exact U].
  destruct (filter _ (trends w1)) as [|e es] eqn:F.
  - pose proof (stable_execute w1) as S2.
    destruct (execute w1) as [[[]|e] w2]; simpl in S2 |- *;
      [|rewrite S2, S1; exact U].
    rewrite S2. apply unique_keys_insert; [rewrite S1; exact U|].
    apply select_empty_absent. exact F.
  - pose proof (stable_execute w1) as S2.
    destruct (execute w1) as [[[]|e'] w2]; simpl in S2 |- *;
      [|rewrite S2, S1; exact U].
    unfold unique_keys. rewrite update_keeps_keys, S2, S1. exact U.
Qed.

Lemma save_loop_unique (u : text) (t : Z) (ts : list Trend) :
  forall n w, unique_keys (trends w) ->
              unique_keys (trends (snd (save_loop u t ts n w))).
Proof.
  induction ts as [|d ts IH]; intros n w U; [exact U|].
  cbn [save_loop]. unfold bind at 1.
  pose proof (@upsert_unique u d t n w U) as U1.
  destruct (try_except _ _ w) as [[n'|e] w1]; simpl in U1 |- *;
    [apply IH|]; exact U1.
Qed.

Lemma save_trends_unique (u : text) (ts : list Trend) (w : World) :
  unique_keys (trends w) ->
  unique_keys (trends (snd (save_trends u ts w))).
Proof.
  intros U. unfold save_trends, try_except.
  destruct ts as [|d ts]; [exact U|].
  unfold bind at 1, get.
  pose proof (@save_loop_unique u (now w) (d :: ts) 0 w U) as U1.
  destruct (save_loop u (now w) (d :: ts) 0 w) as [[n|e] w1]; exact U1.
Qed.




Lemma detect_and_save_unique (u : text) (w : World) :
  unique_keys (trends w) ->
  unique_keys (trends (snd (detect_and_save_trends u w))).
Proof.
  intros U. unfold detect_and_save_trends, try_except.
  unfold bind at 1.
  pose proof (stable_detect_trends u 10 w) as S1.
  destruct (detect_trends u 10 w) as [[found|e] w1]; simpl in S1;
    [|simpl; rewrite S1; exact U].
  destruct found as [|d ds]; [simpl; rewrite S1; exact U|].
  unfold bind at 1.
  assert (U1 : unique_keys (trends w1)) by (rewrite S1; exact U).
  pose proof (@save_trends_unique u (d :: ds) w1 U1) as U2.
  destruct (save_trends u (d :: ds) w1) as [[n|e] w2]; simpl in U2;
    [|exact U2].
  unfold bind at 1.
  pose proof (stable_get_top_trends u 3 w2) as S3.
  destruct (get_top_trends u 3 w2) as [[top|e] w3]; simpl in S3 |- *;
    rewrite S3; exact U2.
Qed.


End Upsert.

(** ** Orchestration: what reaches the caller *)

Section Failure.

Lemma never_raises_ret {A} (a : A) : never_raises (ret a).
Proof. intros w. exists a, w. reflexivity. Qed.

Lemma never_raises_try {A} (m : M A) (h : Exception -> M A) :
  (forall e, never_raises (h e)) -> never_raises (try_except m h).
Proof.
  intros H w. unfold try_except.
  destruct (m w) as [[a|e] w']; [exists a, w'; reflexivity | apply H].
Qed.

Lemma never_raises_bind {A B} (m : M A) (k : A -> M B) :
  never_raises m -> (forall a, never_raises (k a)) -> never_raises (bind m k).
Proof.
  intros Hm Hk w. unfold bind.
  destruct (Hm w) as (a & w' & E). rewrite E. apply Hk.
Qed.

Lemma never_raises_detect_trends u n : never_raises (detect_trends u n).
Proof. apply never_raises_try. intro. apply never_raises_ret. Qed.

Lemma never_raises_save_trends u ts : never_raises (save_trends u ts).
Proof. apply never_raises_try. intro. apply never_raises_ret. Qed.

Lemma never_raises_get_top_trends u n : never_raises (get_top_trends u n).
Proof. apply never_raises_try. intro. apply never_raises_ret. Qed.

(** The counter of [save_trends] grows by at most one per trend. *)
Lemma save_loop_count (u : text) (t : Z) (ts : list Trend) :
  forall n w a w', save_loop u t ts n w = (Ok a, w') -> a <= n + length ts.
Proof.
  induction ts as [|d ts IH]; intros n w a w' E.
  - injection E as <- _. simpl. lia.
  - cbn [save_loop] in E. unfold bind at 1 in E.
    destruct (try_except _ _ w) as [[n'|e] w1] eqn:B; [|discriminate].
    apply IH in E. simpl.
    assert (n' <= n + 1); [|lia].
    unfold try_except in B.
    match type of B with
    | match ?m w with _ => _ end = _ =>
        destruct (m w) as [[x|e] w2] eqn:Body
    end.
    + injection B as <- _.
      unfold bind in Body.
      destruct (select_trend u (keyword d) w) as [[ex|e] w3];
        [|discriminate].
      destruct (match ex with
                | [] => insert_trend u d t
                | e :: _ => update_trend (t_id e) d t
                end w3) as [[[]|e] w4]; [|discriminate].
      injection Body as <- _. lia.
    + injection B as <- _. lia.
Qed.

Lemma save_trends_count (u : text) (ts : list Trend) (w : World) a w' :
  save_trends u ts w = (Ok a, w') -> a <= length ts.
Proof.
  unfold save_trends, try_except. destruct ts as [|d ts].
  - intros E. injection E as <- _. simpl. lia.
  - unfold bind at 1, get.
    destruct (save_loop u (now w) (d :: ts) 0 w) as [[n|e] w1] eqn:L;
      intros E; injection E as <- _; [|lia].
    apply save_loop_count in L. exact L.
Qed.

(** C4: from every world, whatever the fault schedule of the store and
    whatever the provider answers, [detect_and_save_trends] returns a
    summary with its two counters and its top-3 list; it never raises. *)
Theorem detect_and_save_never_raises (w : World) (owner : text) :
  exists (s : Summary) (w' : World),
    detect_and_save_trends owner w = (Ok s, w')
    /\ saved s <= detected s.
Proof.
  unfold detect_and_save_trends, try_except.
  match goal with
  | |- context [match ?m w with _ => _ end] =>
      destruct (m w) as [[s|e] w1] eqn:Body
  end.
  - exists s, w1. split; [reflexivity|].
    unfold bind at 1 in Body.
    destruct (detect_trends owner 10 w) as [[found|e] w2]; [|discriminate].
    destruct found as [|d ds].
    + injection Body as <- _. simpl. lia.
    + unfold bind at 1 in Body.
      destruct (save_trends owner (d :: ds) w2) as [[n|e] w3] eqn:Sv;
        [|discriminate].
      unfold bind at 1 in Body.
      destruct (get_top_trends owner 3 w3) as [[top|e] w4]; [|discriminate].
      injection Body as <- _. cbn [saved detected].
      apply save_trends_count in Sv. exact Sv.
  - exists empty_summary, w1. split; [reflexivity | simpl; lia].
Qed.

Lemma execute_fault (w : World) (f : list bool) :
  faults w = true :: f -> execute w = (Raised DbError, set_faults w f).
Proof. intros E. unfold execute. rewrite E. reflexivity. Qed.

Lemma extract_unreachable (u : text) (d : Z) (n : nat) (w : World) f :
  faults w = true :: f ->
  extract_keywords_from_content u d n w = (Ok [], set_faults w f).
Proof.
  intros E.
  unfold extract_keywords_from_content, select_content, try_except, bind,
    get, ret.
  rewrite (execute_fault w E). reflexivity.
Qed.

(** C5, as the code has it: when the first query of the content store
    fails, [extract_keywords_from_content] catches the failure and returns
    an empty list, so [detect_trends] returns no trend and
    [detect_and_save_trends] returns the empty summary; nothing reaches
    the caller as an exception. *)
Theorem unreachable_store_degrades (w : World) (owner : text) :
  hd false (faults w) = true ->
  fst (extract_keywords_from_content owner 7 2 w) = Ok []
  /\ fst (detect_trends owner 10 w) = Ok []
  /\ fst (detect_and_save_trends owner w) = Ok empty_summary.
Proof.
  intros H. destruct (faults w) as [|[|] f] eqn:E; try discriminate.
  assert (D : detect_trends owner 10 w = (Ok [], set_faults w f)).
  { unfold detect_trends, try_except, bind.
    rewrite (extract_unreachable owner 7 2 w E). reflexivity. }
  split; [rewrite (extract_unreachable owner 7 2 w E); reflexivity|].
  split; [rewrite D; reflexivity|].
  unfold detect_and_save_trends, try_except, bind. rewrite D. reflexivity.
Qed.

End Failure.

(** ** Concrete runs *)

Section Runs.


Lemma unreachable_store_degrades_witness :
  fst (detect_and_save_trends (T "u1") unreachable_world) = Ok empty_summary.
Proof.
  apply (@unreachable_store_degrades unreachable_world (T "u1")).
  reflexivity.
Defined.

(** With a store that fails on every call, the top-level operation returns
    the empty summary instead of raising. *)
Lemma unreachable_store_not_propagated :
  fst (detect_and_save_trends (T "u1") unreachable_world) = Ok empty_summary
  /\ ~ propagation_claim unreachable_world (T "u1").
Proof.
  split; [vm_compute; reflexivity|].
  intros P. destruct (P eq_refl) as [e E].
  vm_compute in E. discriminate.
Qed.

End Runs.

(** ** Sorting and truncation *)

Section Sorting.

Context {A : Type} (lt : A -> A -> bool).

Lemma In_insert_by (x z : A) (l : list A) :
  In z (insert_by lt x l) <-> z = x \/ In z l.
Proof.
  induction l as [|y l IH]; simpl; [intuition congruence|].
  destruct (lt x y); simpl; rewrite ?IH; intuition congruence.
Qed.

Lemma In_sort_by (z : A) (l : list A) : In z (sort_by lt l) <-> In z l.
Proof.
  unfold sort_by. induction l as [|x l IH]; simpl; [tauto|].
  rewrite In_insert_by, IH. intuition congruence.
Qed.

End Sorting.

Section Truncation.

Context {A : Type}.

Lemma In_firstn (z : A) (n : nat) (l : list A) :
  In z (firstn n l) -> In z l.
Proof.
  revert n. induction l as [|x l IH]; intros [|n]; simpl; try tauto.
  intros [H|H]; [left; exact H | right; exact (IH n H)].
Qed.

Lemma firstn_sorted (R : A -> A -> Prop) (n : nat) (l : list A) :
  StronglySorted R l -> StronglySorted R (firstn n l).
Proof.
  revert n. induction l as [|x l IH]; intros [|n] S; simpl;
    try constructor.
  - apply IH. inversion S; assumption.
  - inversion S as [|? ? _ F]; subst.
    rewrite Forall_forall in *. intros z Hz. apply F.
    exact (In_firstn _ _ _ Hz).
Qed.


End Truncation.

Section Ranking.

Local Open Scope Q_scope.

Lemma row_score_lt_spec (x y : TrendRow) :
  row_score_lt x y = true <-> t_score x < t_score y.
Proof.
  unfold row_score_lt. rewrite Qlt_alt.
  destruct (t_score x ?= t_score y); split; congruence.
Qed.

Lemma insert_row_sorted (x : TrendRow) (l : list TrendRow) :
  StronglySorted row_ge l -> StronglySorted row_ge (insert_by row_score_lt x l).
Proof.
  induction l as [|y l IH]; intros S; simpl.
  - repeat constructor.
  - inversion S as [|? ? S' F]; subst.
    destruct (row_score_lt x y) eqn:E.
    + apply row_score_lt_spec in E.
      constructor; [exact (IH S')|].
      rewrite Forall_forall in *. intros z Hz.
      apply In_insert_by in Hz as [->|Hz];
        [unfold row_ge; lra | exact (F z Hz)].
    + assert (G : t_score y <= t_score x).
      { apply Qnot_lt_le. intros L. apply row_score_lt_spec in L. congruence. }
      constructor; [exact S|].
      constructor; [exact G|].
      rewrite Forall_forall in *. intros z Hz.
      specialize (F z Hz). unfold row_ge in *. lra.
Qed.

Lemma sort_rows_sorted (l : list TrendRow) :
  StronglySorted row_ge (sort_by row_score_lt l).
Proof.
  unfold sort_by. induction l as [|x l IH]; simpl; [constructor|].
  apply insert_row_sorted. exact IH.
Qed.

Lemma map_response_sorted (l : list TrendRow) :
  StronglySorted row_ge l -> StronglySorted response_ge (map response_of l).
Proof.
  induction 1 as [|x l S IH F]; simpl; constructor; [exact IH|].
  rewrite Forall_forall in *. intros z Hz.
  apply in_map_iff in Hz as (r & <- & Hr). exact (F r Hr).
Qed.

End Ranking.

Section TopTrends.

Lemma parse_ids_run (ids : list text) (w : World) :
  parse_ids ids w
  = (if forallb (uuid_ok w) ids then Ok ids else Raised ValueError, w).
Proof.
  induction ids as [|i ids IH]; [reflexivity|].
  cbn [parse_ids forallb]. unfold bind at 1, UUID, bind, get, ret, raise.
  destruct (uuid_ok w i); [|reflexivity].
  unfold bind. rewrite IH.
  destruct (forallb (uuid_ok w) ids); reflexivity.
Qed.

Lemma parse_row_run (row : TrendRow) (w : World) :
  parse_row row w
  = (if parses w row then Ok (response_of row) else Raised ValueError, w).
Proof.
  unfold parse_row, bind. rewrite parse_ids_run. unfold parses.
  destruct (forallb (uuid_ok w) (t_related_content_ids row)); reflexivity.
Qed.

Lemma parse_loop_run (rows : list TrendRow) (w : World) :
  parse_loop rows w = (Ok (map response_of (filter (parses w) rows)), w).
Proof.
  induction rows as [|row rows IH]; [reflexivity|].
  cbn [parse_loop filter]. unfold bind, try_except.
  rewrite parse_row_run.
  destruct (parses w row); unfold ret; rewrite IH; reflexivity.
Qed.

Lemma execute_frame (w w1 : World) (o : outcome unit) :
  execute w = (o, w1) ->
  trends w1 = trends w /\ now w1 = now w /\ uuid_ok w1 = uuid_ok w.
Proof.
  unfold execute. destruct (faults w) as [|[|] f]; intros E;
    injection E as <- <-; auto.
Qed.

Lemma get_top_trends_run (w : World) (owner : text) (limit : nat) :
  fst (get_top_trends owner limit w) = Ok []
  \/ (hd false (faults w) = false
      /\ fst (get_top_trends owner limit w)
         = Ok (map response_of (filter (parses w) (top_rows w owner limit)))).
Proof.
  unfold get_top_trends, select_top, try_except, bind, get, ret.
  destruct (execute w) as [[[]|e] w1] eqn:X; cbv beta iota;
    [|left; reflexivity].
  assert (F : hd false (faults w) = false).
  { unfold execute in X. destruct (faults w) as [|[|] f];
      [reflexivity | discriminate | reflexivity]. }
  apply execute_frame in X as (Et & En & Eu).
  rewrite Et. fold (top_rows w owner limit).
  destruct (top_rows w owner limit) eqn:R; [left; reflexivity|].
  right. split; [exact F|]. rewrite parse_loop_run.
  unfold parses. rewrite Eu. reflexivity.
Qed.



Lemma top_rows_length (w : World) (owner : text) (limit : nat) :
  length (top_rows w owner limit) <= limit.
Proof. unfold top_rows. apply firstn_le_length. Qed.

Lemma filter_length_le {A} (p : A -> bool) (l : list A) :
  length (filter p l) <= length l.
Proof.
  induction l as [|x l IH]; simpl; [lia|]. destruct (p x); simpl; lia.
Qed.




End TopTrends.

(** ** ExternalSignalProvider *)

Section Dict.

Lemma dict_get_set (d : dict) (k k' : text) (v : Q) :
  dict_get (dict_set d k v) k'
  = if text_eqb k k' then Some v else dict_get d k'.
Proof.
  induction d as [|[k0 v0] d IH]; simpl; [reflexivity|].
  destruct (text_eqb k0 k) eqn:E; simpl.
  - apply text_eqb_eq in E. subst k0.
    destruct (text_eqb k k'); reflexivity.
  - destruct (text_eqb k0 k') eqn:E'; [|exact IH].
    apply text_eqb_eq in E'. subst k0.
    destruct (text_eqb k k') eqn:E2; [|reflexivity].
    apply text_eqb_eq in E2. subst k'.
    rewrite text_eqb_refl in E. discriminate.
Qed.

Lemma has_key_get (e : dict) (kw : text) :
  has_key e kw = match dict_get e kw with Some _ => true | None => false end.
Proof.
  induction e as [|[k v] e IH]; simpl; [reflexivity|].
  destruct (text_eqb k kw); simpl; [reflexivity | exact IH].
Qed.

(** Updating with entries that all carry [g] of their key. *)
Lemma dict_get_update (g : text -> Q) (e : dict) (kw : text) :
  (forall k v, In (k, v) e -> v = g k) ->
  forall d,
    dict_get (dict_update d e) kw
    = if has_key e kw then Some (g kw) else dict_get d kw.
Proof.
  unfold dict_update.
  induction e as [|[k v] e IH]; intros G d; simpl; [reflexivity|].
  rewrite IH by (intros; apply G; right; assumption).
  rewrite dict_get_set.
  destruct (has_key e kw); [rewrite orb_true_r; reflexivity|].
  rewrite orb_false_r.
  destruct (text_eqb k kw) eqn:E; [|reflexivity].
  apply text_eqb_eq in E. subst k.
  rewrite (G kw v) by (left; reflexivity). reflexivity.
Qed.

Lemma In_dict_set (d : dict) (k0 : text) (v0 : Q) (kv : text * Q) :
  In kv (dict_set d k0 v0) -> In kv d \/ kv = (k0, v0).
Proof.
  induction d as [|[k v] d IH]; simpl.
  - intros [<-|[]]. right. reflexivity.
  - destruct (text_eqb k k0) eqn:E; simpl.
    + apply text_eqb_eq in E. subst k.
      intros [<-|H]; [right; reflexivity | left; right; exact H].
    + intros [<-|H]; [left; left; reflexivity|].
      destruct (IH H) as [H'|H']; [left; right; exact H' | right; exact H'].
Qed.

Lemma In_dict_update (e d : dict) (kv : text * Q) :
  In kv (dict_update d e) -> In kv d \/ In kv e.
Proof.
  unfold dict_update. revert d.
  induction e as [|[k v] e IH]; intros d; simpl; [tauto|].
  intros H. destruct (IH _ H) as [H'|H']; [|tauto].
  destruct (In_dict_set _ _ _ _ H') as [H2|H2]; [tauto|].
  right. left. symmetry. exact H2.
Qed.

Lemma in_batch (kw : text) (b : list text) (g : text -> Q) :
  has_key (map (fun k => (k, g k)) b) kw = true <-> In kw b.
Proof.
  unfold has_key. rewrite existsb_exists. split.
  - intros (kv & Hin & E). apply in_map_iff in Hin as (k & <- & Hk).
    apply text_eqb_eq in E. simpl in E. subst k. exact Hk.
  - intros H. exists (kw, g kw). split; [|apply text_eqb_refl].
    apply in_map_iff. exists kw. auto.
Qed.

(** The contribution of a batch maps exactly its keywords, each to its
    fetched score. *)
Lemma batch_dict_get (f : Frame) (b : list text) (kw : text) :
  dict_get (batch_dict f b) kw
  = if has_key (map (fun k => (k, fetched f k)) b) kw
    then Some (fetched f kw) else None.
Proof.
  unfold batch_dict.
  rewrite (@dict_get_update (fetched f)); [reflexivity|].
  intros k v H. apply in_map_iff in H as (k' & E & _).
  injection E as <- <-. reflexivity.
Qed.

Lemma update_with_batch (d : dict) (f : Frame) (b : list text) (kw : text) :
  dict_get (dict_update d (batch_dict f b)) kw
  = if has_key (map (fun k => (k, fetched f k)) b) kw
    then Some (fetched f kw) else dict_get d kw.
Proof.
  rewrite (@dict_get_update (fetched f)).
  - rewrite has_key_get, batch_dict_get.
    destruct (has_key (map _ b) kw); reflexivity.
  - intros k v H. apply In_dict_update in H as [[]|H].
    apply in_map_iff in H as (k' & E & _).
    injection E as <- <-. reflexivity.
Qed.

End Dict.

Section Batches.

Lemma firstn_plus {A} (a b : nat) (l : list A) :
  firstn (a + b) l = firstn a l ++ firstn b (skipn a l).
Proof.
  revert l. induction a as [|a IH]; intros l; [reflexivity|].
  destruct l as [|x l]; simpl; [destruct b; reflexivity|].
  rewrite IH. reflexivity.
Qed.

Lemma In_skipn_le {A} (x : A) (a b : nat) (l : list A) :
  a <= b -> In x (skipn b l) -> In x (skipn a l).
Proof.
  revert b l. induction a as [|a IH]; intros b l L H.
  - simpl. rewrite <- (firstn_skipn b l). apply in_or_app. right. exact H.
  - destruct b as [|b]; [lia|]. destruct l as [|y l]; [exact H|].
    simpl in *. apply (IH b); [lia | exact H].
Qed.

Lemma batches_prefix (keywords : list text) (m : nat) :
  concat (map (batch keywords) (seq 0 m)) = firstn (5 * m) keywords.
Proof.
  induction m as [|m IH]; [reflexivity|].
  rewrite seq_S, map_app, concat_app, IH. simpl concat.
  rewrite app_nil_r. unfold batch, slice5.
  replace (5 * S m) with (5 * m + 5) by lia.
  rewrite firstn_plus. reflexivity.
Qed.

Lemma batch_count_covers (keywords : list text) :
  length keywords <= 5 * batch_count keywords.
Proof.
  unfold batch_count.
  pose proof (Nat.div_mod_eq (length keywords + 4) 5).
  pose proof (Nat.mod_upper_bound (length keywords + 4) 5). lia.
Qed.

Lemma batch_count_tight (keywords : list text) (j : nat) :
  j < batch_count keywords -> 5 * j < length keywords.
Proof.
  unfold batch_count. intros H.
  pose proof (Nat.div_mod_eq (length keywords + 4) 5).
  pose proof (Nat.mod_upper_bound (length keywords + 4) 5). lia.
Qed.

Lemma batches_partition (keywords : list text) :
  concat (map (batch keywords) (seq 0 (batch_count keywords))) = keywords.
Proof.
  rewrite batches_prefix. apply firstn_all2. apply batch_count_covers.
Qed.

Lemma batch_length (keywords : list text) (j : nat) :
  length (batch keywords j) <= 5.
Proof. unfold batch, slice5. apply firstn_le_length. Qed.

Lemma batch_nonempty (keywords : list text) (j : nat) :
  5 * j < length keywords -> batch keywords j <> [].
Proof.
  unfold batch, slice5. intros H E.
  apply (f_equal (@length text)) in E.
  rewrite length_firstn, length_skipn in E.
  change (length (@nil text)) with 0 in E. lia.
Qed.

Lemma in_batch_lt (keywords : list text) (j : nat) (kw : text) :
  In kw (batch keywords j) -> j < batch_count keywords.
Proof.
  intros H.
  destruct (Nat.lt_ge_cases j (batch_count keywords)) as [L|G]; [exact L|].
  exfalso. unfold batch, slice5 in H.
  pose proof (batch_count_covers keywords).
  rewrite skipn_all2 in H by lia. destruct H.
Qed.

Lemma later_batch_in_tail (keywords : list text) (j j' : nat) (kw : text) :
  j < j' -> In kw (batch keywords j') -> In kw (skipn (5 * j + 5) keywords).
Proof.
  intros L H. unfold batch, slice5 in H.
  apply (@In_skipn_le _ kw (5 * j + 5) (5 * j')); [lia|].
  rewrite <- (firstn_skipn 5 (skipn (5 * j') keywords)).
  apply in_or_app. left. exact H.
Qed.

(** One call of [get_interest_over_time] on a batch. *)
Lemma get_interest_over_time_run (b : list text) (w : World) :
  b <> [] -> length b <= 5 ->
  get_interest_over_time b w
  = (Ok (batch_dict (provider w (provider_calls w) b) b),
     set_provider_calls w (S (provider_calls w))).
Proof.
  intros N L. unfold get_interest_over_time.
  destruct b as [|k b]; [congruence|].
  rewrite (@firstn_all2 _ 5 (k :: b)) by exact L.
  unfold try_except, bind, interest_over_time, ret, batch_dict, zeros.
  destruct (provider w (provider_calls w) (k :: b)) as [| |means];
    try reflexivity.
  f_equal. f_equal. f_equal. apply map_ext. intros kw. simpl.
  destruct (dict_get means kw); reflexivity.
Qed.

Lemma batch_loop_run (keywords : list text) (js : list nat) :
  forall (results : dict) (w : World),
    (forall j, In j js -> 5 * j < length keywords) ->
    exists w',
      batch_loop keywords (map (fun j => 5 * j) js) results w
      = (Ok (loop_results (provider w) (provider_calls w) keywords js results),
         w').
Proof.
  induction js as [|j js IH]; intros results w H.
  - exists w. reflexivity.
  - cbn [map batch_loop loop_results]. unfold bind at 1.
    fold (batch keywords j).
    rewrite get_interest_over_time_run;
      [|apply batch_nonempty, H; left; reflexivity | apply batch_length].
    unfold bind at 1.
    set (w1 := set_provider_calls w (S (provider_calls w))).
    set (r1 := dict_update results _).
    assert (Hs : exists w2,
               (if 5 * j + 5 <? length keywords then sleep 2 else ret tt) w1
               = (Ok tt, w2)
               /\ provider w2 = provider w
               /\ provider_calls w2 = S (provider_calls w)).
    { destruct (5 * j + 5 <? length keywords);
        eexists; repeat split; reflexivity. }
    destruct Hs as (w2 & -> & Ep & Ec).
    destruct (IH r1 w2) as (w' & E);
      [intros; apply H; right; assumption|].
    exists w'. rewrite E, Ep, Ec. reflexivity.
Qed.

(** Batches that do not contain a keyword leave its entry alone. *)
Lemma loop_results_skip (prov : nat -> list text -> Frame)
  (keywords : list text) (kw : text) (js : list nat) :
  forall c results,
    (forall j, In j js -> ~ In kw (batch keywords j)) ->
    dict_get (loop_results prov c keywords js results) kw
    = dict_get results kw.
Proof.
  induction js as [|j js IH]; intros c results H; [reflexivity|].
  cbn [loop_results]. rewrite IH by (intros; apply H; right; assumption).
  rewrite update_with_batch.
  destruct (has_key _ kw) eqn:K; [|reflexivity].
  apply in_batch in K. exfalso. exact (H j (or_introl eq_refl) K).
Qed.

(** The entry of a keyword is written by the last batch that holds it. *)
Lemma loop_results_last (prov : nat -> list text -> Frame)
  (keywords : list text) (kw : text) (j : nat) (m : nat) :
  forall j0 c results,
    j0 <= j < j0 + m ->
    In kw (batch keywords j) ->
    (forall j', j < j' -> ~ In kw (batch keywords j')) ->
    dict_get (loop_results prov c keywords (seq j0 m) results) kw
    = Some (fetched (prov (c + (j - j0)) (batch keywords j)) kw).
Proof.
  induction m as [|m IH]; intros j0 c results R Hin Hlater; [lia|].
  cbn [seq loop_results].
  destruct (Nat.eq_dec j j0) as [->|NE].
  - rewrite loop_results_skip.
    + rewrite update_with_batch.
      replace (c + (j0 - j0)) with c by lia.
      destruct (has_key _ kw) eqn:K; [reflexivity|].
      exfalso. apply (in_batch kw _ (fetched (prov c (batch keywords j0))))
        in Hin. congruence.
    + intros j' Hj'. apply in_seq in Hj'. apply Hlater. lia.
  - rewrite (IH (S j0) (S c)); [|lia|exact Hin|exact Hlater].
    replace (S c + (j - S j0)) with (c + (j - j0)) by lia. reflexivity.
Qed.

End Batches.

Section Isolation.

(** C6, as the code has it: the keywords are cut into consecutive batches
    of at most 5, the call always returns a mapping, and a keyword takes
    the score fetched for the last batch that holds it: 0.0 when the
    provider failed on that batch, untouched by failures on other
    batches. *)
Theorem batch_get_interest_isolates (keywords : list text) (w : World) :
  concat (map (batch keywords) (seq 0 (batch_count keywords))) = keywords
  /\ (forall j, length (batch keywords j) <= 5)
  /\ exists (d : dict) (w' : World),
       batch_get_interest keywords w = (Ok d, w')
       /\ forall j kw,
            In kw (batch keywords j) ->
            ~ In kw (skipn (5 * j + 5) keywords) ->
            dict_get d kw = Some (fetched (answer w keywords j) kw)
            /\ (answer w keywords j = ProviderRaises ->
                dict_get d kw = Some 0%Q).
Proof.
  split; [apply batches_partition|]. split; [apply batch_length|].
  destruct keywords as [|k0 ks].
  { exists [], w. split; [reflexivity|].
    intros j kw H. unfold batch, slice5 in H.
    rewrite skipn_nil in H. destruct H. }
  remember (k0 :: ks) as keywords eqn:K.
  destruct (@batch_loop_run keywords (seq 0 (batch_count keywords)) [] w)
    as (w' & E).
  { intros j Hj. apply in_seq in Hj. apply batch_count_tight. lia. }
  exists (loop_results (provider w) (provider_calls w) keywords
            (seq 0 (batch_count keywords)) []), w'.
  split.
  { unfold batch_get_interest, try_except.
    transitivity
      (match batch_loop keywords (range5 (length keywords)) [] w with
       | (Ok a, w1) => (Ok a, w1)
       | (Raised e, w1) => ret (zeros keywords) w1
       end); [rewrite K; reflexivity|].
    unfold range5. fold (batch_count keywords). rewrite E. reflexivity. }
  intros j kw Hin Hlast.
  assert (G : dict_get (loop_results (provider w) (provider_calls w) keywords
                          (seq 0 (batch_count keywords)) []) kw
              = Some (fetched (answer w keywords j) kw)).
  { rewrite (@loop_results_last (provider w) keywords kw j
               (batch_count keywords) 0 (provider_calls w) []).
    - unfold answer. rewrite Nat.sub_0_r. reflexivity.
    - pose proof (@in_batch_lt keywords j kw Hin). lia.
    - exact Hin.
    - intros j' L H'. apply Hlast.
      exact (@later_batch_in_tail keywords j j' kw L H'). }
  split; [exact G|]. intros F. rewrite G, F. reflexivity.
Qed.

Lemma batch_get_interest_isolates_witness :
  exists d,
    fst (batch_get_interest repeated_keywords flaky_world) = Ok d
    /\ dict_get d (T "beta") = Some 0%Q
    /\ dict_get d (T "alpha") = Some 50%Q.
Proof.
  destruct (batch_get_interest_isolates repeated_keywords flaky_world)
    as (_ & _ & d & w' & E & H).
  exists d. split; [rewrite E; reflexivity|]. split.
  - apply (H 0 (T "beta")).
    + vm_compute. right. left. reflexivity.
    + vm_compute. intros [A|[]]. discriminate.
    + reflexivity.
  - destruct (H 1 (T "alpha")) as [G _].
    + vm_compute. left. reflexivity.
    + vm_compute. intros [].
    + rewrite G. reflexivity.
Defined.

(** With a keyword repeated in a later batch, the provider failing on the
    first batch and answering the second, the keyword of the failed batch
    ends at 50.0, not at 0.0. *)
Lemma repeated_keyword_overwritten :
  In (T "alpha") (batch repeated_keywords 0)
  /\ answer flaky_world repeated_keywords 0 = ProviderRaises
  /\ (exists d, fst (batch_get_interest repeated_keywords flaky_world) = Ok d
                /\ dict_get d (T "alpha") = Some 50%Q)
  /\ ~ batch_claim repeated_keywords flaky_world.
Proof.
  assert (I : In (T "alpha") (batch repeated_keywords 0))
    by (vm_compute; left; reflexivity).
  assert (F : answer flaky_world repeated_keywords 0 = ProviderRaises)
    by reflexivity.
  split; [exact I|]. split; [exact F|]. split.
  - eexists. split; [vm_compute; reflexivity|]. vm_compute. reflexivity.
  - intros C. destruct (C 0 (T "alpha") I F) as (d & E & G).
    vm_compute in E. injection E as <-. vm_compute in G. discriminate.
Qed.

End Isolation.

(** ** KeywordExtractor: counting and truncation *)

Section Counting.

Lemma counter_add_keys (w k : text) (c : list (text * nat)) :
  In k (map fst (counter_add w c)) <-> k = w \/ In k (map fst c).
Proof.
  induction c as [|[k0 m] c IH]; simpl; [intuition congruence|].
  destruct (text_eqb k0 w) eqn:E; simpl.
  - apply text_eqb_eq in E. subst k0. intuition congruence.
  - rewrite IH. intuition congruence.
Qed.

Lemma counter_keys_from (ws : list text) (k : text) :
  forall c,
    In k (map fst (fold_left (fun c w => counter_add w c) ws c))
    <-> In k ws \/ In k (map fst c).
Proof.
  induction ws as [|w ws IH]; intros c; simpl; [tauto|].
  rewrite IH, counter_add_keys. intuition congruence.
Qed.

(** The keys of a [Counter] are the counted words. *)
Lemma Counter_keys (ws : list text) (k : text) :
  In k (map fst (Counter ws)) <-> In k ws.
Proof. unfold Counter. rewrite counter_keys_from. simpl. tauto. Qed.

Lemma most_common_keys (n : nat) (ws : list text) (k : text) :
  In k (map fst (most_common n (Counter ws))) -> In k ws.
Proof.
  intros H. apply in_map_iff in H as ([k' m] & <- & H).
  unfold most_common in H. apply In_firstn in H. apply In_sort_by in H.
  apply Counter_keys. apply in_map_iff. exists (k', m). auto.
Qed.

Lemma length_insert_by {A} (lt : A -> A -> bool) (x : A) (l : list A) :
  length (insert_by lt x l) = S (length l).
Proof.
  induction l as [|y l IH]; simpl; [reflexivity|].
  destruct (lt x y); simpl; [rewrite IH|]; reflexivity.
Qed.

Lemma length_sort_by {A} (lt : A -> A -> bool) (l : list A) :
  length (sort_by lt l) = length l.
Proof.
  unfold sort_by. induction l as [|x l IH]; simpl; [reflexivity|].
  rewrite length_insert_by, IH. reflexivity.
Qed.

(** Without truncation every counted word is returned. *)
Lemma most_common_all (n : nat) (ws : list text) (k : text) :
  length (Counter ws) <= n -> In k ws ->
  In k (map fst (most_common n (Counter ws))).
Proof.
  intros L H. unfold most_common.
  rewrite firstn_all2 by (rewrite length_sort_by; exact L).
  apply Counter_keys in H. apply in_map_iff in H as (kv & E & H).
  apply in_map_iff. exists kv. split; [exact E|].
  apply In_sort_by. exact H.
Qed.

Lemma extract_subset (s : text) (n mk : nat) (t : text) :
  In t (extract_keywords_from_text (Some s) n mk) -> In t (keywords_of s n).
Proof.
  destruct s as [|c s]; [intros []|].
  unfold extract_keywords_from_text. apply most_common_keys.
Qed.

End Counting.

(** ** KeywordExtractor: the tokens *)

Section Tokens.

Lemma take_while_all (p : ascii -> bool) (s : text) :
  forallb p (take_while p s) = true.
Proof.
  induction s as [|c s IH]; simpl; [reflexivity|].
  destruct (p c) eqn:E; simpl; [rewrite E; exact IH | reflexivity].
Qed.

Lemma tag_match_is_tag (s t : text) : tag_match s = Some t -> is_tag t = true.
Proof.
  unfold tag_match. destruct s as [|c r]; [discriminate|].
  destruct (is_tag_char c) eqn:E; simpl; [|discriminate].
  destruct (nonempty _); [|discriminate].
  intros H. injection H as <-. exact E.
Qed.

Lemma plain_match_length (n : nat) (prev : option ascii) (s t : text) :
  plain_match n prev s = Some t -> n <= length t.
Proof.
  unfold plain_match. destruct (word_boundary prev (hd_error s)); [|discriminate].
  destruct (n <=? length (take_while is_az s)) eqn:L; simpl.
  - destruct (nonempty _ && _).
    + intros H. injection H as <-. apply Nat.leb_le. exact L.
    + destruct (n =? 0) eqn:Z; [|discriminate].
      intros _. apply Nat.eqb_eq in Z. lia.
  - destruct (n =? 0) eqn:Z; [|discriminate].
    intros _. apply Nat.eqb_eq in Z. lia.
Qed.

Lemma plain_match_letters (n : nat) (prev : option ascii) (s t : text) :
  plain_match n prev s = Some t -> forallb is_az t = true.
Proof.
  unfold plain_match. destruct (word_boundary prev (hd_error s)); [|discriminate].
  destruct (_ && _).
  - intros H. injection H as <-. apply take_while_all.
  - destruct (n =? 0); [|discriminate]. intros H. injection H as <-.
    reflexivity.
Qed.

(** Every token is a hashtag, a mention, or a run of at least [n] letters. *)
Lemma token_match_kind (n : nat) (prev : option ascii) (s t : text) :
  token_match n prev s = Some t -> is_tag t = true \/ n <= length t.
Proof.
  unfold token_match. destruct (tag_match s) eqn:E.
  - intros H. injection H as <-. left. exact (tag_match_is_tag _ E).
  - intros H. right. exact (plain_match_length _ _ _ H).
Qed.

Lemma findall_go_kind (n : nat) (t : text) (s : text) :
  forall prev skip,
    In t (findall_go n prev skip s) -> is_tag t = true \/ n <= length t.
Proof.
  induction s as [|c s IH]; intros prev skip; simpl.
  - destruct skip; [|intros []].
    destruct (token_match n prev []) eqn:E; [|intros []].
    intros [<-|[]]. exact (token_match_kind _ _ _ E).
  - destruct skip; [|apply IH].
    destruct (token_match n prev (c :: s)) eqn:E; [|apply IH].
    intros [<-|H]; [exact (token_match_kind _ _ _ E) | exact (IH _ _ H)].
Qed.

(** C9: with [min_length = 3], every returned token that is neither a
    hashtag nor a mention has at least 3 characters. *)
Theorem plain_tokens_at_least_three (txt : option text) (max_keywords : nat)
  (t : text) :
  In t (extract_keywords_from_text txt 3 max_keywords) ->
  is_tag t = false ->
  3 <= length t.
Proof.
  intros H P. destruct txt as [s|]; [|destruct H].
  apply extract_subset in H. unfold keywords_of in H.
  apply filter_In in H as [H _]. unfold findall in H.
  apply findall_go_kind in H as [H|H]; [congruence | exact H].
Qed.

Lemma plain_tokens_at_least_three_witness :
  extract_keywords_from_text
    (Some (T "Go to the Moon: moon rockets, #ai and @x by 2030")) 3 20
  = map T ["moon"; "rockets"; "#ai"; "@x"]%string
  /\ 3 <= length (T "moon").
Proof.
  split; [vm_compute; reflexivity|].
  apply (@plain_tokens_at_least_three
           (Some (T "Go to the Moon: moon rockets, #ai and @x by 2030"))
           20 (T "moon")).
  - vm_compute. left. reflexivity.
  - reflexivity.
Defined.

End Tokens.

(** ** KeywordExtractor: hashtags and mentions *)

Section Tags.

Lemma az_not_tag_char (c : ascii) : is_az c = true -> is_tag_char c = false.
Proof.
  unfold is_az, between, is_tag_char. intros H.
  apply andb_prop in H as [H1 H2]. apply Nat.leb_le in H1.
  destruct (code c =? 35) eqn:A; [apply Nat.eqb_eq in A; lia|].
  destruct (code c =? 64) eqn:B; [apply Nat.eqb_eq in B; lia|].
  reflexivity.
Qed.

Lemma letters_not_tag (t : text) : forallb is_az t = true -> is_tag t = false.
Proof.
  destruct t as [|c t]; [reflexivity|]. simpl. intros H.
  apply andb_prop in H as [H _]. exact (az_not_tag_char _ H).
Qed.

Lemma tag_match_head (c : ascii) (s : text) :
  is_tag_char c = false -> tag_match (c :: s) = None.
Proof. intros H. unfold tag_match. rewrite H. reflexivity. Qed.

Lemma plain_match_tail (n : nat) (prev : option ascii) (c : ascii)
  (s t : text) :
  plain_match n prev (c :: s) = Some t ->
  forallb (fun x => negb (is_tag_char x)) (firstn (pred (length t)) s) = true.
Proof.
  unfold plain_match.
  destruct (word_boundary prev (hd_error (c :: s))); [|discriminate].
  destruct (_ && _).
  - intros H. injection H as <-. simpl.
    destruct (is_az c); [|reflexivity]. simpl.
    induction s as [|x s IH]; [reflexivity|]. simpl.
    destruct (is_az x) eqn:E; [|reflexivity]. simpl.
    rewrite (az_not_tag_char _ E). exact IH.
  - destruct (n =? 0); [|discriminate]. intros H. injection H as <-.
    reflexivity.
Qed.

(** The hashtags and mentions among the tokens do not depend on [n]:
    a plain match passes over letters only. *)
Lemma tags_of_findall_go (n : nat) (s : text) :
  (forall prev skip,
     filter is_tag (findall_go n prev skip s) = find_tags_go skip s)
  /\ (forall prev skip,
        forallb (fun x => negb (is_tag_char x)) (firstn skip s) = true ->
        filter is_tag (findall_go n prev skip s) = find_tags_go 0 s).
Proof.
  induction s as [|c s [IH1 IH2]].
  - assert (E : forall prev skip,
               filter is_tag (findall_go n prev skip []) = []).
    { intros prev [|k]; [|reflexivity]. cbn [findall_go].
      unfold token_match. cbn [tag_match].
      destruct (plain_match n prev []) eqn:P; [|reflexivity].
      cbn [filter]. rewrite (letters_not_tag _ (plain_match_letters _ _ _ P)).
      reflexivity. }
    split; intros; apply E.
  - assert (Z : forall prev,
               filter is_tag (findall_go n prev 0 (c :: s))
               = find_tags_go 0 (c :: s)).
    { intros prev. cbn [findall_go find_tags_go]. unfold token_match.
      destruct (tag_match (c :: s)) as [t|] eqn:M.
      - cbn [filter]. rewrite (tag_match_is_tag _ M), IH1. reflexivity.
      - destruct (plain_match n prev (c :: s)) as [t|] eqn:P; [|apply IH1].
        cbn [filter].
        rewrite (letters_not_tag _ (plain_match_letters _ _ _ P)).
        apply IH2. exact (plain_match_tail _ _ _ _ P). }
    split.
    + intros prev [|k]; [apply Z|]. cbn [findall_go find_tags_go]. apply IH1.
    + intros prev [|k] H; [apply Z|].
      cbn [firstn forallb] in H. apply andb_prop in H as [Hc Hs].
      cbn [findall_go find_tags_go].
      rewrite tag_match_head by (destruct (is_tag_char c); [discriminate|reflexivity]).
      apply IH2. exact Hs.
Qed.

Lemma tags_of_findall (n : nat) (s : text) :
  filter is_tag (findall n s) = find_tags s.
Proof. apply (proj1 (tags_of_findall_go n s)). Qed.

Lemma tags_of_keywords (s : text) (n : nat) :
  filter is_tag (keywords_of s n) = find_tags (sub_urls 0 (lower s)).
Proof.
  unfold keywords_of. rewrite <- (tags_of_findall n).
  induction (findall n (sub_urls 0 (lower s))) as [|t ts IH]; [reflexivity|].
  cbn [filter]. unfold keep_keyword at 1.
  destruct (is_tag t) eqn:E; [cbn [filter]; rewrite E, IH; reflexivity|].
  destruct (negb (mem t stop_words)); cbn [filter]; rewrite ?E; exact IH.
Qed.

(** C10: the hashtags and mentions kept by [extract_keywords_from_text] are
    those of the text, whatever [min_length]: each of them is among the
    kept keywords, and in the result when the distinct keywords are not
    more than [max_keywords]; "#a" is returned with [min_length = 3]. *)
Theorem tags_bypass_min_length (s : text) (min_length max_keywords : nat)
  (t : text) :
  filter is_tag (keywords_of s min_length) = find_tags (sub_urls 0 (lower s))
  /\ (In t (find_tags (sub_urls 0 (lower s))) ->
      In t (keywords_of s min_length)
      /\ (length (Counter (keywords_of s min_length)) <= max_keywords ->
          In t (extract_keywords_from_text (Some s) min_length max_keywords)))
  /\ extract_keywords_from_text (Some (T "#a")) 3 20 = [T "#a"].
Proof.
  split; [apply tags_of_keywords|]. split; [|reflexivity].
  intros H. rewrite <- (tags_of_keywords s min_length) in H.
  apply filter_In in H as [H _].
  split; [exact H|]. intros L.
  destruct s as [|c s]; [destruct H|].
  unfold extract_keywords_from_text. apply most_common_all; assumption.
Qed.

Lemma tags_bypass_min_length_witness :
  In (T "#a") (extract_keywords_from_text (Some (T "big #a news @b")) 5 20).
Proof.
  destruct (@tags_bypass_min_length (T "big #a news @b") 5 20 (T "#a"))
    as (_ & H & _).
  destruct H as [_ H].
  - vm_compute. left. reflexivity.
  - apply H. vm_compute. lia.
Defined.

End Tags.

(** ** KeywordExtractor: texts of stop words *)

Section StopWords.

Lemma stop_words_good : forallb good_word stop_words = true.
Proof. vm_compute. reflexivity. Qed.

Lemma stop_word_good (w : text) : In w stop_words -> good_word w = true.
Proof.
  intros H. exact (proj1 (forallb_forall good_word stop_words)
                     stop_words_good w H).
Qed.

Lemma good_word_parts (w : text) :
  good_word w = true ->
  w <> [] /\ forallb is_az w = true /\ url_free w = true.
Proof.
  unfold good_word. intros H.
  apply andb_prop in H as [H U]. apply andb_prop in H as [N L].
  repeat split; try assumption. intros ->. discriminate.
Qed.

Lemma is_az_word (c : ascii) : is_az c = true -> is_word c = true.
Proof. intros H. unfold is_word. rewrite H. reflexivity. Qed.

Lemma separator_not_word (c : ascii) :
  is_separator c = true -> is_word c = false.
Proof.
  unfold is_separator. intros H. apply andb_prop in H as [H _].
  destruct (is_word c); [discriminate | reflexivity].
Qed.

Lemma separator_not_tag (c : ascii) :
  is_separator c = true -> is_tag_char c = false.
Proof.
  unfold is_separator. intros H. apply andb_prop in H as [_ H].
  destruct (is_tag_char c); [discriminate | reflexivity].
Qed.

Lemma not_word_not_az (c : ascii) : is_word c = false -> is_az c = false.
Proof.
  intros H. destruct (is_az c) eqn:E; [|reflexivity].
  rewrite (is_az_word _ E) in H. discriminate.
Qed.

Lemma not_word_not_upper (c : ascii) : is_word c = false -> is_upper c = false.
Proof.
  unfold is_word. intros H.
  destruct (is_upper c); [|reflexivity].
  rewrite orb_true_r in H. discriminate.
Qed.

(** *** [lower()] keeps the shape of the text *)

Lemma lower_separator (c : ascii) :
  is_separator c = true -> lower_char c = c.
Proof.
  intros H. unfold lower_char.
  rewrite (not_word_not_upper _ (separator_not_word _ H)). reflexivity.
Qed.

Lemma lower_stop_text (s : text) : only_stop_words s -> stop_text (lower s).
Proof.
  unfold only_stop_words, stop_text.
  induction 1 as [|c s C _ IH|w P|w c s P C _ IH].
  - constructor.
  - simpl. rewrite (lower_separator _ C). apply wa_sep; assumption.
  - apply wa_last. exact P.
  - unfold lower. rewrite map_app. simpl. rewrite (lower_separator _ C).
    apply wa_word; assumption.
Qed.

(** *** No URL is stripped *)

Lemma url_match_none (s : text) : url_start s = false -> url_match s = None.
Proof.
  unfold url_start, url_match.
  destruct (strip_prefix (T "http") s); [discriminate|].
  destruct (strip_prefix (T "www") s); [discriminate | reflexivity].
Qed.

Lemma strip_prefix_in_word (p b rest : text) :
  forallb is_az p = true -> ends_word rest = true ->
  strip_prefix p (b ++ rest) <> None -> strip_prefix p b <> None.
Proof.
  revert b. induction p as [|a p IH]; intros b Hp He; [discriminate|].
  simpl in Hp. apply andb_prop in Hp as [Ha Hp].
  destruct b as [|x b]; simpl.
  - destruct rest as [|c rest]; [intros H; exact H|].
    simpl in He. destruct (Ascii.eqb a c) eqn:E; [|intros H; exact H].
    apply Ascii.eqb_eq in E. subst c.
    rewrite (is_az_word _ Ha) in He. discriminate He.
  - destruct (Ascii.eqb a x); [apply IH; assumption | intros H; exact H].
Qed.

Lemma url_start_in_word (b rest : text) :
  ends_word rest = true -> url_start b = false ->
  url_start (b ++ rest) = false.
Proof.
  intros He Hb. unfold url_start in *.
  pose proof (@strip_prefix_in_word (T "http") b rest eq_refl He) as H1.
  pose proof (@strip_prefix_in_word (T "www") b rest eq_refl He) as H2.
  destruct (strip_prefix (T "http") b); [discriminate|].
  destruct (strip_prefix (T "www") b); [discriminate|].
  destruct (strip_prefix (T "http") (b ++ rest));
    [exfalso; apply H1; [discriminate | reflexivity]|].
  destruct (strip_prefix (T "www") (b ++ rest));
    [exfalso; apply H2; [discriminate | reflexivity] | reflexivity].
Qed.

Lemma sub_urls_word (w rest : text) :
  url_free w = true -> ends_word rest = true ->
  sub_urls 0 (w ++ rest) = w ++ sub_urls 0 rest.
Proof.
  intros U He. induction w as [|x w IH]; [reflexivity|].
  cbn [url_free] in U. apply andb_prop in U as [U1 U2].
  change ((x :: w) ++ rest) with (x :: (w ++ rest)).
  cbn [sub_urls].
  change (x :: (w ++ rest)) with ((x :: w) ++ rest).
  rewrite url_match_none.
  - rewrite (IH U2). reflexivity.
  - apply url_start_in_word; [exact He|].
    destruct (url_start (x :: w)); [discriminate | reflexivity].
Qed.

Lemma url_start_not_word (c : ascii) (s : text) :
  is_word c = false -> url_start (c :: s) = false.
Proof.
  intros H.
  assert (E1 : Ascii.eqb "h" c = false).
  { destruct (Ascii.eqb "h" c) eqn:E; [|reflexivity].
    apply Ascii.eqb_eq in E. subst c. discriminate H. }
  assert (E2 : Ascii.eqb "w" c = false).
  { destruct (Ascii.eqb "w" c) eqn:E; [|reflexivity].
    apply Ascii.eqb_eq in E. subst c. discriminate H. }
  unfold url_start, T. cbn [list_ascii_of_string strip_prefix].
  rewrite E1, E2. reflexivity.
Qed.

Lemma sub_urls_sep (c : ascii) (s : text) :
  is_word c = false -> sub_urls 0 (c :: s) = c :: sub_urls 0 s.
Proof.
  intros H. cbn [sub_urls].
  rewrite url_match_none by (apply url_start_not_word; exact H).
  reflexivity.
Qed.

Lemma sub_urls_stop_text (s : text) : stop_text s -> sub_urls 0 s = s.
Proof.
  unfold stop_text.
  induction 1 as [|c s C _ IH|w P|w c s P C _ IH].
  - reflexivity.
  - rewrite sub_urls_sep by (apply separator_not_word; exact C).
    rewrite IH. reflexivity.
  - destruct (@good_word_parts w (@stop_word_good w P)) as (_ & _ & U).
    rewrite <- (app_nil_r w) at 1.
    rewrite (@sub_urls_word w [] U eq_refl). apply app_nil_r.
  - destruct (@good_word_parts w (@stop_word_good w P)) as (_ & _ & U).
    rewrite (@sub_urls_word w (c :: s) U).
    + rewrite sub_urls_sep by (apply separator_not_word; exact C).
      rewrite IH. reflexivity.
    + simpl. rewrite (separator_not_word _ C). reflexivity.
Qed.

End StopWords.

Section StopTokens.

Variable n : nat.
Hypothesis n_pos : 1 <= n.

Lemma last_opt_cons (x : ascii) (a : text) (prev : option ascii) :
  last_opt (x :: a) prev = last_opt a (Some x).
Proof.
  unfold last_opt. simpl. destruct (rev a) as [|c r]; reflexivity.
Qed.

Lemma last_opt_word (a : text) (prev : option ascii) :
  forallb is_word a = true -> is_word_opt prev = true ->
  is_word_opt (last_opt a prev) = true.
Proof.
  revert prev. induction a as [|x a IH]; intros prev Ha Hp; [exact Hp|].
  simpl in Ha. apply andb_prop in Ha as [Hx Ha].
  rewrite last_opt_cons. apply IH; assumption.
Qed.

Lemma letters_are_words (w : text) :
  forallb is_az w = true -> forallb is_word w = true.
Proof.
  induction w as [|x w IH]; [reflexivity|]. simpl. intros H.
  apply andb_prop in H as [Hx Hw].
  rewrite (@is_az_word x Hx), (IH Hw). reflexivity.
Qed.

Lemma ends_word_not_az (rest : text) :
  ends_word rest = true ->
  match rest with [] => True | c :: _ => is_az c = false end.
Proof.
  destruct rest as [|c rest]; [trivial|]. simpl. intros H.
  apply not_word_not_az. destruct (is_word c); [discriminate | reflexivity].
Qed.

Lemma take_while_word (w rest : text) :
  forallb is_az w = true -> ends_word rest = true ->
  take_while is_az (w ++ rest) = w /\ drop_while is_az (w ++ rest) = rest.
Proof.
  intros Hw He. induction w as [|x w IH].
  - simpl. apply ends_word_not_az in He.
    destruct rest as [|c rest]; [split; reflexivity|].
    simpl. rewrite He. split; reflexivity.
  - simpl in Hw. apply andb_prop in Hw as [Hx Hw].
    destruct (IH Hw) as [E1 E2]. simpl. rewrite Hx, E1, E2.
    split; reflexivity.
Qed.

(** Passing the rest of a match. *)
Lemma findall_go_skip (a r : text) :
  forall prev,
    findall_go n prev (length a) (a ++ r) = findall_go n (last_opt a prev) 0 r.
Proof.
  induction a as [|x a IH]; intros prev.
  - simpl. destruct r; reflexivity.
  - cbn [length app findall_go]. rewrite IH, last_opt_cons. reflexivity.
Qed.

(** Inside a word there is no boundary, so nothing starts there. *)
Lemma findall_go_inside (w rest : text) :
  forall p,
    is_word p = true -> forallb is_az w = true ->
    findall_go n (Some p) 0 (w ++ rest)
    = findall_go n (last_opt w (Some p)) 0 rest.
Proof.
  induction w as [|y w IH]; intros p Hp Hw; [reflexivity|].
  simpl in Hw. apply andb_prop in Hw as [Hy Hw].
  change ((y :: w) ++ rest) with (y :: (w ++ rest)).
  cbn [findall_go]. unfold token_match.
  rewrite tag_match_head by (apply az_not_tag_char; exact Hy).
  unfold plain_match. cbn [hd_error]. unfold word_boundary at 1.
  cbn [is_word_opt]. rewrite Hp, (@is_az_word y Hy). cbn [xorb].
  rewrite (IH y (@is_az_word y Hy) Hw), last_opt_cons. reflexivity.
Qed.

(** A word after a non-word character yields itself or nothing. *)
Lemma findall_go_word (w rest : text) (prev : option ascii) :
  is_word_opt prev = false -> w <> [] -> forallb is_az w = true ->
  ends_word rest = true ->
  exists toks,
    findall_go n prev 0 (w ++ rest)
    = toks ++ findall_go n (last_opt w prev) 0 rest
    /\ Forall (eq w) toks.
Proof.
  intros Hp Hne Hw He.
  destruct w as [|x w]; [congruence|]. clear Hne.
  pose proof (@take_while_word (x :: w) rest Hw He) as [E1 E2].
  pose proof Hw as Hw'. simpl in Hw'. apply andb_prop in Hw' as [Hx Hw'].
  assert (B : word_boundary (last_opt (x :: w) prev) (hd_error rest) = true).
  { unfold word_boundary.
    rewrite last_opt_cons, last_opt_word;
      [|apply letters_are_words; exact Hw' | apply is_az_word; exact Hx].
    destruct rest as [|c rest]; [reflexivity|]. simpl in He |- *.
    destruct (is_word c); [discriminate | reflexivity]. }
  change ((x :: w) ++ rest) with (x :: (w ++ rest)) in *.
  cbn [findall_go]. unfold token_match.
  rewrite tag_match_head by (apply az_not_tag_char; exact Hx).
  unfold plain_match. rewrite E1, E2. cbn [hd_error].
  unfold word_boundary at 1. cbn [is_word_opt].
  rewrite Hp, (@is_az_word x Hx). cbn [xorb nonempty]. rewrite B.
  destruct (n <=? length (x :: w)) eqn:L; cbn [andb].
  - exists [x :: w]. split; [|repeat constructor].
    cbn [length pred app]. rewrite findall_go_skip, last_opt_cons.
    reflexivity.
  - replace (n =? 0) with false by (symmetry; apply Nat.eqb_neq; lia).
    exists []. split; [|constructor]. cbn [app].
    rewrite findall_go_inside, last_opt_cons;
      [reflexivity | apply is_az_word; exact Hx | exact Hw'].
Qed.

Lemma findall_go_sep (c : ascii) (s : text) (prev : option ascii) :
  is_separator c = true ->
  findall_go n prev 0 (c :: s) = findall_go n (Some c) 0 s.
Proof.
  intros C. cbn [findall_go]. unfold token_match.
  rewrite tag_match_head by (apply separator_not_tag; exact C).
  unfold plain_match. cbn [take_while].
  rewrite (@not_word_not_az c (@separator_not_word c C)).
  replace (n =? 0) with false by (symmetry; apply Nat.eqb_neq; lia).
  replace (n <=? length (@nil ascii)) with false
    by (symmetry; apply Nat.leb_gt; simpl; lia).
  destruct (word_boundary prev (hd_error (c :: s))); reflexivity.
Qed.

Lemma findall_go_end (prev : option ascii) : findall_go n prev 0 [] = [].
Proof.
  cbn [findall_go]. unfold token_match, plain_match. cbn [tag_match take_while].
  replace (n =? 0) with false by (symmetry; apply Nat.eqb_neq; lia).
  replace (n <=? length (@nil ascii)) with false
    by (symmetry; apply Nat.leb_gt; simpl; lia).
  destruct (word_boundary prev (hd_error [])); reflexivity.
Qed.

(** The tokens of a text of stop words are stop words. *)
Lemma findall_stop_text (s : text) :
  stop_text s ->
  forall prev, is_word_opt prev = false ->
               Forall (fun t => In t stop_words) (findall_go n prev 0 s).
Proof.
  unfold stop_text.
  induction 1 as [|c s C _ IH|w P|w c s P C _ IH]; intros prev Hp.
  - rewrite findall_go_end. constructor.
  - rewrite (@findall_go_sep c s prev C). apply IH.
    exact (@separator_not_word c C).
  - destruct (@good_word_parts w (@stop_word_good w P)) as (Hne & Hw & _).
    destruct (@findall_go_word w [] prev Hp Hne Hw eq_refl) as (toks & E & F).
    rewrite app_nil_r in E. rewrite E, findall_go_end, app_nil_r.
    apply Forall_impl with (2 := F). intros t <-. exact P.
  - destruct (@good_word_parts w (@stop_word_good w P)) as (Hne & Hw & _).
    destruct (@findall_go_word w (c :: s) prev Hp Hne Hw) as (toks & E & F).
    { simpl. rewrite (@separator_not_word c C). reflexivity. }
    rewrite E, (@findall_go_sep c s _ C). apply Forall_app. split.
    + apply Forall_impl with (2 := F). intros t <-. exact P.
    + apply IH. exact (@separator_not_word c C).
Qed.

End StopTokens.

Section NoKeywords.

Lemma mem_In (w : text) (l : list text) : In w l -> mem w l = true.
Proof.
  intros H. unfold mem. apply existsb_exists. exists w.
  split; [exact H | apply text_eqb_refl].
Qed.

Lemma stop_word_dropped (t : text) :
  In t stop_words -> keep_keyword t = false.
Proof.
  intros H. unfold keep_keyword.
  destruct (@good_word_parts t (@stop_word_good t H)) as (_ & L & _).
  rewrite (@letters_not_tag t L), (@mem_In t stop_words H). reflexivity.
Qed.

Lemma filter_none {A} (p : A -> bool) (l : list A) :
  Forall (fun x => p x = false) l -> filter p l = [].
Proof.
  induction 1 as [|x l Hx _ IH]; [reflexivity|]. simpl. rewrite Hx. exact IH.
Qed.

Lemma keywords_of_stop_words (s : text) (min_length : nat) :
  only_stop_words s -> 1 <= min_length -> keywords_of s min_length = [].
Proof.
  intros H L. unfold keywords_of.
  pose proof (@lower_stop_text s H) as S.
  rewrite (@sub_urls_stop_text (lower s) S). unfold findall.
  apply filter_none.
  apply Forall_impl with (2 := @findall_stop_text min_length L (lower s) S
                                  None eq_refl).
  intros t Ht. exact (@stop_word_dropped t Ht).
Qed.

(** C8: a missing text and an empty text give no keyword, and so does a
    text made of stop words only (in any case, kept apart by separators)
    for every minimum length of at least 1; the function is total. *)
Theorem stop_words_only_no_keywords (s : text)
  (min_length max_keywords : nat) :
  extract_keywords_from_text None min_length max_keywords = []
  /\ extract_keywords_from_text (Some []) min_length max_keywords = []
  /\ (only_stop_words s -> 1 <= min_length ->
      extract_keywords_from_text (Some s) min_length max_keywords = []).
Proof.
  split; [reflexivity|]. split; [reflexivity|].
  intros H L. destruct s as [|c s]; [reflexivity|].
  unfold extract_keywords_from_text.
  rewrite (@keywords_of_stop_words (c :: s) min_length H L).
  unfold Counter, most_common. simpl. rewrite firstn_nil. reflexivity.
Qed.

Lemma the_and_of_their : only_stop_words (T "The and, of  THEIR").
Proof.
  unfold only_stop_words.
  apply (@wa_word _ (T "The") " "%char); [vm_compute; tauto | reflexivity|].
  apply (@wa_word _ (T "and") ","%char); [vm_compute; tauto | reflexivity|].
  apply wa_sep; [reflexivity|].
  apply (@wa_word _ (T "of") " "%char); [vm_compute; tauto | reflexivity|].
  apply wa_sep; [reflexivity|].
  apply wa_last. vm_compute. tauto.
Defined.

Lemma stop_words_only_no_keywords_witness :
  extract_keywords_from_text (Some (T "The and, of  THEIR")) 3 20 = [].
Proof.
  apply (@stop_words_only_no_keywords (T "The and, of  THEIR") 3 20).
  - exact the_and_of_their.
  - lia.
Defined.

(** With [min_length = 0] the pattern also matches the empty string at a
    word boundary, and the empty string is not a stop word. *)
Example min_length_zero_keeps_empty_token :
  extract_keywords_from_text (Some (T "the")) 0 20 = [[]].
Proof. reflexivity. Qed.

End NoKeywords.

(* ------------------------------------------------------------------ *)
(** * Part III: further properties of the services *)

(** ** KeywordExtractor: shape of the result *)

Section ResultShape.

Lemma insert_by_perm {A} (lt : A -> A -> bool) (x : A) (l : list A) :
  Permutation (insert_by lt x l) (x :: l).
Proof.
  induction l as [|y l IH]; simpl; [apply Permutation_refl|].
  destruct (lt x y); [|apply Permutation_refl].
  apply Permutation_trans with (y :: x :: l);
    [apply perm_skip; exact IH | apply perm_swap].
Qed.

Lemma sort_by_perm {A} (lt : A -> A -> bool) (l : list A) :
  Permutation (sort_by lt l) l.
Proof.
  unfold sort_by. induction l as [|x l IH]; simpl; [constructor|].
  apply Permutation_trans with (x :: fold_right (insert_by lt) [] l);
    [apply insert_by_perm | apply perm_skip; exact IH].
Qed.

Lemma firstn_NoDup {A} (n : nat) (l : list A) : NoDup l -> NoDup (firstn n l).
Proof.
  intros H. rewrite <- (firstn_skipn n l) in H.
  exact (NoDup_app_remove_r _ _ H).
Qed.

Lemma counter_add_fst (w : text) (c : list (text * nat)) :
  map fst (counter_add w c)
  = if existsb (fun k => text_eqb k w) (map fst c)
    then map fst c else map fst c ++ [w].
Proof.
  induction c as [|[k m] c IH]; simpl; [reflexivity|].
  destruct (text_eqb k w); simpl; [reflexivity|].
  rewrite IH. destruct (existsb _ (map fst c)); reflexivity.
Qed.

Lemma counter_add_NoDup (w : text) (c : list (text * nat)) :
  NoDup (map fst c) -> NoDup (map fst (counter_add w c)).
Proof.
  intros H. rewrite counter_add_fst.
  destruct (existsb _ (map fst c)) eqn:E; [exact H|].
  apply NoDup_app; [exact H | repeat constructor; intros [] |].
  intros k Hk [E'|[]]. subst k.
  assert (X : existsb (fun k' => text_eqb k' w) (map fst c) = true).
  { apply existsb_exists. exists w. split; [exact Hk | apply text_eqb_refl]. }
  congruence.
Qed.

Lemma Counter_NoDup (ws : list text) : NoDup (map fst (Counter ws)).
Proof.
  unfold Counter.
  assert (G : forall c, NoDup (map fst c) ->
                        NoDup (map fst (fold_left
                                          (fun c w => counter_add w c) ws c))).
  { induction ws as [|w ws IH]; intros c H; [exact H|].
    simpl. apply IH. apply counter_add_NoDup. exact H. }
  apply G. constructor.
Qed.

Lemma most_common_NoDup (n : nat) (ws : list text) :
  NoDup (map fst (most_common n (Counter ws))).
Proof.
  unfold most_common. rewrite <- firstn_map. apply firstn_NoDup.
  apply (@Permutation_NoDup _ (map fst (Counter ws))).
  - apply Permutation_map, Permutation_sym, sort_by_perm.
  - apply Counter_NoDup.
Qed.

(** X1: [extract_keywords_from_text] returns each keyword once, and at most
    [max_keywords] of them. *)
Theorem extract_distinct_and_capped (txt : option text)
  (min_length max_keywords : nat) :
  NoDup (extract_keywords_from_text txt min_length max_keywords)
  /\ length (extract_keywords_from_text txt min_length max_keywords)
     <= max_keywords.
Proof.
  destruct txt as [[|c s]|]; simpl; try (split; [constructor | lia]).
  split; [apply most_common_NoDup|].
  rewrite length_map. unfold most_common. apply firstn_le_length.
Qed.

End ResultShape.

Section ResultTokens.

Lemma tag_match_shape (s t : text) : tag_match s = Some t -> tag_shaped t.
Proof.
  unfold tag_match. destruct s as [|c r]; [discriminate|].
  destruct (is_tag_char c) eqn:E; simpl; [|discriminate].
  destruct (take_while is_word r) as [|x w] eqn:W; simpl; [discriminate|].
  intros H. injection H as <-. exists c, (x :: w).
  repeat split; [exact E | discriminate|].
  rewrite <- W. apply take_while_all.
Qed.

Lemma findall_go_shape (n : nat) (t : text) (s : text) :
  forall prev skip,
    In t (findall_go n prev skip s) ->
    tag_shaped t \/ (forallb is_az t = true /\ n <= length t).
Proof.
  assert (K : forall prev s', token_match n prev s' = Some t ->
              tag_shaped t \/ (forallb is_az t = true /\ n <= length t)).
  { intros prev s'. unfold token_match.
    destruct (tag_match s') eqn:E.
    - intros H. injection H as <-. left. exact (@tag_match_shape s' _ E).
    - intros H. right. split;
        [exact (@plain_match_letters n prev s' t H)
        | exact (@plain_match_length n prev s' t H)]. }
  induction s as [|c s IH]; intros prev skip; simpl.
  - destruct skip; [|intros []].
    destruct (token_match n prev []) eqn:E; [|intros []].
    intros [<-|[]]. exact (K _ _ E).
  - destruct skip; [|apply IH].
    destruct (token_match n prev (c :: s)) eqn:E; [|apply IH].
    intros [<-|H]; [exact (K _ _ E) | exact (IH _ _ H)].
Qed.

Lemma mem_false_not_In (w : text) (l : list text) :
  mem w l = false -> ~ In w l.
Proof. intros H I. rewrite (@mem_In w l I) in H. discriminate. Qed.

(** X2: every token that [extract_keywords_from_text] returns is either a
    hashtag or mention (the mark and at least one word character) or a run
    of at least [min_length] lowercase letters that is not a stop word. *)
Theorem extract_token_kinds (txt : option text)
  (min_length max_keywords : nat) (t : text) :
  In t (extract_keywords_from_text txt min_length max_keywords) ->
  tag_shaped t
  \/ (forallb is_az t = true /\ min_length <= length t
      /\ ~ In t stop_words).
Proof.
  intros H. destruct txt as [s|]; [|destruct H].
  apply extract_subset in H. unfold keywords_of in H.
  apply filter_In in H as [H K]. unfold findall in H.
  apply findall_go_shape in H as [H|[L N]]; [left; exact H|].
  right. split; [exact L|]. split; [exact N|].
  unfold keep_keyword in K. rewrite (@letters_not_tag t L) in K.
  apply mem_false_not_In. destruct (mem t stop_words);
    [discriminate | reflexivity].
Qed.

Lemma extract_token_kinds_witness :
  forallb is_az (T "rockets") = true /\ ~ In (T "rockets") stop_words.
Proof.
  destruct (@extract_token_kinds
              (Some (T "The Rockets of #AI: rockets!")) 3 20 (T "rockets"))
    as [(c & w & E & C & _)|(L & _ & N)].
  - vm_compute. left. reflexivity.
  - injection E as <- _. discriminate C.
  - split; assumption.
Defined.

End ResultTokens.

(** ** KeywordExtractor: ranking by frequency *)

Section Frequency.

Lemma counter_get_add (w k : text) (c : list (text * nat)) :
  counter_get (counter_add w c) k
  = counter_get c k + (if text_eqb w k then 1 else 0).
Proof.
  induction c as [|[k0 m] c IH]; simpl.
  - destruct (text_eqb w k); reflexivity.
  - destruct (text_eqb k0 w) eqn:E; simpl.
    + apply text_eqb_eq in E. subst k0.
      destruct (text_eqb w k); lia.
    + destruct (text_eqb k0 k) eqn:E'; [|exact IH].
      apply text_eqb_eq in E'. subst k0.
      destruct (text_eqb w k) eqn:E2; [|lia].
      apply text_eqb_eq in E2. subst w.
      rewrite text_eqb_refl in E. discriminate.
Qed.

Lemma occurrences_cons (w k : text) (ws : list text) :
  occurrences k (w :: ws)
  = (if text_eqb w k then 1 else 0) + occurrences k ws.
Proof.
  unfold occurrences. simpl. unfold text_eqb.
  destruct (list_eq_dec ascii_dec w k); reflexivity.
Qed.

Lemma counter_get_fold (ws : list text) (k : text) :
  forall c,
    counter_get (fold_left (fun c w => counter_add w c) ws c) k
    = counter_get c k + occurrences k ws.
Proof.
  induction ws as [|w ws IH]; intros c; cbn [fold_left].
  - unfold occurrences. simpl. lia.
  - rewrite IH, counter_get_add, occurrences_cons. lia.
Qed.

(** The count held for a key is the number of its occurrences. *)
Lemma Counter_get (ws : list text) (k : text) :
  counter_get (Counter ws) k = occurrences k ws.
Proof. unfold Counter. rewrite counter_get_fold. reflexivity. Qed.

Lemma counter_get_In (c : list (text * nat)) (k : text) (m : nat) :
  NoDup (map fst c) -> In (k, m) c -> counter_get c k = m.
Proof.
  induction c as [|[k0 m0] c IH]; simpl; [intros _ []|].
  intros N [E|H].
  - injection E as -> ->. rewrite text_eqb_refl. reflexivity.
  - inversion N as [|? ? N1 N2]; subst.
    destruct (text_eqb k0 k) eqn:E; [|exact (IH N2 H)].
    apply text_eqb_eq in E. subst k0. exfalso. apply N1.
    apply in_map_iff. exists (k, m). auto.
Qed.

Lemma Counter_entry (ws : list text) (k : text) (m : nat) :
  In (k, m) (Counter ws) -> m = occurrences k ws.
Proof.
  intros H. rewrite <- Counter_get. symmetry.
  apply counter_get_In; [apply Counter_NoDup | exact H].
Qed.

Lemma insert_count_sorted (x : text * nat) (l : list (text * nat)) :
  StronglySorted (fun a b => snd b <= snd a) l ->
  StronglySorted (fun a b => snd b <= snd a) (insert_by count_lt x l).
Proof.
  induction l as [|y l IH]; intros S; simpl.
  - repeat constructor.
  - inversion S as [|? ? S' F]; subst. unfold count_lt at 1.
    destruct (snd x <? snd y) eqn:E.
    + apply Nat.ltb_lt in E. constructor; [exact (IH S')|].
      rewrite Forall_forall in *. intros z Hz.
      apply In_insert_by in Hz as [->|Hz]; [lia | exact (F z Hz)].
    + apply Nat.ltb_ge in E. constructor; [exact S|].
      constructor; [exact E|].
      rewrite Forall_forall in *. intros z Hz. specialize (F z Hz). lia.
Qed.

Lemma sort_count_sorted (l : list (text * nat)) :
  StronglySorted (fun a b => snd b <= snd a) (sort_by count_lt l).
Proof.
  unfold sort_by. induction l as [|x l IH]; simpl; [constructor|].
  apply insert_count_sorted. exact IH.
Qed.

Lemma map_sorted {A B} (R : A -> A -> Prop) (R' : B -> B -> Prop)
  (f : A -> B) (l : list A) :
  (forall x y, In x l -> In y l -> R x y -> R' (f x) (f y)) ->
  StronglySorted R l -> StronglySorted R' (map f l).
Proof.
  intros H S. induction S as [|x l S IH F]; simpl; constructor.
  - apply IH. intros a b Ha Hb. apply H; right; assumption.
  - rewrite Forall_forall in *. intros z Hz.
    apply in_map_iff in Hz as (y & <- & Hy).
    apply H; [left; reflexivity | right; exact Hy | exact (F y Hy)].
Qed.

(** X3: the result of [extract_keywords_from_text] is ranked by frequency:
    a keyword never stands before one that occurs more often among the kept
    tokens of the text. *)
Theorem extract_ranked_by_frequency (s : text)
  (min_length max_keywords : nat) :
  StronglySorted
    (fun a b => occurrences b (keywords_of s min_length)
                <= occurrences a (keywords_of s min_length))
    (extract_keywords_from_text (Some s) min_length max_keywords).
Proof.
  destruct s as [|c s]; [constructor|].
  unfold extract_keywords_from_text.
  set (ks := keywords_of (c :: s) min_length).
  apply map_sorted with (R := fun a b : text * nat => snd b <= snd a).
  - intros [k1 m1] [k2 m2] H1 H2 L. simpl in *.
    unfold most_common in H1, H2.
    apply In_firstn, In_sort_by, Counter_entry in H1.
    apply In_firstn, In_sort_by, Counter_entry in H2. lia.
  - unfold most_common. apply firstn_sorted. apply sort_count_sorted.
Qed.

End Frequency.

(** ** KeywordExtractor: case and URLs *)

Section CaseAndUrls.

Lemma lower_char_idem (c : ascii) : lower_char (lower_char c) = lower_char c.
Proof.
  destruct c as [[] [] [] [] [] [] [] []]; reflexivity.
Qed.

Lemma lower_idem (s : text) : lower (lower s) = lower s.
Proof.
  unfold lower. rewrite map_map. apply map_ext. apply lower_char_idem.
Qed.

(** X4: extraction does not depend on the case of the text: a text and its
    lowercase form give the same keywords. *)
Theorem extract_case_insensitive (s : text) (min_length max_keywords : nat) :
  extract_keywords_from_text (Some (lower s)) min_length max_keywords
  = extract_keywords_from_text (Some s) min_length max_keywords.
Proof.
  destruct s as [|c s]; [reflexivity|].
  unfold extract_keywords_from_text, keywords_of.
  change (lower (c :: s)) with (lower_char c :: lower s).
  change (lower_char c :: lower s) with (lower (c :: s)).
  rewrite lower_idem. reflexivity.
Qed.

Lemma take_while_whole (p : ascii -> bool) (r : text) :
  forallb p r = true -> take_while p r = r.
Proof.
  induction r as [|c r IH]; [reflexivity|]. simpl. intros H.
  apply andb_prop in H as [Hc Hr]. rewrite Hc, (IH Hr). reflexivity.
Qed.

Lemma sub_urls_skip_all (k : nat) (s : text) :
  length s <= k -> sub_urls k s = [].
Proof.
  revert k. induction s as [|c s IH]; intros k L; [reflexivity|].
  destruct k as [|k]; [simpl in L; lia|]. simpl. apply IH. simpl in L. lia.
Qed.

Lemma sub_urls_whole_url (r : text) :
  r <> [] -> forallb non_space r = true -> sub_urls 0 (T "http" ++ r) = [].
Proof.
  intros N H.
  assert (M : url_match (T "http" ++ r) = Some (4 + length r)).
  { unfold url_match, T. cbn [list_ascii_of_string app strip_prefix].
    rewrite !Ascii.eqb_refl. rewrite (take_while_whole _ _ H).
    destruct r; [congruence | reflexivity]. }
  unfold T in *. cbn [list_ascii_of_string app] in *.
  cbn [sub_urls]. rewrite M. cbn [plus].
  apply sub_urls_skip_all. simpl. lia.
Qed.

(** X5: a text that is one URL (http followed by characters other than
    whitespace, in any case) gives no keyword, whatever the minimum
    length. *)
Theorem extract_url_only (s r : text) (min_length max_keywords : nat) :
  lower s = T "http" ++ r -> r <> [] -> forallb non_space r = true ->
  extract_keywords_from_text (Some s) min_length max_keywords = [].
Proof.
  intros E N H. destruct s as [|c s]; [reflexivity|].
  unfold extract_keywords_from_text, keywords_of.
  rewrite E, (@sub_urls_whole_url r N H).
  unfold findall. cbn [findall_go]. unfold token_match, plain_match.
  cbn [tag_match hd_error word_boundary is_word_opt xorb filter].
  unfold Counter, most_common. cbn [fold_left sort_by fold_right].
  rewrite firstn_nil. reflexivity.
Qed.

Lemma extract_url_only_witness :
  extract_keywords_from_text
    (Some (T "HTTPS://Example.com/rocket-news?id=7")) 3 20 = [].
Proof.
  apply (@extract_url_only (T "HTTPS://Example.com/rocket-news?id=7")
           (T "s://example.com/rocket-news?id=7") 3 20).
  - reflexivity.
  - discriminate.
  - reflexivity.
Defined.

End CaseAndUrls.

(** ** TrendScorer: symmetry, saturation, monotonicity *)

Section ScorerShape.

Local Open Scope Q_scope.

Lemma round_half_even_mono (x y : Q) :
  x <= y -> (round_half_even x <= round_half_even y)%Z.
Proof.
  intros L. pose proof (Qfloor_resp_le _ _ L) as F.
  destruct (Z.eq_dec (Qfloor x) (Qfloor y)) as [E|NE].
  - unfold round_half_even. rewrite <- E.
    destruct (Qcompare_spec (x - inject_Z (Qfloor x)) (1 # 2)) as [A|A|A];
      destruct (Qcompare_spec (y - inject_Z (Qfloor x)) (1 # 2)) as [B|B|B];
      try destruct (Z.even (Qfloor x)); try lia; exfalso; lra.
  - pose proof (round_half_even_bounds x). pose proof (round_half_even_bounds y).
    lia.
Qed.

Lemma round2_mono (x y : Q) : x <= y -> round2 x <= round2 y.
Proof.
  intros L. unfold round2. rewrite !Qred_correct.
  assert (M : (round_half_even (x * 100) <= round_half_even (y * 100))%Z)
    by (apply round_half_even_mono; lra).
  rewrite Zle_Qle in M.
  apply Qle_shift_div_l; [reflexivity|].
  set (a := inject_Z (round_half_even (x * 100))) in *.
  set (b := inject_Z (round_half_even (y * 100))) in *.
  assert (E : a / 100 * 100 == a) by (field).
  rewrite E. exact M.
Qed.

Lemma Qmin_mono_l (x y c : Q) : x <= y -> Qmin x c <= Qmin y c.
Proof.
  intros L.
  destruct (Q.min_spec x c) as [[B E]|[B E]];
    destruct (Q.min_spec y c) as [[A E']|[A E']]; rewrite E, E'; lra.
Qed.

Lemma Qmin_saturated (x : Q) : 100 <= x -> Qmin x 100 == 100.
Proof. intros L. apply Q.min_r. exact L. Qed.

Lemma composite_opp (m : Z) (g v : Q) :
  composite_score m g (- v) == composite_score m g v.
Proof.
  unfold composite_score.
  assert (E : Qabs (- v) / 5 * 100 == Qabs v / 5 * 100)
    by (rewrite Qabs_opp; reflexivity).
  destruct (Q.min_spec (Qabs (- v) / 5 * 100) 100) as [[A1 E1]|[A1 E1]];
    destruct (Q.min_spec (Qabs v / 5 * 100) 100) as [[A2 E2]|[A2 E2]];
    rewrite E1, E2; lra.
Qed.

(** X6: [calculate_trend_score] discards the sign of the velocity, and it
    saturates: 50 mentions or more score as 50, a velocity of magnitude 5
    or more scores as 5. *)
Theorem score_symmetric_and_saturating (content_mentions : Z)
  (google_trends_score velocity : Q) :
  calculate_trend_score content_mentions google_trends_score (- velocity)
  = calculate_trend_score content_mentions google_trends_score velocity
  /\ ((50 <= content_mentions)%Z ->
      calculate_trend_score content_mentions google_trends_score velocity
      = calculate_trend_score 50 google_trends_score velocity)
  /\ (5 <= Qabs velocity ->
      calculate_trend_score content_mentions google_trends_score velocity
      = calculate_trend_score content_mentions google_trends_score 5).
Proof.
  rewrite !score_as_composite. split; [|split].
  - apply round2_comp. apply composite_opp.
  - intros L. apply round2_comp. unfold composite_score.
    rewrite Zle_Qle in L. change (inject_Z 50) with 50 in L.
    assert (A : Qmin (inject_Z content_mentions / 50 * 100) 100 == 100).
    { apply Qmin_saturated. unfold Qdiv. change (/ 50) with (1 # 50). lra. }
    assert (B : Qmin (50 / 50 * 100) 100 == 100) by reflexivity.
    rewrite A, B. reflexivity.
  - intros L. apply round2_comp. unfold composite_score.
    assert (A : Qmin (Qabs velocity / 5 * 100) 100 == 100).
    { apply Qmin_saturated. unfold Qdiv. change (/ 5) with (1 # 5). lra. }
    assert (B : Qmin (Qabs 5 / 5 * 100) 100 == 100) by reflexivity.
    rewrite A, B. reflexivity.
Qed.

Lemma score_symmetric_and_saturating_witness :
  calculate_trend_score 80 30 (- (7 # 1)) = calculate_trend_score 50 30 7
  /\ calculate_trend_score 80 30 7 = calculate_trend_score 80 30 5.
Proof.
  destruct (score_symmetric_and_saturating 80 30 (7 # 1)) as (S & M & V).
  split.
  - rewrite S. apply M. lia.
  - apply V. unfold Qle. simpl. lia.
Defined.

(** X7: [calculate_trend_score] is monotone: more mentions, a higher
    external signal or a larger velocity magnitude never lower the score. *)
Theorem score_monotone (m1 m2 : Z) (g1 g2 v1 v2 : Q) :
  (m1 <= m2)%Z -> g1 <= g2 -> Qabs v1 <= Qabs v2 ->
  calculate_trend_score m1 g1 v1 <= calculate_trend_score m2 g2 v2.
Proof.
  intros Lm Lg Lv. rewrite !score_as_composite. apply round2_mono.
  unfold composite_score.
  rewrite Zle_Qle in Lm.
  assert (A : Qmin (inject_Z m1 / 50 * 100) 100
              <= Qmin (inject_Z m2 / 50 * 100) 100).
  { apply Qmin_mono_l. unfold Qdiv. change (/ 50) with (1 # 50). lra. }
  assert (B : Qmin (Qabs v1 / 5 * 100) 100 <= Qmin (Qabs v2 / 5 * 100) 100).
  { apply Qmin_mono_l. unfold Qdiv. change (/ 5) with (1 # 5). lra. }
  lra.
Qed.

Lemma score_monotone_witness :
  calculate_trend_score 3 20 (1 # 2) <= calculate_trend_score 10 (45 # 2) (- 2).
Proof.
  apply score_monotone.
  - lia.
  - unfold Qle. simpl. lia.
  - unfold Qle. simpl. lia.
Defined.

End ScorerShape.

(** ** VelocityEstimator: bounds and failure *)

Section VelocityBounds.

Local Open Scope Q_scope.

Lemma inject_nat_nonneg (n : nat) : 0 <= inject_Z (Z.of_nat n).
Proof.
  change 0 with (inject_Z 0). rewrite <- Zle_Qle. lia.
Qed.

Lemma pow2_pos (e : Z) : (0 <= e)%Z -> 0 < inject_Z (2 ^ e).
Proof.
  intros H. change 0 with (inject_Z 0). rewrite <- Zlt_Qlt.
  apply Z.pow_pos_nonneg; [lia | exact H].
Qed.

Lemma scale2_nonneg (x : Q) (e : Z) : 0 <= x -> 0 <= scale2 x e.
Proof.
  intros H. unfold scale2. destruct (Z.leb_spec 0 e) as [P|N].
  - apply Qmult_le_0_compat; [exact H|]. apply Qlt_le_weak, pow2_pos, P.
  - apply Qle_shift_div_l; [apply pow2_pos; lia | lra].
Qed.

Lemma Qlog2_le_0 (x : Q) : x <= 1 -> (Qlog2 x <= 0)%Z.
Proof.
  intros H. unfold Qlog2.
  assert (N : (Qnum x <= Zpos (Qden x))%Z)
    by (unfold Qle in H; simpl in H; lia).
  pose proof (Z.log2_le_mono _ _ N) as K.
  destruct (Qle_bool _ x); lia.
Qed.

(** Rounding to the nearest double does not cross -1, which is a double. *)
Lemma binary64_ge_minus_one (x : Q) : - (1) <= x -> - (1) <= binary64 x.
Proof.
  intros H. unfold binary64. destruct (Qeq_bool x 0); [lra|].
  set (e := Z.max (Qlog2 (Qabs x) - 52) (-1074)).
  destruct (Qlt_le_dec x 0) as [Neg|Pos].
  - assert (A : Qabs x <= 1) by (rewrite Qabs_neg by lra; lra).
    pose proof (Qlog2_le_0 A) as L.
    assert (E : (e < 0)%Z) by (unfold e; lia).
    pose proof (@pow2_pos (- e) ltac:(lia)) as PwQ.
    unfold scale2. destruct (Z.leb_spec 0 e) as [C|_]; [lia|].
    destruct (Z.leb_spec 0 (- e)) as [_|C]; [|lia].
    apply Qle_shift_div_l; [exact PwQ|].
    set (N := (2 ^ (- e))%Z) in *.
    assert (M : (- N <= round_half_even (x * inject_Z N))%Z).
    { rewrite <- (round_half_even_Z (- N)). apply round_half_even_mono.
      rewrite inject_Z_opp.
      assert (G : 0 <= (x + 1) * inject_Z N)
        by (apply Qmult_le_0_compat; lra).
      lra. }
    rewrite Zle_Qle, inject_Z_opp in M. lra.
  - assert (M : (0 <= round_half_even (scale2 x (- e)))%Z).
    { rewrite <- (round_half_even_Z 0) at 1. apply round_half_even_mono.
      apply scale2_nonneg. exact Pos. }
    assert (S2 : 0 <= scale2 (inject_Z (round_half_even (scale2 x (- e)))) e).
    { apply scale2_nonneg. change 0 with (inject_Z 0).
      rewrite <- Zle_Qle. exact M. }
    lra.
Qed.

Lemma velocity_of_counts_ge (recent older : nat) :
  - (1) <= velocity_of_counts recent older.
Proof.
  unfold velocity_of_counts.
  pose proof (inject_nat_nonneg recent) as R.
  destruct older as [|o]; cbn [Nat.eqb]; cbv iota.
  - destruct (0 <? recent)%nat; [|lra].
    apply binary64_ge_minus_one. lra.
  - apply binary64_ge_minus_one.
    assert (P : 0 < inject_Z (Z.of_nat (S o))).
    { change 0 with (inject_Z 0). rewrite <- Zlt_Qlt. lia. }
    apply Qle_shift_div_l; [exact P | lra].
Qed.

Lemma round2_ge_minus_one (x : Q) : - (1) <= x -> - (1) <= round2 x.
Proof.
  intros H. apply Qle_trans with (round2 (- (1))).
  - vm_compute. discriminate.
  - apply round2_mono. exact H.
Qed.

Lemma select_content_fault (p : ContentItem -> bool) (w : World) f :
  faults w = true :: f ->
  select_content p w = (Raised DbError, set_faults w f).
Proof.
  intros E. unfold select_content, bind. rewrite (@execute_fault w f E).
  reflexivity.
Qed.

Lemma calculate_velocity_floor (w : World) (user_id kw : text) :
  exists q : Q,
    fst (calculate_velocity user_id kw w) = Ok q
    /\ - (1) <= q
    /\ (nth 0 (faults w) false = true \/ nth 1 (faults w) false = true ->
        q = 0).
Proof.
  assert (G : forall r o : nat,
             - (1) <= round2 (velocity_of_counts r o))
    by (intros; apply round2_ge_minus_one, velocity_of_counts_ge).
  unfold calculate_velocity, select_content, try_except, bind, get, ret.
  unfold execute at 1.
  destruct (faults w) as [|[|] f] eqn:F; cbv beta iota.
  - unfold execute. rewrite F. cbv beta iota.
    eexists. split; [reflexivity|]. split; [apply G|].
    simpl. intros [H|H]; discriminate H.
  - exists 0. split; [reflexivity|]. split; [lra | reflexivity].
  - unfold execute. cbn [faults set_faults].
    destruct f as [|[|] f']; cbv beta iota.
    + eexists. split; [reflexivity|]. split; [apply G|].
      simpl. intros [H|H]; discriminate H.
    + exists 0. split; [reflexivity|]. split; [lra | reflexivity].
    + eexists. split; [reflexivity|]. split; [apply G|].
      simpl. intros [H|H]; discriminate H.
Qed.

(** X8: [calculate_velocity] never raises and never returns less than -1
    (a keyword cannot lose more than all of its prior mentions); when one
    of its two content queries fails it returns 0.0. *)
Theorem velocity_floor_and_failure (w : World) (user_id kw : text) :
  exists q : Q,
    fst (calculate_velocity user_id kw w) = Ok q
    /\ - (1) <= q
    /\ (nth 0 (faults w) false = true \/ nth 1 (faults w) false = true ->
        q = 0).
Proof. exact (calculate_velocity_floor w user_id kw). Qed.

Lemma velocity_floor_and_failure_witness :
  fst (calculate_velocity (T "u1") (T "rocket")
         (set_faults one_recent_three_prior [false; true]))
  = Ok 0.
Proof.
  destruct (velocity_floor_and_failure
              (set_faults one_recent_three_prior [false; true])
              (T "u1") (T "rocket")) as (q & E & _ & Z).
  rewrite E, Z; [reflexivity|]. right. reflexivity.
Defined.

End VelocityBounds.

(** ** ExternalSignalProvider: which keywords get a score *)

Section ProviderKeys.

Lemma firstn_5_idem (kws : list text) :
  firstn 5 (firstn 5 kws) = firstn 5 kws.
Proof. rewrite firstn_firstn. reflexivity. Qed.

(** One call on any non-empty list: only the first five are sent. *)
Lemma get_interest_over_time_any (kws : list text) (w : World) :
  kws <> [] ->
  get_interest_over_time kws w
  = (Ok (batch_dict (provider w (provider_calls w) (firstn 5 kws))
           (firstn 5 kws)),
     set_provider_calls w (S (provider_calls w))).
Proof.
  intros N.
  assert (N5 : firstn 5 kws <> []) by (destruct kws; [congruence | discriminate]).
  rewrite <- (@get_interest_over_time_run (firstn 5 kws) w N5
                (firstn_le_length 5 kws)).
  unfold get_interest_over_time.
  destruct kws as [|k ks]; [congruence|].
  change (firstn 5 (k :: ks)) with (k :: firstn 4 ks).
  change (k :: firstn 4 ks) with (firstn 5 (k :: ks)).
  rewrite firstn_5_idem. reflexivity.
Qed.

Lemma batch_dict_key (f : Frame) (b : list text) (kw : text) :
  dict_get (batch_dict f b) kw <> None <-> In kw b.
Proof.
  rewrite batch_dict_get, <- (in_batch kw b (fetched f)).
  destruct (has_key _ kw); split; congruence.
Qed.

(** X9: [get_interest_over_time] never raises and scores exactly the first
    five keywords it is given: each of them gets the score fetched from
    the provider (0.0 when the provider fails or has no data), and a
    keyword that only occurs after the fifth gets no entry. *)
Theorem interest_only_first_five (keywords : list text) (w : World) :
  exists (d : dict) (w' : World),
    get_interest_over_time keywords w = (Ok d, w')
    /\ (forall kw, dict_get d kw <> None <-> In kw (firstn 5 keywords))
    /\ (forall kw, In kw (firstn 5 keywords) ->
          dict_get d kw
          = Some (fetched (provider w (provider_calls w) (firstn 5 keywords))
                    kw))
    /\ (provider w (provider_calls w) (firstn 5 keywords) = ProviderRaises ->
        forall kw, In kw (firstn 5 keywords) -> dict_get d kw = Some 0%Q).
Proof.
  destruct keywords as [|k ks].
  { exists [], w. split; [reflexivity|].
    split; [intros kw; simpl; split; [congruence | tauto]|].
    split; intros; contradiction. }
  rewrite get_interest_over_time_any by discriminate.
  eexists. eexists. split; [reflexivity|].
  assert (G : forall kw, In kw (firstn 5 (k :: ks)) ->
              dict_get (batch_dict (provider w (provider_calls w)
                                      (firstn 5 (k :: ks)))
                          (firstn 5 (k :: ks))) kw
              = Some (fetched (provider w (provider_calls w)
                                 (firstn 5 (k :: ks))) kw)).
  { intros kw H. rewrite batch_dict_get.
    apply (in_batch kw _ (fetched (provider w (provider_calls w)
                                     (firstn 5 (k :: ks))))) in H.
    rewrite H. reflexivity. }
  split; [intros kw; apply batch_dict_key|].
  split; [exact G|].
  intros F kw H. rewrite (G kw H), F. reflexivity.
Qed.

Lemma interest_only_first_five_witness :
  exists d,
    fst (get_interest_over_time repeated_keywords
           (set_provider_calls flaky_world 1)) = Ok d
    /\ dict_get d (T "alpha") = Some 50%Q
    /\ dict_get d (T "epsilon") = Some 0%Q.
Proof.
  destruct (interest_only_first_five repeated_keywords
              (set_provider_calls flaky_world 1))
    as (d & w' & E & _ & G & _).
  exists d. split; [rewrite E; reflexivity|]. split.
  - rewrite G; [reflexivity | vm_compute; tauto].
  - rewrite G; [reflexivity | vm_compute; tauto].
Defined.

End ProviderKeys.

Section BatchAccounting.

Lemma batch_subset (keywords : list text) (j : nat) (kw : text) :
  In kw (batch keywords j) -> In kw keywords.
Proof.
  unfold batch, slice5. intros H. apply In_firstn in H.
  rewrite <- (firstn_skipn (5 * j) keywords). apply in_or_app. right. exact H.
Qed.

Lemma loop_results_has (prov : nat -> list text -> Frame)
  (keywords : list text) (kw : text) (js : list nat) :
  forall c results,
    dict_get results kw <> None \/ (exists j, In j js /\ In kw (batch keywords j)) ->
    dict_get (loop_results prov c keywords js results) kw <> None.
Proof.
  induction js as [|j js IH]; intros c results H.
  - destruct H as [H|(j & [] & _)]. exact H.
  - cbn [loop_results]. apply IH.
    rewrite update_with_batch.
    destruct (has_key _ kw) eqn:K; [left; discriminate|].
    destruct H as [H|(j' & [<-|Hj] & Hin)].
    + left. exact H.
    + apply (in_batch kw _ (fetched (prov c (batch keywords j)))) in Hin.
      congruence.
    + right. exists j'. split; assumption.
Qed.

Lemma filter_all {A} (p : A -> bool) (l : list A) :
  (forall x, In x l -> p x = true) -> filter p l = l.
Proof.
  induction l as [|x l IH]; intros H; [reflexivity|]. simpl.
  rewrite (H x (or_introl eq_refl)), IH; [reflexivity|].
  intros y Hy. apply H. right. exact Hy.
Qed.

(** All batches but the last are followed by a pause. *)
Lemma pauses_count (keywords : list text) :
  length (filter (fun j => 5 * j + 5 <? length keywords)
            (seq 0 (batch_count keywords)))
  = batch_count keywords - 1.
Proof.
  destruct (batch_count keywords) as [|m] eqn:B; [reflexivity|].
  rewrite seq_S, filter_app, length_app. cbn [plus filter].
  assert (L : (5 * m + 5 <? length keywords) = false).
  { apply Nat.ltb_ge. pose proof (batch_count_covers keywords). lia. }
  rewrite L. cbn [length].
  rewrite filter_all, length_seq; [lia|].
  intros j Hj. apply in_seq in Hj. apply Nat.ltb_lt.
  pose proof (@batch_count_tight keywords (S j)). lia.
Qed.

Lemma batch_loop_world (keywords : list text) (js : list nat) :
  forall (results : dict) (w : World),
    (forall j, In j js -> 5 * j < length keywords) ->
    exists w',
      batch_loop keywords (map (fun j => 5 * j) js) results w
      = (Ok (loop_results (provider w) (provider_calls w) keywords js results),
         w')
      /\ provider_calls w' = provider_calls w + length js
      /\ provider w' = provider w
      /\ now w'
         = (now w
            + 2 * Z.of_nat
                (length (filter (fun j => 5 * j + 5 <? length keywords)%nat
                           js)))%Z.
Proof.
  induction js as [|j js IH]; intros results w H.
  - exists w. cbn [filter length]. repeat split; [simpl; lia | simpl; lia].
  - cbn [map batch_loop loop_results]. unfold bind at 1.
    fold (batch keywords j).
    rewrite get_interest_over_time_run;
      [|apply batch_nonempty, H; left; reflexivity | apply batch_length].
    unfold bind at 1.
    set (w1 := set_provider_calls w (S (provider_calls w))).
    set (r1 := dict_update results _).
    cbn [filter].
    destruct (5 * j + 5 <? length keywords) eqn:P.
    + destruct (IH r1 (set_now w1 (now w1 + 2)%Z)) as (w' & E & C & Pv & Nw);
        [intros; apply H; right; assumption|].
      exists w'. unfold sleep. rewrite E.
      split; [reflexivity|]. split; [rewrite C; simpl; lia|].
      split; [rewrite Pv; reflexivity|].
      rewrite Nw. cbn [length now set_now w1 set_provider_calls]. lia.
    + destruct (IH r1 w1) as (w' & E & C & Pv & Nw);
        [intros; apply H; right; assumption|].
      exists w'. unfold ret at 1. rewrite E.
      split; [reflexivity|]. split; [rewrite C; simpl; lia|].
      split; [rewrite Pv; reflexivity|].
      rewrite Nw. reflexivity.
Qed.

Lemma batch_get_interest_run (keywords : list text) (w : World) :
  exists (d : dict) (w' : World),
    batch_get_interest keywords w = (Ok d, w')
    /\ (forall kw, dict_get d kw <> None <-> In kw keywords)
    /\ provider_calls w' = provider_calls w + batch_count keywords
    /\ now w' = (now w + 2 * Z.of_nat (batch_count keywords - 1))%Z.
Proof.
  destruct keywords as [|k0 ks].
  { exists [], w. split; [reflexivity|].
    split; [intros kw; simpl; split; [congruence | tauto]|].
    change (batch_count (@nil text)) with 0.
    split; [lia | simpl; lia]. }
  remember (k0 :: ks) as keywords eqn:K.
  destruct (@batch_loop_world keywords (seq 0 (batch_count keywords)) [] w)
    as (w' & E & C & _ & Nw).
  { intros j Hj. apply in_seq in Hj. apply batch_count_tight. lia. }
  exists (loop_results (provider w) (provider_calls w) keywords
            (seq 0 (batch_count keywords)) []), w'.
  split.
  { unfold batch_get_interest, try_except.
    transitivity
      (match batch_loop keywords (range5 (length keywords)) [] w with
       | (Ok a, w1) => (Ok a, w1)
       | (Raised e, w1) => ret (zeros keywords) w1
       end); [rewrite K; reflexivity|].
    unfold range5. fold (batch_count keywords). rewrite E. reflexivity. }
  split.
  { intros kw. split.
    - intros H. destruct (in_dec (list_eq_dec ascii_dec) kw keywords)
        as [I|NI]; [exact I|].
      exfalso. apply H. rewrite loop_results_skip; [reflexivity|].
      intros j _ Hin. apply NI. exact (@batch_subset keywords j kw Hin).
    - intros H. apply loop_results_has. right.
      rewrite <- (batches_partition keywords) in H.
      apply in_concat in H as (b & Hb & Hkw).
      apply in_map_iff in Hb as (j & <- & Hj). exists j. split; assumption. }
  split; [rewrite C, length_seq; reflexivity|].
  rewrite Nw, pauses_count. reflexivity.
Qed.

(** X10: [batch_get_interest] returns an entry for every keyword it is
    given and for no other; it calls the provider once per batch of five,
    and it pauses two seconds after every batch but the last. *)
Theorem batch_get_interest_accounting (keywords : list text) (w : World) :
  exists (d : dict) (w' : World),
    batch_get_interest keywords w = (Ok d, w')
    /\ (forall kw, dict_get d kw <> None <-> In kw keywords)
    /\ provider_calls w' = provider_calls w + batch_count keywords
    /\ now w' = (now w + 2 * Z.of_nat (batch_count keywords - 1))%Z.
Proof. exact (batch_get_interest_run keywords w). Qed.

End BatchAccounting.

Section Compare.

Lemma assoc_get_set {V} (d : list (text * V)) (k k' : text) (v : V) :
  assoc_get (assoc_set d k v) k'
  = if text_eqb k k' then Some v else assoc_get d k'.
Proof.
  induction d as [|[k0 v0] d IH]; simpl; [reflexivity|].
  destruct (text_eqb k0 k) eqn:E; simpl.
  - apply text_eqb_eq in E. subst k0.
    destruct (text_eqb k k'); reflexivity.
  - destruct (text_eqb k0 k') eqn:E'; [|exact IH].
    apply text_eqb_eq in E'. subst k0.
    destruct (text_eqb k k') eqn:E2; [|reflexivity].
    apply text_eqb_eq in E2. subst k'.
    rewrite text_eqb_refl in E. discriminate.
Qed.

Lemma assoc_get_fold {V} (g : text -> V) (kws : list text) (kw : text) :
  forall d,
    assoc_get (fold_left (fun r k => assoc_set r k (g k)) kws d) kw
    = if mem kw kws then Some (g kw) else assoc_get d kw.
Proof.
  induction kws as [|k kws IH]; intros d; [reflexivity|].
  cbn [fold_left]. rewrite IH, assoc_get_set. unfold mem. cbn [existsb].
  fold (mem kw kws). destruct (mem kw kws); [rewrite orb_true_r; reflexivity|].
  rewrite orb_false_r.
  destruct (text_eqb kw k) eqn:E.
  - apply text_eqb_eq in E. subst k. rewrite text_eqb_refl. reflexivity.
  - destruct (text_eqb k kw) eqn:E'; [|reflexivity].
    apply text_eqb_eq in E'. subst k. rewrite text_eqb_refl in E. discriminate.
Qed.

(** X11: [compare_keywords] answers an empty mapping, without calling the
    provider, for no keyword and for more than five; for one to five
    keywords it calls the provider once and gives every keyword its
    fetched interest, flagged as trending exactly when the interest is
    above 50, so that a provider failure leaves nothing trending. *)
Theorem compare_keywords_spec (keywords : list text) (w : World) :
  (keywords = [] \/ 5 < length keywords ->
   compare_keywords keywords w = (Ok [], w))
  /\ (keywords <> [] -> length keywords <= 5 ->
      exists m w',
        compare_keywords keywords w = (Ok m, w')
        /\ provider_calls w' = S (provider_calls w)
        /\ (forall kw, In kw keywords ->
              assoc_get m kw
              = Some (fetched (answer w keywords 0) kw,
                      negb (Qle_bool (fetched (answer w keywords 0) kw) 50)))
        /\ (answer w keywords 0 = ProviderRaises ->
            forall kw, In kw keywords -> assoc_get m kw = Some (0%Q, false))).
Proof.
  split.
  - intros [->|L]; [reflexivity|].
    unfold compare_keywords, try_except.
    apply Nat.ltb_lt in L. rewrite L, orb_true_r. reflexivity.
  - intros N L.
    assert (A : answer w keywords 0 = provider w (provider_calls w) keywords).
    { unfold answer, batch, slice5. rewrite Nat.add_0_r.
      cbn [Nat.mul skipn]. rewrite firstn_all2 by exact L. reflexivity. }
    unfold compare_keywords, try_except, bind.
    replace (5 <? length keywords) with false
      by (symmetry; apply Nat.ltb_ge; exact L).
    destruct keywords as [|k ks] eqn:K; [congruence|]. rewrite <- K in *.
    cbn [orb].
    rewrite (@get_interest_over_time_run keywords w N L).
    eexists. eexists. split; [reflexivity|]. split; [reflexivity|].
    assert (G : forall kw, In kw keywords ->
                assoc_get
                  (fold_left
                     (fun results kw0 =>
                        assoc_set results kw0
                          (metric (batch_dict
                                     (provider w (provider_calls w) keywords)
                                     keywords) kw0))
                     keywords []) kw
                = Some (fetched (answer w keywords 0) kw,
                        negb (Qle_bool (fetched (answer w keywords 0) kw) 50))).
    { intros kw H. rewrite assoc_get_fold, (@mem_In kw keywords H).
      unfold metric, interest_or_zero. rewrite batch_dict_get.
      apply (in_batch kw _ (fetched (provider w (provider_calls w) keywords)))
        in H.
      rewrite H, A. reflexivity. }
    split; [exact G|].
    intros F kw H. rewrite (G kw H), F. reflexivity.
Qed.

Lemma compare_keywords_spec_witness :
  exists m,
    fst (compare_keywords (map T ["alpha"; "beta"]%string)
           (set_provider_calls flaky_world 1)) = Ok m
    /\ assoc_get m (T "alpha") = Some (50%Q, false)
    /\ assoc_get m (T "beta") = Some (0%Q, false).
Proof.
  destruct (compare_keywords_spec (map T ["alpha"; "beta"]%string)
              (set_provider_calls flaky_world 1)) as [_ H].
  destruct H as (m & w' & E & _ & G & _); [discriminate | simpl; lia|].
  exists m. split; [rewrite E; reflexivity|]. split.
  - rewrite G; [reflexivity | vm_compute; tauto].
  - rewrite G; [reflexivity | vm_compute; tauto].
Defined.

End Compare.

(** ** KeywordExtractor over the content store *)

Section Corpus.

Lemma UUID_run (s : text) (w : World) :
  UUID s w = (if uuid_ok w s then Ok s else Raised ValueError, w).
Proof.
  unfold UUID, bind, get, ret, raise. destruct (uuid_ok w s); reflexivity.
Qed.

Lemma map_append_fst (m : content_map) (k cid : text) :
  map fst (map_append m k cid)
  = if existsb (fun k' => text_eqb k' k) (map fst m)
    then map fst m else map fst m ++ [k].
Proof.
  induction m as [|[k0 ids] m IH]; simpl; [reflexivity|].
  destruct (text_eqb k0 k); simpl; [reflexivity|].
  rewrite IH. destruct (existsb _ (map fst m)); reflexivity.
Qed.

Lemma map_append_NoDup (m : content_map) (k cid : text) :
  NoDup (map fst m) -> NoDup (map fst (map_append m k cid)).
Proof.
  intros H. rewrite map_append_fst.
  destruct (existsb _ (map fst m)) eqn:E; [exact H|].
  apply NoDup_app; [exact H | repeat constructor; intros [] |].
  intros k' Hk [E'|[]]. subst k'.
  assert (X : existsb (fun k' => text_eqb k' k) (map fst m) = true).
  { apply existsb_exists. exists k. split; [exact Hk | apply text_eqb_refl]. }
  congruence.
Qed.

(** Every id of the map after an append was there before or is the new
    one, under the appended keyword. *)
Lemma map_append_ids (m : content_map) (k cid kw id : text)
  (ids : list text) :
  In (kw, ids) (map_append m k cid) -> In id ids ->
  (exists ids0, In (kw, ids0) m /\ In id ids0) \/ (kw = k /\ id = cid).
Proof.
  induction m as [|[k0 ids0] m IH]; simpl.
  - intros [E|[]] H. injection E as E1 E2. subst kw ids.
    destruct H as [H|[]]. right. split; [reflexivity | symmetry; exact H].
  - destruct (text_eqb k0 k) eqn:E; simpl.
    + apply text_eqb_eq in E. subst k0.
      intros [E'|H'] H.
      * injection E' as E1 E2. subst kw ids.
        apply in_app_or in H as [H|[H|[]]].
        -- left. exists ids0. split; [left; reflexivity | exact H].
        -- right. split; [reflexivity | symmetry; exact H].
      * left. exists ids. split; [right; exact H' | exact H].
    + intros [E'|H'] H.
      * injection E' as E1 E2. subst kw ids. left. exists ids0.
        split; [left; reflexivity | exact H].
      * destruct (IH H' H) as [(i0 & Hi & Hid)|R]; [|right; exact R].
        left. exists i0. split; [right; exact Hi | exact Hid].
Qed.

Lemma append_item_inv (Q : text -> text -> Prop) (id : text)
  (kws : list text) :
  forall m w m' w',
    append_item id kws m w = (Ok m', w') ->
    (forall kw, In kw kws -> Q kw id) ->
    NoDup (map fst m) /\ supported Q m ->
    NoDup (map fst m') /\ supported Q m'.
Proof.
  induction kws as [|kw kws IH]; intros m w m' w' E HQ [N S].
  - injection E as <- _. split; assumption.
  - cbn [append_item] in E. unfold bind in E. rewrite UUID_run in E.
    destruct (uuid_ok w id); [|discriminate].
    apply IH in E; [exact E | intros; apply HQ; right; assumption|].
    split; [apply map_append_NoDup; exact N|].
    intros k ids i Hin Hi.
    destruct (@map_append_ids m kw id k i ids Hin Hi)
      as [(ids0 & H0 & Hi0)|[-> ->]].
    + exact (S k ids0 i H0 Hi0).
    + apply HQ. left. reflexivity.
Qed.

Lemma collect_keywords_inv (Q : text -> text -> Prop)
  (items : list ContentItem) :
  forall m w m' w',
    collect_keywords items m w = (Ok m', w') ->
    (forall item kw, In item items ->
       In kw (extract_keywords_from_text (Some (item_text item)) 3 20) ->
       Q kw (c_id item)) ->
    NoDup (map fst m) /\ supported Q m ->
    NoDup (map fst m') /\ supported Q m'.
Proof.
  induction items as [|item items IH]; intros m w m' w' E HQ I.
  - injection E as <- _. exact I.
  - cbn [collect_keywords] in E. unfold bind in E.
    destruct (append_item (c_id item)
                (extract_keywords_from_text (Some (item_text item)) 3 20) m w)
      as [[m1|e] w1] eqn:A; [|discriminate].
    apply (@append_item_inv Q) in A;
      [|intros kw Hkw; apply HQ; [left; reflexivity | exact Hkw] | exact I].
    apply IH in E; [exact E | | exact A].
    intros it kw Hit. apply HQ. right. exact Hit.
Qed.

End Corpus.

Section CorpusResult.

Lemma select_content_rows (p : ContentItem -> bool) (w w1 : World) rows :
  select_content p w = (Ok rows, w1) ->
  rows = filter p (content w) /\ now w1 = now w.
Proof.
  unfold select_content, bind, get, ret, execute.
  destruct (faults w) as [|[|] f]; intros E; try discriminate;
    injection E as <- <-; split; reflexivity.
Qed.

(** The result is empty, or it is the sorted list of the candidates of a
    keyword map whose ids are all supported by items of the owner. *)
Lemma extract_anatomy (u : text) (d : Z) (n : nat) (w : World) :
  exists l,
    fst (extract_keywords_from_content u d n w) = Ok l
    /\ (l = []
        \/ exists m, NoDup (map fst m)
                     /\ supported (mentioned_in w u d) m
                     /\ l = sort_by mentions_lt (candidates_of n m)).
Proof.
  unfold extract_keywords_from_content, try_except, bind at 1, get.
  unfold bind at 1.
  destruct (select_content _ w) as [[rows|e] w1] eqn:S;
    [|exists []; split; [reflexivity | left; reflexivity]].
  apply select_content_rows in S as [R Nw].
  destruct rows as [|r rows'];
    [exists []; split; [reflexivity | left; reflexivity]|].
  cbv beta iota. unfold bind.
  destruct (collect_keywords (r :: rows') [] w1) as [[m|e] w2] eqn:C;
    [|exists []; split; [reflexivity | left; reflexivity]].
  assert (Inv : NoDup (map fst m) /\ supported (mentioned_in w u d) m).
  { apply (@collect_keywords_inv (mentioned_in w u d)) in C;
      [exact C| |split; [constructor | intros ? ? ? []]].
    intros item kw Hit Hkw. exists item. rewrite R in Hit.
    apply filter_In in Hit as [Hit P]. apply andb_prop in P as [P1 P2].
    repeat split; try assumption;
      [apply text_eqb_eq; exact P1 | apply Z.leb_le; exact P2]. }
  destruct Inv as [N Sp].
  exists (sort_by mentions_lt (candidates_of n m)).
  split; [reflexivity|]. right. exists m. repeat split; assumption.
Qed.

Lemma candidates_of_In (n : nat) (m : content_map) (c : Candidate) :
  In c (candidates_of n m) ->
  exists ids, In (fst (fst c), ids) m
              /\ snd (fst c) = length ids /\ n <= length ids
              /\ snd c = unique_ids ids.
Proof.
  unfold candidates_of. intros H. apply in_flat_map in H as ([k ids] & Hm & H).
  simpl in H. destruct (n <=? length ids) eqn:L; [|destruct H].
  destruct H as [<-|[]]. exists ids. simpl.
  apply Nat.leb_le in L. repeat split; assumption.
Qed.

Lemma candidates_of_keys (n : nat) (m : content_map) :
  NoDup (map fst m) ->
  NoDup (map (fun c : Candidate => fst (fst c)) (candidates_of n m)).
Proof.
  induction m as [|[k ids] m IH]; intros N; [constructor|].
  inversion N as [|? ? N1 N2]; subst.
  unfold candidates_of. cbn [flat_map]. fold (candidates_of n m).
  cbn [fst snd]. destruct (n <=? length ids); [|exact (IH N2)].
  cbn [app map fst]. constructor; [|exact (IH N2)].
  intros H. apply in_map_iff in H as (c & E & Hc).
  apply candidates_of_In in Hc as (ids' & Hm & _).
  apply N1. rewrite E in Hm. apply in_map_iff. exists (k, ids'). auto.
Qed.

Lemma insert_key_sorted {A} (f : A -> nat) (x : A) (l : list A) :
  StronglySorted (fun a b => f b <= f a) l ->
  StronglySorted (fun a b => f b <= f a)
    (insert_by (fun a b => f a <? f b) x l).
Proof.
  induction l as [|y l IH]; intros S; simpl.
  - repeat constructor.
  - inversion S as [|? ? S' F]; subst.
    destruct (f x <? f y) eqn:E.
    + apply Nat.ltb_lt in E. constructor; [exact (IH S')|].
      rewrite Forall_forall in *. intros z Hz.
      apply In_insert_by in Hz as [->|Hz]; [lia | exact (F z Hz)].
    + apply Nat.ltb_ge in E. constructor; [exact S|].
      constructor; [exact E|].
      rewrite Forall_forall in *. intros z Hz. specialize (F z Hz). lia.
Qed.

Lemma sort_key_sorted {A} (f : A -> nat) (l : list A) :
  StronglySorted (fun a b => f b <= f a)
    (sort_by (fun a b => f a <? f b) l).
Proof.
  unfold sort_by. induction l as [|x l IH]; simpl; [constructor|].
  apply insert_key_sorted. exact IH.
Qed.

(** X12: [extract_keywords_from_content] never raises; every candidate it
    returns has at least [min_mentions] mentions, the candidates are in
    order of decreasing mention count, no keyword occurs twice, and the
    content ids of a candidate are distinct and not more than its mention
    count. *)
Theorem corpus_candidates_shape (user_id : text) (ndays : Z)
  (min_mentions : nat) (w : World) :
  exists l : list Candidate,
    fst (extract_keywords_from_content user_id ndays min_mentions w) = Ok l
    /\ Forall (fun c => min_mentions <= snd (fst c)) l
    /\ StronglySorted (fun a b => snd (fst b) <= snd (fst a)) l
    /\ NoDup (map (fun c : Candidate => fst (fst c)) l)
    /\ Forall (fun c => NoDup (snd c) /\ length (snd c) <= snd (fst c)) l.
Proof.
  destruct (extract_anatomy user_id ndays min_mentions w)
    as (l & E & [->|(m & N & _ & ->)]).
  - exists []. split; [exact E|]. repeat split; constructor.
  - exists (sort_by mentions_lt (candidates_of min_mentions m)).
    split; [exact E|].
    assert (A : forall c,
               In c (sort_by mentions_lt (candidates_of min_mentions m)) ->
               min_mentions <= snd (fst c)
               /\ NoDup (snd c) /\ length (snd c) <= snd (fst c)).
    { intros c Hc. apply In_sort_by in Hc.
      apply candidates_of_In in Hc as (ids & _ & E1 & L & E2).
      rewrite E1, E2. split; [exact L|].
      split; [apply NoDup_nodup|].
      unfold unique_ids. clear.
      induction ids as [|i ids IH]; simpl; [lia|].
      destruct (in_dec (list_eq_dec ascii_dec) i ids); simpl; lia. }
    split; [apply Forall_forall; intros c Hc; apply A; exact Hc|].
    split; [apply (@sort_key_sorted _ (fun c : Candidate => snd (fst c)))|].
    split.
    + apply (@Permutation_NoDup _
               (map (fun c : Candidate => fst (fst c))
                  (candidates_of min_mentions m))).
      * apply Permutation_map, Permutation_sym, sort_by_perm.
      * apply candidates_of_keys. exact N.
    + apply Forall_forall. intros c Hc. apply A. exact Hc.
Qed.

(** X13: every content id that [extract_keywords_from_content] attaches to
    a keyword is the id of an item of that owner, created inside the
    window, from whose text [extract_keywords_from_text] extracts that
    keyword. *)
Theorem corpus_candidates_provenance (user_id : text) (ndays : Z)
  (min_mentions : nat) (w : World) (l : list Candidate) (c : Candidate)
  (id : text) :
  fst (extract_keywords_from_content user_id ndays min_mentions w) = Ok l ->
  In c l -> In id (snd c) ->
  mentioned_in w user_id ndays (fst (fst c)) id.
Proof.
  intros E Hc Hid.
  destruct (extract_anatomy user_id ndays min_mentions w)
    as (l' & E' & [->|(m & _ & S & ->)]);
    rewrite E' in E; injection E as <-; [destruct Hc|].
  apply In_sort_by in Hc.
  apply candidates_of_In in Hc as (ids & Hm & _ & _ & E2).
  rewrite E2 in Hid. unfold unique_ids in Hid. apply nodup_In in Hid.
  exact (S _ _ _ Hm Hid).
Qed.

Lemma corpus_candidates_provenance_witness :
  mentioned_in demo_world (T "u1") 7 (T "crypto") (T "c3").
Proof.
  apply (@corpus_candidates_provenance (T "u1") 7 2 demo_world
           [(T "rocket", 3, [T "c1"; T "c2"; T "c3"]);
            (T "crypto", 2, [T "c1"; T "c3"]);
            (T "#ai", 2, [T "c2"; T "c3"])]
           (T "crypto", 2, [T "c1"; T "c3"]) (T "c3")).
  - vm_compute. reflexivity.
  - right. left. reflexivity.
  - right. left. reflexivity.
Defined.

End CorpusResult.

(** ** Computations that make no provider call *)

Section Quiet.

Lemma quiet_ret {A} (a : A) : quiet (ret a).
Proof. intros w. split; reflexivity. Qed.

Lemma quiet_raise {A} (e : Exception) : quiet (@raise A e).
Proof. intros w. split; reflexivity. Qed.

Lemma quiet_get {A} (f : World -> A) : quiet (get f).
Proof. intros w. split; reflexivity. Qed.

Lemma quiet_bind {A B} (m : M A) (k : A -> M B) :
  quiet m -> (forall a, quiet (k a)) -> quiet (bind m k).
Proof.
  intros Hm Hk w. unfold bind. specialize (Hm w).
  destruct (m w) as [[a|e] w']; simpl in *; [|exact Hm].
  destruct (Hk a w') as [C P]. destruct Hm as [C' P'].
  split; congruence.
Qed.

Lemma quiet_try {A} (m : M A) (h : Exception -> M A) :
  quiet m -> (forall e, quiet (h e)) -> quiet (try_except m h).
Proof.
  intros Hm Hh w. unfold try_except. specialize (Hm w).
  destruct (m w) as [[a|e] w']; simpl in *; [exact Hm|].
  destruct (Hh e w') as [C P]. destruct Hm as [C' P'].
  split; congruence.
Qed.

Lemma quiet_execute : quiet execute.
Proof.
  intros w. unfold execute. destruct (faults w) as [|[|] f];
    split; reflexivity.
Qed.

End Quiet.

Ltac quiet_step :=
  first
    [ apply quiet_bind | apply quiet_try | apply quiet_ret
    | apply quiet_raise | apply quiet_get | apply quiet_execute
    | match goal with
      | |- quiet (match ?x with _ => _ end) => destruct x
      | |- quiet (if ?b then _ else _) => destruct b
      | |- forall _, _ => intro
      end ].

Ltac quiet_auto := repeat quiet_step.

Section QuietServices.

Lemma quiet_select_content p : quiet (select_content p).
Proof. unfold select_content. quiet_auto. Qed.

Lemma quiet_UUID s : quiet (UUID s).
Proof. unfold UUID. quiet_auto. Qed.

Lemma quiet_append_item id kws : forall m, quiet (append_item id kws m).
Proof.
  induction kws as [|kw kws IH]; intros m; simpl; [quiet_auto|].
  apply quiet_bind; [apply quiet_UUID|]. intro. apply IH.
Qed.

Lemma quiet_collect_keywords items : forall m,
  quiet (collect_keywords items m).
Proof.
  induction items as [|item items IH]; intros m; [simpl; quiet_auto|].
  cbn [collect_keywords].
  apply quiet_bind; [apply quiet_append_item|]. intro. apply IH.
Qed.

Lemma quiet_extract_keywords_from_content u d n :
  quiet (extract_keywords_from_content u d n).
Proof.
  unfold extract_keywords_from_content.
  apply quiet_try; [|quiet_auto].
  apply quiet_bind; [quiet_auto|]. intro.
  apply quiet_bind; [apply quiet_select_content|]. intros rows.
  destruct rows; [quiet_auto|].
  apply quiet_bind; [apply quiet_collect_keywords|]. quiet_auto.
Qed.

Lemma quiet_calculate_velocity u kw : quiet (calculate_velocity u kw).
Proof.
  unfold calculate_velocity. apply quiet_try; [|quiet_auto].
  apply quiet_bind; [quiet_auto|]. intro.
  apply quiet_bind; [apply quiet_select_content|]. intro.
  apply quiet_bind; [apply quiet_select_content|]. quiet_auto.
Qed.

Lemma quiet_score_candidates u g cands : quiet (score_candidates u g cands).
Proof.
  induction cands as [|[[kw mc] ids] cands IH]; simpl; [quiet_auto|].
  apply quiet_bind; [apply quiet_calculate_velocity|]. intro.
  apply quiet_bind; [apply IH|]. quiet_auto.
Qed.

End QuietServices.

(** ** Keyword suggestions *)

Section Suggestions.

Lemma extract_keys (u : text) (d : Z) (n : nat) (w : World) :
  exists l w',
    extract_keywords_from_content u d n w = (Ok l, w')
    /\ NoDup (map (fun c : Candidate => fst (fst c)) l)
    /\ Forall (fun c : Candidate => n <= snd (fst c)) l
    /\ (hd false (faults w) = true -> l = []).
Proof.
  destruct (extract_anatomy u d n w) as (l & E & H).
  destruct (extract_keywords_from_content u d n w) as [[l'|e] w'] eqn:X;
    simpl in E; [|discriminate]. injection E as ->.
  exists l, w'. split; [reflexivity|].
  assert (F : hd false (faults w) = true -> l = []).
  { intros Hf. destruct (faults w) as [|[|] f] eqn:Fw; try discriminate.
    rewrite (@extract_unreachable u d n w f Fw) in X.
    injection X as <- _. reflexivity. }
  destruct H as [->|(m & N & _ & ->)].
  - split; [constructor|]. split; [constructor | exact F].
  - split; [|split; [|exact F]].
    + apply (@Permutation_NoDup _
               (map (fun c : Candidate => fst (fst c)) (candidates_of n m))).
      * apply Permutation_map, Permutation_sym, sort_by_perm.
      * apply candidates_of_keys. exact N.
    + apply Forall_forall. intros c Hc. apply In_sort_by in Hc.
      apply candidates_of_In in Hc as (ids & _ & E1 & L & _). lia.
Qed.

(** X14: [get_keyword_suggestions] never raises, returns at most 30
    keywords and none of them twice; when the content query fails it
    returns no suggestion. *)
Theorem suggestions_capped_and_distinct (user_id : text) (ndays : Z)
  (w : World) :
  exists l : list text,
    fst (get_keyword_suggestions user_id ndays w) = Ok l
    /\ length l <= 30
    /\ NoDup l
    /\ (hd false (faults w) = true -> l = []).
Proof.
  unfold get_keyword_suggestions, try_except, bind.
  destruct (extract_keys user_id ndays 2 w) as (l & w' & E & N & _ & F).
  rewrite E. eexists. split; [reflexivity|].
  split; [rewrite length_map; apply firstn_le_length|].
  split; [rewrite <- firstn_map; apply firstn_NoDup; exact N|].
  intros Hf. rewrite (F Hf). reflexivity.
Qed.

Lemma suggestions_capped_and_distinct_witness :
  fst (get_keyword_suggestions (T "u1") 7 unreachable_world) = Ok [].
Proof.
  destruct (suggestions_capped_and_distinct (T "u1") 7 unreachable_world)
    as (l & E & _ & _ & F).
  rewrite E, F; reflexivity.
Defined.

End Suggestions.

(** ** Detection: the shape of the detected trends *)

Section Detection.

Local Open Scope Q_scope.

Lemma score_range (m : nat) (g v : Q) :
  in_percent g -> in_percent (calculate_trend_score (Z.of_nat m) g v).
Proof.
  intros [G0 G1]. rewrite score_as_composite.
  assert (Hm : (0 <= Z.of_nat m)%Z) by lia.
  pose proof (normalized_mentions_range Hm) as [M0 M1].
  pose proof (normalized_velocity_range v) as [V0 V1].
  apply round2_range; unfold composite_score; lra.
Qed.

Lemma fetched_range (w : World) (k : nat) (b : list text) (kw : text) :
  provider_in_range w -> in_percent (fetched (provider w k b) kw).
Proof.
  intros P. unfold fetched.
  destruct (provider w k b) as [| |means] eqn:E; try (split; lra).
  destruct (dict_get means kw) as [avg|] eqn:G; [|split; lra].
  destruct (P k b means kw avg E G) as [A0 A1].
  apply round2_range; assumption.
Qed.

Lemma dict_update_values (P : Q -> Prop) (e d : dict) :
  Forall (fun kv => P (snd kv)) d -> Forall (fun kv => P (snd kv)) e ->
  Forall (fun kv => P (snd kv)) (dict_update d e).
Proof.
  intros Hd He. apply Forall_forall. intros kv H.
  apply In_dict_update in H as [H|H];
    [exact (proj1 (Forall_forall _ _) Hd kv H)
    | exact (proj1 (Forall_forall _ _) He kv H)].
Qed.

Lemma batch_dict_values (w : World) (k : nat) (b b' : list text) :
  provider_in_range w ->
  Forall (fun kv => in_percent (snd kv)) (batch_dict (provider w k b) b').
Proof.
  intros P. unfold batch_dict. apply dict_update_values; [constructor|].
  apply Forall_forall. intros kv H.
  apply in_map_iff in H as (kw & <- & _). apply fetched_range. exact P.
Qed.

Lemma loop_results_values (w : World) (keywords : list text) (js : list nat) :
  provider_in_range w ->
  forall c results,
    Forall (fun kv => in_percent (snd kv)) results ->
    Forall (fun kv => in_percent (snd kv))
      (loop_results (provider w) c keywords js results).
Proof.
  intros P. induction js as [|j js IH]; intros c results H; [exact H|].
  cbn [loop_results]. apply IH. apply dict_update_values; [exact H|].
  apply batch_dict_values. exact P.
Qed.

Lemma dict_get_In (d : dict) (kw : text) (v : Q) :
  dict_get d kw = Some v -> exists k, In (k, v) d.
Proof.
  induction d as [|[k0 v0] d IH]; simpl; [discriminate|].
  destruct (text_eqb k0 kw).
  - intros E. injection E as <-. exists k0. left. reflexivity.
  - intros E. destruct (IH E) as (k & H). exists k. right. exact H.
Qed.

(** The scores of [batch_get_interest], with its effect on the world. *)
Lemma batch_get_interest_values (keywords : list text) (w : World) :
  exists d w',
    batch_get_interest keywords w = (Ok d, w')
    /\ provider_calls w' = (provider_calls w + batch_count keywords)%nat
    /\ provider w' = provider w
    /\ (provider_in_range w ->
        forall kw v, dict_get d kw = Some v -> in_percent v).
Proof.
  destruct keywords as [|k0 ks].
  { exists [], w. split; [reflexivity|].
    change (batch_count (@nil text)) with 0%nat.
    split; [lia|]. split; [reflexivity|]. intros _ kw v H. discriminate H. }
  remember (k0 :: ks) as keywords eqn:K.
  destruct (@batch_loop_world keywords (seq 0 (batch_count keywords)) [] w)
    as (w' & E & C & Pv & _).
  { intros j Hj. apply in_seq in Hj. apply batch_count_tight. lia. }
  exists (loop_results (provider w) (provider_calls w) keywords
            (seq 0 (batch_count keywords)) []), w'.
  split.
  { unfold batch_get_interest, try_except.
    transitivity
      (match batch_loop keywords (range5 (length keywords)) [] w with
       | (Ok a, w1) => (Ok a, w1)
       | (Raised e, w1) => ret (zeros keywords) w1
       end); [rewrite K; reflexivity|].
    unfold range5. fold (batch_count keywords). rewrite E. reflexivity. }
  split; [rewrite C, length_seq; reflexivity|]. split; [exact Pv|].
  intros P kw v H. apply dict_get_In in H as (k & H).
  pose proof (@loop_results_values w keywords (seq 0 (batch_count keywords))
                P (provider_calls w) [] (Forall_nil _)) as F.
  exact (proj1 (Forall_forall _ _) F (k, v) H).
Qed.

Lemma score_candidates_run (u : text) (g : dict) (cands : list Candidate) :
  forall w, exists found w',
    score_candidates u g cands w = (Ok found, w')
    /\ Forall2 (scored_from g) cands found.
Proof.
  induction cands as [|[[kw mc] ids] cands IH]; intros w.
  - exists [], w. split; [reflexivity | constructor].
  - cbn [score_candidates]. unfold bind at 1.
    destruct (calculate_velocity_floor w u kw) as (q & Eq & Lq & _).
    destruct (calculate_velocity u kw w) as [[q'|e] w1]; simpl in Eq;
      [|discriminate]. injection Eq as ->.
    unfold bind at 1.
    destruct (IH w1) as (found & w2 & E & F). rewrite E.
    eexists. eexists. split; [reflexivity|].
    constructor; [|exact F].
    unfold scored_from. cbn [keyword content_mentions google_trends_score
                             velocity score fst snd].
    repeat split; try reflexivity. exact Lq.
Qed.

Lemma Forall2_keywords (g : dict) (cands : list Candidate)
  (found : list Trend) :
  Forall2 (scored_from g) cands found ->
  map keyword found = map (fun c : Candidate => fst (fst c)) cands.
Proof.
  induction 1 as [|c t cands found R _ IH]; [reflexivity|].
  simpl. destruct R as (K & _). rewrite K, IH. reflexivity.
Qed.

Lemma Forall2_well_scored (g : dict) (cands : list Candidate)
  (found : list Trend) :
  Forall2 (scored_from g) cands found ->
  Forall (fun c : Candidate => (2 <= snd (fst c))%nat) cands ->
  Forall well_scored found.
Proof.
  induction 1 as [|c t cands found R _ IH]; intros H; [constructor|].
  inversion H as [|? ? Hc Hs]; subst.
  constructor; [|exact (IH Hs)].
  destruct R as (_ & M & _ & V & S). unfold well_scored.
  split; [rewrite M; exact Hc | split; [exact V | exact S]].
Qed.

Lemma Forall2_in_percent (g : dict) (cands : list Candidate)
  (found : list Trend) :
  Forall2 (scored_from g) cands found ->
  (forall kw v, dict_get g kw = Some v -> in_percent v) ->
  Forall (fun t => in_percent (google_trends_score t)
                   /\ in_percent (score t)) found.
Proof.
  induction 1 as [|c t cands found R _ IH]; intros H; [constructor|].
  constructor; [|exact (IH H)].
  destruct R as (_ & _ & G & _ & S).
  assert (P : in_percent (google_trends_score t)).
  { rewrite G. destruct (dict_get g (fst (fst c))) as [x|] eqn:E;
      [exact (H _ _ E) | split; lra]. }
  split; [exact P|]. rewrite S. apply score_range. exact P.
Qed.

Lemma score_lt_spec (x y : Trend) :
  score_lt x y = true <-> score x < score y.
Proof.
  unfold score_lt. rewrite Qlt_alt.
  destruct (score x ?= score y); split; congruence.
Qed.

Lemma insert_trend_sorted (x : Trend) (l : list Trend) :
  StronglySorted (fun a b => score b <= score a) l ->
  StronglySorted (fun a b => score b <= score a) (insert_by score_lt x l).
Proof.
  induction l as [|y l IH]; intros S; simpl.
  - repeat constructor.
  - inversion S as [|? ? S' F]; subst.
    destruct (score_lt x y) eqn:E.
    + apply score_lt_spec in E.
      constructor; [exact (IH S')|].
      rewrite Forall_forall in *. intros z Hz.
      apply In_insert_by in Hz as [->|Hz]; [lra | exact (F z Hz)].
    + assert (G : score y <= score x).
      { apply Qnot_lt_le. intros L. apply score_lt_spec in L. congruence. }
      constructor; [exact S|].
      constructor; [exact G|].
      rewrite Forall_forall in *. intros z Hz.
      specialize (F z Hz). simpl in F. lra.
Qed.

Lemma sort_trends_sorted (l : list Trend) :
  StronglySorted (fun a b => score b <= score a) (sort_by score_lt l).
Proof.
  unfold sort_by. induction l as [|x l IH]; simpl; [constructor|].
  apply insert_trend_sorted. exact IH.
Qed.

End Detection.

Section DetectionResult.

Local Open Scope Q_scope.

Lemma batch_count_top_20 (ks : list text) :
  (batch_count (firstn 20 ks) <= 4)%nat.
Proof.
  unfold batch_count.
  pose proof (firstn_le_length 20 ks) as L.
  assert (H : ((length (firstn 20 ks) + 4) / 5 < 5)%nat)
    by (apply Nat.Div0.div_lt_upper_bound; lia).
  lia.
Qed.

Lemma Forall_sorted_prefix {A} (lt : A -> A -> bool) (P : A -> Prop)
  (n : nat) (l : list A) :
  Forall P l -> Forall P (firstn n (sort_by lt l)).
Proof.
  intros H. apply Forall_forall. intros x Hx.
  apply In_firstn, In_sort_by in Hx.
  exact (proj1 (Forall_forall _ _) H x Hx).
Qed.

Lemma firstn_Forall {A} (P : A -> Prop) (n : nat) (l : list A) :
  Forall P l -> Forall P (firstn n l).
Proof.
  intros H. apply Forall_forall. intros x Hx. apply In_firstn in Hx.
  exact (proj1 (Forall_forall _ _) H x Hx).
Qed.

(** One run of [detect_trends], with all that the later properties need. *)
Lemma detect_trends_run (u : text) (n : nat) (w : World) :
  exists l w',
    detect_trends u n w = (Ok l, w')
    /\ (length l <= n)%nat
    /\ StronglySorted (fun a b => score b <= score a) l
    /\ NoDup (map keyword l)
    /\ Forall well_scored l
    /\ (provider_calls w' <= provider_calls w + 4)%nat
    /\ (provider_in_range w ->
        Forall (fun t => in_percent (google_trends_score t)
                         /\ in_percent (score t)) l).
Proof.
  unfold detect_trends, try_except. unfold bind at 1.
  destruct (extract_keys u 7 2 w) as (cands & w1 & E & N & F2 & _).
  pose proof (quiet_extract_keywords_from_content u 7 2 w) as [Q1 Q1'].
  rewrite E in *. cbn [snd] in Q1, Q1'.
  destruct cands as [|c0 cands0].
  { exists [], w1. split; [reflexivity|]. split; [simpl; lia|].
    split; [constructor|]. split; [constructor|]. split; [constructor|].
    split; [lia | intros _; constructor]. }
  cbv beta iota.
  set (cands := c0 :: cands0) in *.
  set (top := firstn (n * 2) cands).
  unfold bind at 1.
  destruct (batch_get_interest_values
              (firstn 20 (map (fun c : Candidate => fst (fst c)) top)) w1)
    as (g & w2 & Eg & C2 & P2 & R2).
  rewrite Eg. unfold bind at 1.
  destruct (score_candidates_run u g top w2) as (found & w3 & Es & F).
  pose proof (quiet_score_candidates u g top w2) as [Q3 _].
  rewrite Es in *. cbn [snd] in Q3.
  exists (firstn n (sort_by score_lt found)), w3.
  split; [reflexivity|].
  split; [apply firstn_le_length|].
  split; [apply firstn_sorted, sort_trends_sorted|].
  split.
  { rewrite <- firstn_map. apply firstn_NoDup.
    apply (@Permutation_NoDup _ (map keyword found)).
    - apply Permutation_map, Permutation_sym, sort_by_perm.
    - rewrite (Forall2_keywords F). unfold top. rewrite <- firstn_map.
      apply firstn_NoDup. exact N. }
  split.
  { apply Forall_sorted_prefix.
    apply (Forall2_well_scored F). unfold top. apply firstn_Forall. exact F2. }
  split.
  { rewrite Q3, C2, Q1.
    pose proof (batch_count_top_20
                  (map (fun c : Candidate => fst (fst c)) top)). lia. }
  intros P. apply Forall_sorted_prefix.
  apply (Forall2_in_percent F). apply R2.
  unfold provider_in_range. rewrite Q1'. exact P.
Qed.

(** X15: [detect_trends] never raises and returns at most [max_trends]
    trends, by decreasing score, no keyword twice; every trend has at
    least 2 mentions, a velocity of at least -1, and the score that
    [calculate_trend_score] gives its own three figures. *)
Theorem detect_trends_shape (user_id : text) (max_trends : nat) (w : World) :
  exists l : list Trend,
    fst (detect_trends user_id max_trends w) = Ok l
    /\ (length l <= max_trends)%nat
    /\ StronglySorted (fun a b => score b <= score a) l
    /\ NoDup (map keyword l)
    /\ Forall well_scored l.
Proof.
  destruct (detect_trends_run user_id max_trends w)
    as (l & w' & E & L & S & N & F & _).
  exists l. rewrite E. repeat split; assumption.
Qed.

(** X16: one run of [detect_trends] makes at most 4 calls to the external
    provider, whatever [max_trends] is, and does not write the trend
    store. *)
Theorem detect_trends_call_cap (user_id : text) (max_trends : nat)
  (w : World) :
  (provider_calls (snd (detect_trends user_id max_trends w))
   <= provider_calls w + 4)%nat
  /\ trends (snd (detect_trends user_id max_trends w)) = trends w.
Proof.
  split; [|apply stable_detect_trends].
  destruct (detect_trends_run user_id max_trends w)
    as (l & w' & E & _ & _ & _ & _ & C & _).
  rewrite E. exact C.
Qed.

(** X17: when the provider answers with interests between 0 and 100, every
    detected trend has a Google Trends score and a score between 0 and
    100. *)
Theorem detect_trends_in_percent (user_id : text) (max_trends : nat)
  (w : World) (l : list Trend) (t : Trend) :
  provider_in_range w ->
  fst (detect_trends user_id max_trends w) = Ok l -> In t l ->
  in_percent (google_trends_score t) /\ in_percent (score t).
Proof.
  intros P E H.
  destruct (detect_trends_run user_id max_trends w)
    as (l' & w' & E' & _ & _ & _ & _ & _ & R).
  rewrite E' in E. injection E as <-.
  exact (proj1 (Forall_forall _ _) (R P) t H).
Qed.

End DetectionResult.

Section DetectionWitness.

Lemma trending_provider_in_range : provider_in_range trending_world.
Proof.
  intros k b means kw v H G. injection H as <-.
  apply dict_get_In in G as (k' & [G|[G|[]]]); injection G as _ <-;
    split; apply Qle_bool_imp_le; reflexivity.
Qed.

Lemma detect_trends_in_percent_witness :
  exists l,
    fst (detect_trends (T "u1") 10 trending_world) = Ok l
    /\ map (fun t => (keyword t, google_trends_score t)) l
       = [(T "rocket", (161 # 2)%Q); (T "crypto", 40%Q); (T "#ai", 0%Q)]
    /\ Forall (fun t => in_percent (google_trends_score t)
                        /\ in_percent (score t)) l.
Proof.
  destruct (fst (detect_trends (T "u1") 10 trending_world)) as [l|e] eqn:E.
  - exists l. split; [reflexivity|]. split.
    + vm_compute in E. injection E as <-. reflexivity.
    + apply Forall_forall. intros t H.
      exact (@detect_trends_in_percent (T "u1") 10 trending_world l t
               trending_provider_in_range E H).
  - vm_compute in E. discriminate E.
Defined.

End DetectionWitness.

(** ** Orchestration: bounds of one run *)

Section RunBounds.

Lemma quiet_select_trend u kw : quiet (select_trend u kw).
Proof. unfold select_trend. quiet_auto. Qed.

Lemma quiet_update_trend id d t : quiet (update_trend id d t).
Proof.
  unfold update_trend. apply quiet_bind; [apply quiet_execute|].
  intros _ w. split; reflexivity.
Qed.

Lemma quiet_insert_trend u d t : quiet (insert_trend u d t).
Proof.
  unfold insert_trend. apply quiet_bind; [apply quiet_execute|].
  intros _ w. split; reflexivity.
Qed.

Lemma quiet_save_loop u t ts : forall n, quiet (save_loop u t ts n).
Proof.
  induction ts as [|d ts IH]; intros n; simpl; [quiet_auto|].
  apply quiet_bind; [|intro; apply IH].
  apply quiet_try; [|quiet_auto].
  apply quiet_bind; [apply quiet_select_trend|]. intros ex.
  apply quiet_bind; [|quiet_auto].
  destruct ex; [apply quiet_insert_trend | apply quiet_update_trend].
Qed.

Lemma quiet_save_trends u ts : quiet (save_trends u ts).
Proof.
  unfold save_trends. apply quiet_try; [|quiet_auto].
  destruct ts; [quiet_auto|].
  apply quiet_bind; [quiet_auto|]. intro. apply quiet_save_loop.
Qed.

Lemma quiet_parse_ids ids : quiet (parse_ids ids).
Proof.
  induction ids as [|i ids IH]; simpl; [quiet_auto|].
  apply quiet_bind; [apply quiet_UUID|]. intro.
  apply quiet_bind; [apply IH|]. quiet_auto.
Qed.

Lemma quiet_parse_loop rows : quiet (parse_loop rows).
Proof.
  induction rows as [|item rows IH]; simpl; [quiet_auto|].
  apply quiet_bind.
  - apply quiet_try; [|quiet_auto]. unfold parse_row.
    apply quiet_bind; [|quiet_auto].
    apply quiet_bind; [apply quiet_parse_ids|]. quiet_auto.
  - intro. apply quiet_bind; [apply IH|]. quiet_auto.
Qed.

Lemma quiet_get_top_trends u n : quiet (get_top_trends u n).
Proof.
  unfold get_top_trends. apply quiet_try; [|quiet_auto].
  apply quiet_bind; [quiet_auto|]. intro.
  apply quiet_bind; [unfold select_top; quiet_auto|]. intros rows.
  destruct rows; [quiet_auto|]. apply quiet_parse_loop.
Qed.

Lemma get_top_trends_length (w : World) (u : text) (limit : nat)
  (top : list TrendResponse) :
  fst (get_top_trends u limit w) = Ok top -> length top <= limit.
Proof.
  intros E. destruct (get_top_trends_run w u limit) as [E'|[_ E']];
    rewrite E' in E; injection E as <-; [simpl; lia|].
  rewrite length_map.
  pose proof (filter_length_le (parses w) (top_rows w u limit)).
  pose proof (top_rows_length w u limit). lia.
Qed.

Lemma detect_and_save_run (user_id : text) (w : World) :
  exists (s : Summary) (w' : World),
    detect_and_save_trends user_id w = (Ok s, w')
    /\ detected s <= 10
    /\ length (top_3 s) <= 3
    /\ provider_calls w' <= provider_calls w + 4
    /\ (detected s = 0 -> trends w' = trends w).
Proof.
  unfold detect_and_save_trends, try_except. unfold bind at 1.
  destruct (detect_trends_run user_id 10 w)
    as (l & w1 & E & L & _ & _ & _ & C & _).
  pose proof (stable_detect_trends user_id 10 w) as S1.
  rewrite E in *. cbn [snd] in S1.
  destruct l as [|d ds].
  { exists empty_summary, w1. split; [reflexivity|].
    cbn [detected top_3 empty_summary length].
    split; [lia|]. split; [lia|]. split; [exact C|]. intros _. exact S1. }
  unfold bind at 1.
  pose proof (quiet_save_trends user_id (d :: ds) w1) as [Q2 _].
  destruct (never_raises_save_trends user_id (d :: ds) w1) as (n & w2 & X2).
  rewrite X2 in *. cbn [snd] in Q2. unfold bind at 1.
  pose proof (quiet_get_top_trends user_id 3 w2) as [Q3 _].
  pose proof (@get_top_trends_length w2 user_id 3) as T3.
  destruct (never_raises_get_top_trends user_id 3 w2) as (top & w3 & X3).
  rewrite X3 in *. cbn [fst snd] in *.
  eexists. eexists. split; [reflexivity|].
  cbn [detected top_3]. rewrite length_map.
  split; [exact L|]. split; [apply T3; reflexivity|].
  split; [lia|]. simpl. discriminate.
Qed.

(** X18: one run of [detect_and_save_trends] reports at most 10 detected
    trends and at most 3 top trends, makes at most 4 calls to the
    provider, and leaves the trend store as it was when it detects
    nothing. *)
Theorem detect_and_save_bounds (user_id : text) (w : World) :
  exists s : Summary,
    fst (detect_and_save_trends user_id w) = Ok s
    /\ detected s <= 10
    /\ length (top_3 s) <= 3
    /\ provider_calls (snd (detect_and_save_trends user_id w))
       <= provider_calls w + 4
    /\ (detected s = 0 ->
        trends (snd (detect_and_save_trends user_id w)) = trends w).
Proof.
  destruct (detect_and_save_run user_id w) as (s & w' & E & H).
  exists s. rewrite E. split; [reflexivity | exact H].
Qed.

Lemma detect_and_save_bounds_witness :
  trends (snd (detect_and_save_trends (T "u1") unreachable_world)) = [].
Proof.
  destruct (detect_and_save_bounds (T "u1") unreachable_world)
    as (s & E & _ & _ & _ & Z).
  rewrite Z; [reflexivity|].
  vm_compute in E. injection E as <-. reflexivity.
Defined.

End RunBounds.

(** ** TrendStore: what an upsert does and does not touch *)

Section UpsertEffect.

Lemma execute_keeps (w w1 : World) (o : outcome unit) :
  execute w = (o, w1) ->
  trends w1 = trends w /\ next_id w1 = next_id w /\ now w1 = now w.
Proof.
  unfold execute. destruct (faults w) as [|[|] f]; intros E;
    injection E as <- <-; auto.
Qed.

Lemma select_found (u kw : text) (rows : list TrendRow) (e : TrendRow) es :
  filter (fun r => text_eqb (t_user_id r) u && text_eqb (t_keyword r) kw) rows
  = e :: es ->
  In e rows /\ key e = (u, kw).
Proof.
  intros F.
  assert (H : In e (filter (fun r => text_eqb (t_user_id r) u
                                     && text_eqb (t_keyword r) kw) rows))
    by (rewrite F; left; reflexivity).
  apply filter_In in H as [H C]. apply andb_prop in C as [C1 C2].
  apply text_eqb_eq in C1. apply text_eqb_eq in C2.
  split; [exact H|]. unfold key. rewrite C1, C2. reflexivity.
Qed.

(** One pass of the loop body, under any fault schedule. *)
Lemma upsert_cases (u : text) (d : Trend) (t : Z) (n : nat) (w : World) :
  upsert_effect u d t w
    (snd (try_except
            (existing <- select_trend u (keyword d) ;;
             _ <- match existing with
                  | e :: _ => update_trend (t_id e) d t
                  | [] => insert_trend u d t
                  end ;;
             ret (n + 1))
            (fun _ => ret n) w)).
Proof.
  unfold select_trend, update_trend, insert_trend, try_except, bind, get, ret.
  destruct (execute w) as [[[]|e] w1] eqn:X1;
    apply execute_keeps in X1 as (T1 & I1 & N1); cbv beta iota;
    [|left; cbn [snd]; split; assumption].
  destruct (filter _ (trends w1)) as [|e es] eqn:F.
  - destruct (execute w1) as [[[]|e] w2] eqn:X2;
      apply execute_keeps in X2 as (T2 & I2 & N2); cbv beta iota; cbn [snd];
      [|left; split; congruence].
    right. right. cbn [trends next_id set_trends].
    split; [rewrite <- T1; apply select_empty_absent; exact F|].
    split; [|congruence].
    unfold inserted_row. rewrite T2, T1, I2, I1, N2, N1. reflexivity.
  - apply select_found in F as [He Ke]. rewrite T1 in He.
    destruct (execute w1) as [[[]|e'] w2] eqn:X2;
      apply execute_keeps in X2 as (T2 & I2 & N2); cbv beta iota; cbn [snd];
      [|left; split; congruence].
    right. left. exists e. cbn [trends next_id set_trends].
    split; [exact He|]. split; [exact Ke|].
    split; [rewrite T2, T1; reflexivity | congruence].
Qed.

Lemma NoDup_map_inj {A B} (f : A -> B) (l : list A) (x y : A) :
  NoDup (map f l) -> In x l -> In y l -> f x = f y -> x = y.
Proof.
  induction l as [|a l IH]; intros N Hx Hy E; [destruct Hx|].
  simpl in N. inversion N as [|? ? N1 N2]; subst.
  destruct Hx as [->|Hx], Hy as [->|Hy]; try reflexivity.
  - exfalso. apply N1. rewrite E. apply in_map. exact Hy.
  - exfalso. apply N1. rewrite <- E. apply in_map. exact Hx.
  - exact (IH N2 Hx Hy E).
Qed.

Lemma update_ids (id : nat) (d : Trend) (t : Z) (rows : list TrendRow) :
  map t_id (map (fun r => if t_id r =? id then updated_row r d t else r) rows)
  = map t_id rows.
Proof.
  rewrite map_map. apply map_ext. intros r.
  destruct (t_id r =? id); reflexivity.
Qed.

(** Fresh ids stay fresh. *)
Lemma upsert_effect_fresh (u : text) (d : Trend) (t : Z) (w w' : World) :
  upsert_effect u d t w w' -> ids_fresh w -> ids_fresh w'.
Proof.
  unfold ids_fresh. intros [[T I]|[(e & _ & _ & T & I)|(_ & T & I)]] [N F];
    rewrite T, I.
  - split; assumption.
  - split; [rewrite update_ids; exact N|].
    apply Forall_forall. intros r Hr.
    apply in_map_iff in Hr as (r0 & <- & H0).
    pose proof (proj1 (Forall_forall _ _) F r0 H0) as L.
    destruct (t_id r0 =? t_id e); exact L.
  - split.
    + rewrite map_app. cbn [map inserted_row t_id].
      apply NoDup_app; [exact N | repeat constructor; intros [] |].
      intros i Hi [<-|[]]. apply in_map_iff in Hi as (r0 & E & H0).
      pose proof (proj1 (Forall_forall _ _) F r0 H0) as L.
      cbv beta in L. lia.
    + apply Forall_app. split.
      * apply Forall_impl with (2 := F). intros r L. cbv beta in *. lia.
      * constructor; [cbn [inserted_row t_id]; lia | constructor].
Qed.

(** The rows of the other owners stay as they are. *)
Lemma upsert_effect_others (u : text) (d : Trend) (t : Z) (w w' : World) :
  upsert_effect u d t w w' -> ids_fresh w ->
  rows_of_others u (trends w') = rows_of_others u (trends w).
Proof.
  unfold ids_fresh, rows_of_others.
  intros [[T I]|[(e & He & Ke & T & I)|(_ & T & I)]] [N F]; rewrite T.
  - reflexivity.
  - assert (G : forall rows,
               (forall r, In r rows -> In r (trends w)) ->
               filter (fun r => negb (text_eqb (t_user_id r) u))
                 (map (fun r => if t_id r =? t_id e
                                then updated_row r d t else r) rows)
               = filter (fun r => negb (text_eqb (t_user_id r) u)) rows).
    { induction rows as [|r rows IH]; intros Sub; [reflexivity|].
      cbn [map filter].
      rewrite IH by (intros; apply Sub; right; assumption).
      destruct (t_id r =? t_id e) eqn:Eid; [|reflexivity].
      apply Nat.eqb_eq in Eid.
      assert (R : r = e)
        by (apply (@NoDup_map_inj _ _ t_id (trends w));
            [exact N | apply Sub; left; reflexivity | exact He | exact Eid]).
      subst r. cbn [updated_row t_user_id].
      unfold key in Ke. injection Ke as Ku _. rewrite Ku, text_eqb_refl.
      reflexivity. }
    apply G. intros r H. exact H.
  - rewrite filter_app. cbn [filter inserted_row t_user_id].
    rewrite text_eqb_refl. cbn [negb]. apply app_nil_r.
Qed.

(** A row under another key stays in the store as it is. *)
Lemma upsert_effect_keeps (u : text) (d : Trend) (t : Z) (w w' : World)
  (r : TrendRow) :
  upsert_effect u d t w w' -> ids_fresh w ->
  In r (trends w) -> key r <> (u, keyword d) -> In r (trends w').
Proof.
  unfold ids_fresh.
  intros [[T I]|[(e & He & Ke & T & I)|(_ & T & I)]] [N F] Hr Kr; rewrite T.
  - exact Hr.
  - apply in_map_iff. exists r. split; [|exact Hr].
    destruct (t_id r =? t_id e) eqn:Eid; [|reflexivity].
    apply Nat.eqb_eq in Eid.
    assert (R : r = e)
      by (apply (@NoDup_map_inj _ _ t_id (trends w)); assumption).
    subst r. contradiction.
  - apply in_or_app. left. exact Hr.
Qed.

Lemma save_loop_effect (P : World -> Prop) (u : text) (t : Z)
  (ts : list Trend) :
  (forall d w w', upsert_effect u d t w w' -> P w -> P w') ->
  forall n w, P w -> P (snd (save_loop u t ts n w)).
Proof.
  intros Step. induction ts as [|d ts IH]; intros n w H; [exact H|].
  cbn [save_loop]. unfold bind at 1.
  pose proof (@upsert_cases u d t n w) as U.
  destruct (try_except _ _ w) as [[n'|e] w1]; cbn [snd] in U |- *.
  - apply IH. exact (Step d w w1 U H).
  - exact (Step d w w1 U H).
Qed.

Lemma save_trends_effect (P : World -> Prop) (u : text) (ts : list Trend)
  (w : World) :
  (forall d t w w', upsert_effect u d t w w' -> P w -> P w') ->
  P w -> P (snd (save_trends u ts w)).
Proof.
  intros Step H. unfold save_trends, try_except.
  destruct ts as [|d ts]; [exact H|].
  unfold bind at 1, get.
  pose proof (@save_loop_effect P u (now w) (d :: ts)
                (fun d0 => Step d0 (now w))) as L.
  specialize (L 0 w H).
  destruct (save_loop u (now w) (d :: ts) 0 w) as [[n|e] w1]; exact L.
Qed.

End UpsertEffect.

Section SaveRoundTrip.

Lemma execute_reliable (w : World) : faults w = [] -> execute w = (Ok tt, w).
Proof. intros F. unfold execute. rewrite F. reflexivity. Qed.

(** One pass of the loop body on a store that does not fail. *)
Lemma upsert_reliable (u : text) (d : Trend) (t : Z) (n : nat) (w : World) :
  faults w = [] ->
  exists w',
    try_except
      (existing <- select_trend u (keyword d) ;;
       _ <- match existing with
            | e :: _ => update_trend (t_id e) d t
            | [] => insert_trend u d t
            end ;;
       ret (n + 1))
      (fun _ => ret n) w
    = (Ok (n + 1), w')
    /\ faults w' = []
    /\ exists r, In r (trends w') /\ stored_as u t d r.
Proof.
  intros F.
  unfold select_trend, update_trend, insert_trend, try_except, bind, get, ret.
  rewrite (execute_reliable w F). cbv beta iota.
  destruct (filter _ (trends w)) as [|e es] eqn:S.
  - rewrite (execute_reliable w F). cbv beta iota.
    eexists. split; [reflexivity|]. split; [exact F|].
    eexists. split; [cbn [trends set_trends]; apply in_or_app; right; left;
                     reflexivity|].
    unfold stored_as. cbn. repeat split; reflexivity.
  - rewrite (execute_reliable w F). cbv beta iota.
    apply select_found in S as [He Ke].
    eexists. split; [reflexivity|]. split; [exact F|].
    exists (updated_row e d t). split.
    + cbn [trends set_trends]. apply in_map_iff. exists e.
      rewrite Nat.eqb_refl. split; [reflexivity | exact He].
    + unfold key in Ke. injection Ke as Ku Kk.
      unfold stored_as. cbn. repeat split; try reflexivity; assumption.
Qed.

Lemma save_loop_reliable (u : text) (t : Z) (ts : list Trend) :
  forall n w,
    faults w = [] -> ids_fresh w -> NoDup (map keyword ts) ->
    exists w',
      save_loop u t ts n w = (Ok (n + length ts), w')
      /\ (forall r, In r (trends w) ->
            (forall d, In d ts -> key r <> (u, keyword d)) ->
            In r (trends w'))
      /\ (forall d, In d ts -> exists r, In r (trends w') /\ stored_as u t d r).
Proof.
  induction ts as [|d0 ts IH]; intros n w F I N.
  - exists w. split; [cbn [save_loop length]; rewrite Nat.add_0_r; reflexivity|].
    split; [intros r H _; exact H | intros d []].
  - cbn [save_loop]. unfold bind at 1.
    pose proof (@upsert_cases u d0 t n w) as U.
    destruct (@upsert_reliable u d0 t n w F) as (w1 & E & F1 & r0 & H0 & S0).
    rewrite E in *. cbn [snd] in U.
    inversion N as [|? ? N1 N2]; subst.
    destruct (IH (n + 1) w1 F1 (@upsert_effect_fresh u d0 t w w1 U I) N2)
      as (w' & E' & Keep & St).
    exists w'. split.
    { rewrite E'. cbn [length].
      replace (n + 1 + length ts) with (n + S (length ts)) by lia.
      reflexivity. }
    split.
    + intros r Hr Kr. apply Keep.
      * apply (@upsert_effect_keeps u d0 t w w1 r U I Hr).
        apply Kr. left. reflexivity.
      * intros d Hd. apply Kr. right. exact Hd.
    + intros d [<-|Hd]; [|exact (St d Hd)].
      exists r0. split; [|exact S0]. apply Keep; [exact H0|].
      intros d' Hd' K. apply N1.
      destruct S0 as (Su & Sk & _). unfold key in K. rewrite Su, Sk in K.
      injection K as K. rewrite K. apply in_map. exact Hd'.
Qed.

(** X19: on a store that does not fail and whose row ids are distinct,
    [save_trends] of trends with distinct keywords reports all of them as
    saved, and afterwards the store holds for each of them a row of the
    owner with its keyword, score, Google Trends score, mentions,
    velocity and content ids, detected now. *)
Theorem save_trends_round_trip (user_id : text) (ts : list Trend) (w : World) :
  faults w = [] -> ids_fresh w -> NoDup (map keyword ts) ->
  fst (save_trends user_id ts w) = Ok (length ts)
  /\ forall d, In d ts ->
       exists r, In r (trends (snd (save_trends user_id ts w)))
                 /\ stored_as user_id (now w) d r.
Proof.
  intros F I N. unfold save_trends, try_except.
  destruct ts as [|d0 ts]; [split; [reflexivity | intros d []]|].
  unfold bind at 1, get. unfold bind at 1.
  destruct (@save_loop_reliable user_id (now w) (d0 :: ts) 0 w F I N)
    as (w' & E & _ & St).
  rewrite E. split; [reflexivity | exact St].
Qed.

(** X20: on a store whose row ids are distinct, [save_trends] for one
    owner leaves the rows of every other owner exactly as they were,
    whichever store calls fail, and the row ids stay distinct. *)
Theorem save_trends_isolated (user_id : text) (ts : list Trend) (w : World) :
  ids_fresh w ->
  rows_of_others user_id (trends (snd (save_trends user_id ts w)))
  = rows_of_others user_id (trends w)
  /\ ids_fresh (snd (save_trends user_id ts w)).
Proof.
  intros I.
  apply (@save_trends_effect
           (fun w' => rows_of_others user_id (trends w')
                      = rows_of_others user_id (trends w)
                      /\ ids_fresh w')).
  - intros d t w1 w2 U [E I1]. split.
    + rewrite (@upsert_effect_others user_id d t w1 w2 U I1). exact E.
    + exact (@upsert_effect_fresh user_id d t w1 w2 U I1).
  - split; [reflexivity | exact I].
Qed.

End SaveRoundTrip.

Section SaveWitnesses.

Lemma save_trends_round_trip_witness :
  fst (save_trends (T "u1") two_trends demo_world) = Ok 2
  /\ exists r, In r (trends (snd (save_trends (T "u1") two_trends demo_world)))
               /\ t_keyword r = T "crypto" /\ t_score r = 45%Q.
Proof.
  destruct (@save_trends_round_trip (T "u1") two_trends demo_world)
    as [E St].
  - reflexivity.
  - split; constructor.
  - repeat constructor; simpl; intuition discriminate.
  - split; [exact E|].
    destruct (St (nth 1 two_trends (hd (nth 0 two_trends
                {| keyword := []; score := 0; google_trends_score := 0;
                   content_mentions := 0; velocity := 0;
                   related_content_ids := [] |}) two_trends)))
      as (r & Hr & S); [right; left; reflexivity|].
    exists r. split; [exact Hr|].
    destruct S as (_ & K & Sc & _). split; [exact K | exact Sc].
Defined.

Lemma ranking_world_fresh : ids_fresh ranking_world.
Proof.
  split.
  - repeat constructor; simpl; intuition discriminate.
  - repeat constructor; simpl; lia.
Qed.

Lemma save_trends_isolated_witness :
  rows_of_others (T "u2")
    (trends (snd (save_trends (T "u2") two_trends ranking_world)))
  = trends ranking_world.
Proof.
  destruct (@save_trends_isolated (T "u2") two_trends ranking_world
              ranking_world_fresh) as [E _].
  rewrite E. reflexivity.
Defined.

End SaveWitnesses.

(** ** Deleting a trend *)

Section Delete.

Lemma filter_keys_NoDup (p : TrendRow -> bool) (rows : list TrendRow) :
  unique_keys rows -> unique_keys (filter p rows).
Proof.
  unfold unique_keys. induction rows as [|r rows IH]; intros N; [constructor|].
  simpl in N. inversion N as [|? ? N1 N2]; subst. simpl.
  destruct (p r); [|exact (IH N2)].
  simpl. constructor; [|exact (IH N2)].
  intros H. apply N1. apply in_map_iff in H as (r' & E & H').
  apply filter_In in H' as [H' _]. apply in_map_iff. exists r'. auto.
Qed.

Lemma others_not_targeted (u : text) (id : nat) (rows : list TrendRow) :
  rows_of_others u (filter (fun r => negb (targets u id r)) rows)
  = rows_of_others u rows.
Proof.
  unfold rows_of_others, targets.
  induction rows as [|r rows IH]; [reflexivity|]. simpl.
  destruct (text_eqb (t_user_id r) u) eqn:E; simpl.
  - destruct (t_id r =? id); simpl; rewrite ?E; simpl; exact IH.
  - rewrite E. simpl. rewrite IH. reflexivity.
Qed.

(** X21: [delete_trend] removes exactly the rows of that owner with that
    id: it answers 404 and leaves the store as it was when there is none,
    500 with the store as it was when the store call fails, and in every
    case the rows of the other owners and the one-record-per-keyword
    invariant are kept. *)
Theorem delete_trend_spec (user_id : text) (trend_id : nat) (w : World) :
  rows_of_others user_id (trends (snd (delete_trend user_id trend_id w)))
  = rows_of_others user_id (trends w)
  /\ (unique_keys (trends w) ->
      unique_keys (trends (snd (delete_trend user_id trend_id w))))
  /\ (fst (delete_trend user_id trend_id w) = Replied tt ->
      hd false (faults w) = false
      /\ trends (snd (delete_trend user_id trend_id w))
         = filter (fun r => negb (targets user_id trend_id r)) (trends w)
      /\ exists r, In r (trends w) /\ targets user_id trend_id r = true)
  /\ (fst (delete_trend user_id trend_id w) <> Replied tt ->
      trends (snd (delete_trend user_id trend_id w)) = trends w)
  /\ (hd false (faults w) = false ->
      filter (targets user_id trend_id) (trends w) = [] ->
      fst (delete_trend user_id trend_id w) = HttpError 404)
  /\ (hd false (faults w) = true ->
      fst (delete_trend user_id trend_id w) = HttpError 500).
Proof.
  unfold delete_trend.
  destruct (execute w) as [[[]|e] w1] eqn:X.
  - assert (F : hd false (faults w) = false).
    { unfold execute in X. destruct (faults w) as [|[|] f];
        [reflexivity | discriminate | reflexivity]. }
    apply execute_keeps in X as (T1 & _ & _). rewrite T1.
    destruct (filter (targets user_id trend_id) (trends w)) as [|r rs] eqn:D;
      cbn [fst snd trends set_trends].
    + rewrite T1. split; [reflexivity|]. split; [intros U; exact U|].
      split; [discriminate|]. split; [reflexivity|].
      split; [reflexivity | rewrite F; discriminate].
    + split; [apply others_not_targeted|].
      split; [apply filter_keys_NoDup|].
      split.
      { intros _. split; [exact F|]. split; [reflexivity|].
        exists r.
        assert (H : In r (filter (targets user_id trend_id) (trends w)))
          by (rewrite D; left; reflexivity).
        apply filter_In in H. exact H. }
      split; [congruence|]. split; [discriminate | rewrite F; discriminate].
  - assert (F : hd false (faults w) = true).
    { unfold execute in X. destruct (faults w) as [|[|] f];
        [discriminate | reflexivity | discriminate]. }
    apply execute_keeps in X as (T1 & _ & _). cbn [fst snd]. rewrite T1.
    split; [reflexivity|]. split; [intros U; exact U|].
    split; [discriminate|]. split; [reflexivity|].
    split; [rewrite F; discriminate | reflexivity].
Qed.

Lemma delete_trend_spec_witness :
  fst (delete_trend (T "u1") 0 ranking_world) = Replied tt
  /\ map t_id (trends (snd (delete_trend (T "u1") 0 ranking_world))) = [1]
  /\ fst (delete_trend (T "u2") 0 ranking_world) = HttpError 404.
Proof.
  destruct (delete_trend_spec (T "u1") 0 ranking_world)
    as (_ & _ & D & _ & _ & _).
  destruct (delete_trend_spec (T "u2") 0 ranking_world)
    as (_ & _ & _ & _ & N & _).
  assert (R : fst (delete_trend (T "u1") 0 ranking_world) = Replied tt)
    by reflexivity.
  destruct (D R) as (_ & E & _).
  split; [exact R|]. split; [rewrite E; reflexivity|].
  apply N; reflexivity.
Defined.

End Delete.

(** ** Statistics of an owner's trends *)

Section Statistics.

Local Open Scope Q_scope.

Lemma Qsum_bounds (lo hi : Q) (l : list Q) :
  Forall (fun x => lo <= x /\ x <= hi) l ->
  lo * inject_Z (Z.of_nat (length l)) <= Qsum l
  /\ Qsum l <= hi * inject_Z (Z.of_nat (length l)).
Proof.
  induction 1 as [|x l [L H] F IH].
  - cbn [length Qsum fold_right Z.of_nat]. change (inject_Z 0) with 0.
    split; lra.
  - cbn [length Qsum fold_right]. fold (Qsum l).
    rewrite Nat2Z.inj_succ. unfold Z.succ. rewrite inject_Z_plus.
    change (inject_Z 1) with 1. rewrite !Qmult_plus_distr_r.
    destruct IH. split; lra.
Qed.

Lemma mean_bounds (lo hi : Q) (x : Q) (l : list Q) :
  Forall (fun x => lo <= x /\ x <= hi) (x :: l) ->
  lo <= Qsum (x :: l) / inject_Z (Z.of_nat (length (x :: l)))
  /\ Qsum (x :: l) / inject_Z (Z.of_nat (length (x :: l))) <= hi.
Proof.
  intros F. destruct (Qsum_bounds F) as [L H].
  assert (P : 0 < inject_Z (Z.of_nat (length (x :: l)))).
  { change 0 with (inject_Z 0). rewrite <- Zlt_Qlt. simpl length. lia. }
  split.
  - apply Qle_shift_div_l; assumption.
  - apply Qle_shift_div_r; assumption.
Qed.

Lemma owner_keywords_NoDup (u : text) (rows : list TrendRow) :
  Forall (fun r => t_user_id r = u) rows ->
  unique_keys rows -> NoDup (map t_keyword rows).
Proof.
  unfold unique_keys. induction 1 as [|r rows E F IH]; intros N;
    [constructor|].
  simpl in N |- *. inversion N as [|? ? N1 N2]; subst.
  constructor; [|exact (IH N2)].
  intros H. apply N1. apply in_map_iff in H as (r' & K & H').
  apply in_map_iff. exists r'. split; [|exact H'].
  rewrite Forall_forall in F. unfold key. rewrite K, (F r' H'). reflexivity.
Qed.

Lemma get_trend_stats_run (user_id : text) (w : World) :
  exists (s : Stats) (w' : World),
    get_trend_stats user_id w = (Ok s, w')
    /\ trends w' = trends w
    /\ (hd false (faults w) = true -> s = empty_stats)
    /\ exists active : list TrendRow,
         (forall r, In r active ->
            In r (trends w) /\ t_user_id r = user_id
            /\ (now w - days 7 <= t_detected_at r)%Z)
         /\ (unique_keys (trends w) -> NoDup (map t_keyword active))
         /\ (active_trends s <= total_trends s <= length (trends w))%nat
         /\ active_trends s = length active
         /\ top_keywords s = map t_keyword (firstn 5 active)
         /\ StronglySorted row_ge active
         /\ ((exists r, In r (trends w) /\ t_user_id r = user_id) ->
             hd false (faults w) = false ->
             total_trends s
             = length (filter (fun r => text_eqb (t_user_id r) user_id)
                              (trends w))
             /\ forall r, In r (trends w) -> t_user_id r = user_id ->
                  (now w - days 7 <= t_detected_at r)%Z -> In r active)
         /\ (Forall (fun r => 0 <= t_score r /\ t_score r <= 100) (trends w) ->
             0 <= avg_score s /\ avg_score s <= 100).
Proof.
  assert (Z0 : round2 0 = 0) by reflexivity.
  assert (Empty : forall w', trends w' = trends w ->
            exists active : list TrendRow,
         (forall r, In r active ->
            In r (trends w) /\ t_user_id r = user_id
            /\ (now w - days 7 <= t_detected_at r)%Z)
         /\ (unique_keys (trends w) -> NoDup (map t_keyword active))
         /\ (active_trends empty_stats <= total_trends empty_stats
             <= length (trends w))%nat
         /\ active_trends empty_stats = length active
         /\ top_keywords empty_stats = map t_keyword (firstn 5 active)
         /\ StronglySorted row_ge active).
  { intros w' _. exists []. cbn.
    split; [intros r []|]. split; [intros _; constructor|].
    split; [lia|]. split; [reflexivity|]. split; [reflexivity | constructor]. }
  unfold get_trend_stats, try_except. unfold bind at 1.
  destruct (execute w) as [[[]|e] w1] eqn:X.
  2:{ destruct (@execute_keeps _ _ _ X) as (T1 & _ & _).
      exists empty_stats, w1. split; [reflexivity|]. split; [exact T1|].
      split; [reflexivity|].
      destruct (Empty w1 T1) as (a & A1 & A2 & A3 & A4 & A5 & A6).
      exists a. repeat (split; [assumption|]). split.
      - intros _ F. exfalso. unfold execute in X.
        destruct (faults w) as [|[|] f]; simpl in F; discriminate.
      - intros _. cbn. split; lra. }
  assert (F0 : hd false (faults w) = false).
  { unfold execute in X. destruct (faults w) as [|[|] f];
      [reflexivity | discriminate | reflexivity]. }
  destruct (@execute_keeps _ _ _ X) as (T1 & _ & N1).
  unfold bind at 1, get. rewrite T1.
  remember (filter (fun r => text_eqb (t_user_id r) user_id) (trends w))
    as data eqn:D.
  destruct data as [|r0 rs].
  { exists empty_stats, w1. split; [reflexivity|]. split; [exact T1|].
    split; [reflexivity|].
    destruct (Empty w1 T1) as (a & A1 & A2 & A3 & A4 & A5 & A6).
    exists a. repeat (split; [assumption|]). split.
    - intros (r & Hr & Er) _. exfalso.
      assert (H : In r []); [|exact H].
      rewrite D. apply filter_In. split; [exact Hr|].
      apply text_eqb_eq. exact Er.
    - intros _. cbn. split; lra. }
  unfold bind, ret. rewrite N1. rewrite D.
  set (data := filter (fun r => text_eqb (t_user_id r) user_id) (trends w)).
  set (active := filter (fun r => (now w - days 7 <=? t_detected_at r)%Z)
                   data).
  eexists. exists w1. split; [reflexivity|]. split; [exact T1|].
  split; [rewrite F0; discriminate|].
  exists (sort_by row_score_lt active).
  cbn [total_trends active_trends avg_score top_keywords].
  assert (InA : forall r, In r (sort_by row_score_lt active) <->
            In r (trends w) /\ t_user_id r = user_id
            /\ (now w - days 7 <= t_detected_at r)%Z).
  { intros r. rewrite In_sort_by. unfold active, data. rewrite !filter_In.
    rewrite text_eqb_eq, Z.leb_le. tauto. }
  assert (LA : length (sort_by row_score_lt active) = length active)
    by apply length_sort_by.
  split; [intros r Hr; apply InA; exact Hr|].
  split.
  { intros U.
    assert (N : NoDup (map t_keyword active)).
    { apply (@owner_keywords_NoDup user_id).
      - apply Forall_forall. intros r Hr. unfold active, data in Hr.
        rewrite !filter_In in Hr. apply text_eqb_eq. tauto.
      - unfold active, data. apply filter_keys_NoDup, filter_keys_NoDup.
        exact U. }
    eapply Permutation_NoDup; [|exact N].
    apply Permutation_map. apply Permutation_sym. apply sort_by_perm. }
  split.
  { split; [apply filter_length_le | apply filter_length_le]. }
  split; [symmetry; exact LA|]. split; [reflexivity|].
  split; [apply sort_rows_sorted|].
  split.
  { intros _ _. split; [reflexivity|].
    intros r H1 H2 H3. apply InA. auto. }
  intros F.
  assert (FA : Forall (fun x => 0 <= x /\ x <= 100) (map t_score active)).
  { apply Forall_forall. intros x Hx.
    apply in_map_iff in Hx as (r & <- & Hr).
    rewrite Forall_forall in F. apply F.
    unfold active, data in Hr. rewrite !filter_In in Hr. tauto. }
  destruct (map t_score active) as [|x xs].
  { rewrite Z0. split; lra. }
  destruct (mean_bounds FA) as [L H].
  split.
  - rewrite <- Z0. apply round2_mono. exact L.
  - assert (C : round2 100 = 100) by reflexivity.
    rewrite <- C. apply round2_mono. exact H.
Qed.

(** X22: [get_trend_stats] never raises and never writes.  It counts at
    most as many active trends as trends, names at most five keywords, all
    of them keywords of trends of that owner detected in the trailing seven
    days and listed by decreasing score, pairwise distinct when the store
    holds one record per (owner, keyword); when the store call fails the
    statistics are the empty ones, and when every stored score lies in
    [0, 100] so does the average. *)
Theorem get_trend_stats_spec (user_id : text) (w : World) :
  exists s : Stats,
    fst (get_trend_stats user_id w) = Ok s
    /\ trends (snd (get_trend_stats user_id w)) = trends w
    /\ (active_trends s <= total_trends s <= length (trends w))%nat
    /\ (length (top_keywords s) <= 5)%nat
    /\ (length (top_keywords s) <= active_trends s)%nat
    /\ (exists top : list TrendRow,
          top_keywords s = map t_keyword top
          /\ StronglySorted row_ge top
          /\ forall r, In r top ->
               In r (trends w) /\ t_user_id r = user_id
               /\ (now w - days 7 <= t_detected_at r)%Z)
    /\ (unique_keys (trends w) -> NoDup (top_keywords s))
    /\ (hd false (faults w) = true -> s = empty_stats)
    /\ (Forall (fun r => 0 <= t_score r /\ t_score r <= 100) (trends w) ->
        0 <= avg_score s /\ avg_score s <= 100).
Proof.
  destruct (get_trend_stats_run user_id w)
    as (s & w' & E & T1 & F & active & A1 & A2 & A3 & A4 & A5 & A6 & A7 & A8).
  exists s. rewrite E. cbn [fst snd].
  split; [reflexivity|]. split; [exact T1|]. split; [exact A3|].
  assert (L5 : (length (top_keywords s) <= 5)%nat).
  { rewrite A5, length_map, length_firstn. lia. }
  split; [exact L5|].
  split.
  { rewrite A5, length_map, length_firstn. lia. }
  split.
  { exists (firstn 5 active). split; [exact A5|].
    split; [apply firstn_sorted; exact A6|].
    intros r Hr. apply A1. apply In_firstn in Hr. exact Hr. }
  split.
  { intros U. rewrite A5, <- firstn_map. apply firstn_NoDup. exact (A2 U). }
  split; [exact F | exact A8].
Qed.

End Statistics.

Section StatisticsWitness.

Local Open Scope Q_scope.

Lemma get_trend_stats_spec_witness :
  exists s : Stats,
    fst (get_trend_stats (T "u1") ranking_world) = Ok s
    /\ NoDup (top_keywords s)
    /\ 0 <= avg_score s /\ avg_score s <= 100.
Proof.
  destruct (get_trend_stats_spec (T "u1") ranking_world)
    as (s & E & _ & _ & _ & _ & _ & U & _ & A).
  exists s. split; [exact E|]. split.
  - apply U. repeat constructor; simpl; intuition discriminate.
  - apply A. repeat constructor; simpl; lra.
Defined.

End StatisticsWitness.

(** ** Listing an owner's trends page by page *)

Section Pagination.

Lemma skipn_sorted {A} (R : A -> A -> Prop) (n : nat) (l : list A) :
  StronglySorted R l -> StronglySorted R (skipn n l).
Proof.
  revert l. induction n as [|n IH]; intros l S; [exact S|].
  destruct l as [|x l]; [constructor|]. simpl. apply IH.
  inversion S; assumption.
Qed.

Lemma validate_rows_run (rows : list TrendRow) (w : World) :
  validate_rows rows w
  = (if forallb (parses w) rows then Ok (map response_of rows)
     else Raised ValueError, w).
Proof.
  induction rows as [|row rows IH]; [reflexivity|].
  cbn [validate_rows forallb map]. unfold bind at 1.
  rewrite parse_row_run. destruct (parses w row); [|reflexivity].
  unfold bind. rewrite IH. cbn [andb].
  destruct (forallb (parses w) rows); reflexivity.
Qed.

Lemma get_trends_run (user_id : text) (pg size : nat) (w : World) :
  hd false (faults w) = false ->
  get_trends user_id pg size w
  = (if forallb (parses w) (page_rows w user_id pg size)
     then Replied {| items := map response_of (page_rows w user_id pg size);
                     total := length (listed_rows w user_id);
                     page := pg; page_size := size;
                     pages := page_count (length (listed_rows w user_id))
                                size |}
     else HttpError 500,
     set_faults w (tl (faults w))).
Proof.
  intros F. unfold get_trends. unfold bind at 1, get. unfold bind at 1.
  rewrite (execute_ok w F). unfold bind at 1. unfold bind at 1.
  rewrite validate_rows_run.
  change (matching_rows (now w) user_id
            (trends (set_faults w (tl (faults w)))))
    with (listed_rows w user_id).
  change (firstn size (skipn ((pg - 1) * size) (listed_rows w user_id)))
    with (page_rows w user_id pg size).
  change (parses (set_faults w (tl (faults w)))) with (parses w).
  destruct (forallb (parses w) (page_rows w user_id pg size)); reflexivity.
Qed.

Lemma stable_validate_rows (rows : list TrendRow) :
  stable (validate_rows rows).
Proof.
  induction rows as [|r l IH]; [apply stable_ret|].
  cbn [validate_rows]. apply stable_bind.
  - unfold parse_row. apply stable_bind; [apply stable_parse_ids|].
    intro. apply stable_ret.
  - intro. apply stable_bind; [exact IH|]. intro. apply stable_ret.
Qed.

Lemma get_trends_stable (user_id : text) (pg size : nat) (w : World) :
  trends (snd (get_trends user_id pg size w)) = trends w.
Proof.
  unfold get_trends.
  match goal with
  | |- context [match ?m w with _ => _ end] =>
      assert (S : stable m);
        [|specialize (S w); destruct (m w) as [[[f c]|e] w1]; exact S]
  end.
  apply stable_bind; [apply stable_get|]. intro.
  apply stable_bind; [apply stable_execute|]. intro.
  apply stable_bind; [apply stable_get|]. intro.
  apply stable_bind; [apply stable_validate_rows|]. intro.
  apply stable_ret.
Qed.

Lemma page_count_bounds (n size : nat) :
  1 <= size ->
  n <= page_count n size * size /\ page_count n size * size < n + size.
Proof.
  intros L. unfold page_count.
  pose proof (Nat.div_mod_eq (n + size - 1) size) as E.
  pose proof (Nat.mod_upper_bound (n + size - 1) size) as B.
  nia.
Qed.

Lemma chunks_prefix {A} (size : nat) (l : list A) (n : nat) :
  concat (map (fun k => firstn size (skipn (k * size) l)) (seq 0 n))
  = firstn (n * size) l.
Proof.
  induction n as [|n IH]; [reflexivity|].
  rewrite seq_S, map_app, concat_app, IH. cbn [map concat Nat.add].
  rewrite app_nil_r, <- firstn_plus. f_equal. lia.
Qed.

Lemma page_rows_listed (w : World) (user_id : text) (pg size : nat)
  (r : TrendRow) :
  In r (page_rows w user_id pg size) -> In r (listed_rows w user_id).
Proof.
  unfold page_rows. intros H. apply In_firstn in H.
  apply (@In_skipn_le _ r 0 ((pg - 1) * size)); [apply Nat.le_0_l | exact H].
Qed.

Lemma listed_rows_spec (w : World) (user_id : text) (r : TrendRow) :
  In r (listed_rows w user_id)
  <-> In r (trends w) /\ t_user_id r = user_id
      /\ (now w - days 30 <= t_detected_at r)%Z.
Proof.
  unfold listed_rows, matching_rows. rewrite In_sort_by, filter_In.
  rewrite andb_true_iff, text_eqb_eq, Z.leb_le. tauto.
Qed.

Lemma page_rows_length (w : World) (user_id : text) (pg size : nat) :
  length (page_rows w user_id pg size)
  = Nat.min size (length (listed_rows w user_id) - (pg - 1) * size).
Proof. unfold page_rows. rewrite length_firstn, length_skipn. reflexivity. Qed.

(** X23: on a store that answers, a page of [get_trends] that starts
    inside the listing and whose rows validate holds the rows of that page
    of the owner's trends of the trailing thirty days by decreasing score:
    at most [page_size] of them, exactly [page_size] before the last page;
    [total] counts the whole listing and [pages] is [total / page_size]
    rounded up. *)
Theorem get_trends_page (user_id : text) (pg size : nat) (w : World) :
  hd false (faults w) = false ->
  1 <= size ->
  page_in_range pg size (length (listed_rows w user_id)) ->
  forallb (parses w) (page_rows w user_id pg size) = true ->
  exists tl : TrendList,
    fst (get_trends user_id pg size w) = Replied tl
    /\ items tl = map response_of (page_rows w user_id pg size)
    /\ (forall r, In r (page_rows w user_id pg size) ->
          In r (trends w) /\ t_user_id r = user_id
          /\ (now w - days 30 <= t_detected_at r)%Z)
    /\ StronglySorted response_ge (items tl)
    /\ length (items tl) <= size
    /\ (pg < pages tl -> length (items tl) = size)
    /\ total tl = length (listed_rows w user_id)
    /\ total tl <= pages tl * size < total tl + size
    /\ (total tl = 0 \/ pg <= pages tl).
Proof.
  intros F L R P. rewrite (get_trends_run user_id pg size w F), P.
  eexists. split; [reflexivity|]. cbn [fst items total pages].
  pose proof (page_count_bounds (length (listed_rows w user_id)) L) as B.
  pose proof (page_rows_length w user_id pg size) as Len.
  split; [reflexivity|].
  split; [intros r Hr; apply listed_rows_spec;
          exact (page_rows_listed _ _ _ _ _ Hr)|].
  split.
  { apply map_response_sorted. unfold page_rows.
    apply firstn_sorted, skipn_sorted. apply sort_rows_sorted. }
  rewrite length_map, Len.
  set (n := length (listed_rows w user_id)) in *.
  set (pc := page_count n size) in *.
  assert (R1 : 1 <= pg) by (destruct R as [->|[R1 _]]; lia).
  destruct pg as [|k]; [lia|].
  cbn [Nat.sub] in *. rewrite Nat.sub_0_r in *.
  split; [lia|]. split.
  { intros Lt.
    assert (H : (S k + 1) * size <= pc * size)
      by (apply Nat.mul_le_mono_r; lia).
    lia. }
  split; [reflexivity|]. split; [exact B|].
  destruct n as [|n]; [left; reflexivity|]. right.
  destruct R as [R|[_ R2]].
  - injection R as ->. destruct pc; [simpl in B|]; lia.
  - destruct (Nat.le_gt_cases (S k) pc) as [H|H]; [exact H|]. exfalso.
    assert (H' : pc * size <= k * size)
      by (apply Nat.mul_le_mono_r; lia).
    lia.
Qed.

Lemma get_trends_page_witness :
  exists tl : TrendList,
    fst (get_trends (T "u1") 2 1 ranking_world) = Replied tl
    /\ map r_keyword (items tl) = [T "crypto"]
    /\ total tl = 2.
Proof.
  destruct (@get_trends_page (T "u1") 2 1 ranking_world)
    as (tl & E & I & _ & _ & _ & _ & Tt & _).
  - reflexivity.
  - lia.
  - right. vm_compute. lia.
  - reflexivity.
  - exists tl. split; [exact E|]. rewrite I, Tt. split; reflexivity.
Defined.

Lemma listed_rows_perm (w : World) (user_id : text) :
  Permutation (listed_rows w user_id)
              (filter (in_listing w user_id) (trends w)).
Proof. unfold listed_rows, matching_rows. apply sort_by_perm. Qed.

(** Rows without a tie of scores have one order by decreasing score. *)
Lemma sorted_perm_unique (l1 : list TrendRow) :
  forall l2 : list TrendRow,
    distinct_scores l1 -> Permutation l1 l2 ->
    StronglySorted row_ge l1 -> StronglySorted row_ge l2 -> l1 = l2.
Proof.
  induction l1 as [|a l1 IH]; intros l2 D P S1 S2.
  - apply Permutation_nil in P. symmetry. exact P.
  - destruct l2 as [|b l2];
      [apply Permutation_sym, Permutation_nil in P; discriminate P|].
    inversion S1 as [|? ? S1' F1]; subst.
    inversion S2 as [|? ? S2' F2]; subst.
    rewrite Forall_forall in F1, F2.
    assert (Hb : In b (a :: l1))
      by (apply (Permutation_in b (Permutation_sym P)); left; reflexivity).
    assert (Ha : In a (b :: l2))
      by (apply (Permutation_in a P); left; reflexivity).
    assert (E : a = b).
    { destruct Hb as [Hb|Hb]; [exact Hb|].
      destruct Ha as [Ha|Ha]; [symmetry; exact Ha|].
      apply D; [left; reflexivity | right; exact Hb|].
      specialize (F1 b Hb). specialize (F2 a Ha). unfold row_ge in F1, F2.
      apply Qle_antisym; assumption. }
    subst b. f_equal. apply IH; [| |exact S1'|exact S2'].
    + intros x y Hx Hy. apply D; right; assumption.
    + exact (Permutation_cons_inv P).
Qed.

(** X24: on a store that answers, whose listed rows all validate and in
    which no two listed rows have the same score, the store has one way to
    order the listing by decreasing score, and the pages 1 .. [pages] of
    [get_trends], one after the other, are that listing: no record is lost
    or shown twice between pages. *)
Theorem get_trends_pages_partition (user_id : text) (size : nat) (w : World) :
  hd false (faults w) = false ->
  1 <= size ->
  forallb (parses w) (listed_rows w user_id) = true ->
  distinct_scores (filter (in_listing w user_id) (trends w)) ->
  (forall answer : list TrendRow,
     Permutation answer (filter (in_listing w user_id) (trends w)) ->
     StronglySorted row_ge answer ->
     answer = listed_rows w user_id)
  /\ concat (map (fun pg => items_of (fst (get_trends user_id pg size w)))
               (seq 1 (page_count (length (listed_rows w user_id)) size)))
     = map response_of (listed_rows w user_id).
Proof.
  intros F L P D. split.
  { intros answer Pa Sa. apply sorted_perm_unique.
    - intros a b Ha Hb. apply D; apply (Permutation_in _ Pa); assumption.
    - apply (Permutation_trans Pa). apply Permutation_sym.
      apply listed_rows_perm.
    - exact Sa.
    - apply sort_rows_sorted. }
  pose proof (page_count_bounds (length (listed_rows w user_id)) L) as B.
  set (n := page_count (length (listed_rows w user_id)) size) in *.
  rewrite (@map_ext _ _
             (fun pg => items_of (fst (get_trends user_id pg size w)))
             (fun pg => map response_of (page_rows w user_id pg size))).
  2:{ intros pg. rewrite (get_trends_run user_id pg size w F).
      assert (Pg : forallb (parses w) (page_rows w user_id pg size) = true).
      { apply forallb_forall. intros r Hr.
        rewrite forallb_forall in P. apply P.
        exact (page_rows_listed _ _ _ _ _ Hr). }
      rewrite Pg. reflexivity. }
  rewrite <- (map_map (fun pg => page_rows w user_id pg size)
                (map response_of)).
  rewrite <- concat_map. f_equal.
  rewrite <- seq_shift, map_map.
  rewrite (@map_ext _ _ (fun k => page_rows w user_id (S k) size)
             (fun k => firstn size (skipn (k * size)
                                      (listed_rows w user_id)))).
  2:{ intros k. unfold page_rows. cbn [Nat.sub]. rewrite Nat.sub_0_r.
      reflexivity. }
  rewrite chunks_prefix. apply firstn_all2. lia.
Qed.

Lemma ranking_world_distinct_scores :
  distinct_scores (filter (in_listing ranking_world (T "u1"))
                          (trends ranking_world)).
Proof.
  intros a b Ha Hb E. vm_compute in Ha, Hb.
  destruct Ha as [<-|[<-|[]]], Hb as [<-|[<-|[]]];
    try reflexivity; exfalso; revert E; vm_compute; discriminate.
Qed.

Lemma get_trends_pages_partition_witness :
  items_of (fst (get_trends (T "u1") 1 1 ranking_world))
  ++ items_of (fst (get_trends (T "u1") 2 1 ranking_world))
  = map response_of (listed_rows ranking_world (T "u1")).
Proof.
  destruct (@get_trends_pages_partition (T "u1") 1 ranking_world)
    as [_ E];
    [reflexivity | lia | reflexivity | exact ranking_world_distinct_scores |].
  rewrite <- E. reflexivity.
Defined.

(** X25: [get_trends] never writes to the store, and a page is all or
    nothing: a failing store call, or a single row of the requested page
    that does not validate, turns the whole answer into status 500. *)
Theorem get_trends_all_or_nothing (user_id : text) (pg size : nat)
  (w : World) :
  trends (snd (get_trends user_id pg size w)) = trends w
  /\ (hd false (faults w) = true ->
      fst (get_trends user_id pg size w) = HttpError 500)
  /\ (forall r, In r (page_rows w user_id pg size) -> parses w r = false ->
      fst (get_trends user_id pg size w) = HttpError 500).
Proof.
  split; [apply get_trends_stable|]. split.
  - intros F. unfold get_trends. unfold bind at 1, get. unfold bind at 1.
    destruct (faults w) as [|[|] f] eqn:E; try discriminate F.
    rewrite (@execute_fault w f E). reflexivity.
  - intros r Hr Pr.
    destruct (hd false (faults w)) eqn:F.
    + unfold get_trends. unfold bind at 1, get. unfold bind at 1.
      destruct (faults w) as [|[|] f] eqn:E; try discriminate F.
      rewrite (@execute_fault w f E). reflexivity.
    + rewrite (get_trends_run user_id pg size w F).
      destruct (forallb (parses w) (page_rows w user_id pg size)) eqn:P;
        [|reflexivity].
      rewrite forallb_forall in P. rewrite (P r Hr) in Pr. discriminate.
Qed.

Lemma get_trends_all_or_nothing_witness :
  fst (get_trends (T "u1") 1 20 (set_faults ranking_world [true]))
  = HttpError 500.
Proof.
  destruct (get_trends_all_or_nothing (T "u1") 1 20
              (set_faults ranking_world [true])) as (_ & F & _).
  apply F. reflexivity.
Defined.

End Pagination.

(** ** What counts as a UUID does not change *)

Section Steady.

Lemma steady_ret {A} (a : A) : steady (ret a).
Proof. intros w. reflexivity. Qed.

Lemma steady_raise {A} (e : Exception) : steady (@raise A e).
Proof. intros w. reflexivity. Qed.

Lemma steady_get {A} (f : World -> A) : steady (get f).
Proof. intros w. reflexivity. Qed.

Lemma steady_bind {A B} (m : M A) (k : A -> M B) :
  steady m -> (forall a, steady (k a)) -> steady (bind m k).
Proof.
  intros Hm Hk w. unfold bind. specialize (Hm w).
  destruct (m w) as [[a|e] w']; simpl in *; [|exact Hm].
  rewrite Hk. exact Hm.
Qed.

Lemma steady_try {A} (m : M A) (h : Exception -> M A) :
  steady m -> (forall e, steady (h e)) -> steady (try_except m h).
Proof.
  intros Hm Hh w. unfold try_except. specialize (Hm w).
  destruct (m w) as [[a|e] w']; simpl in *; [exact Hm|].
  rewrite Hh. exact Hm.
Qed.

Lemma steady_execute : steady execute.
Proof.
  intros w. unfold execute. destruct (faults w) as [|[|] f]; reflexivity.
Qed.

Lemma steady_sleep (secs : Z) : steady (sleep secs).
Proof. intros w. reflexivity. Qed.

Lemma steady_interest_over_time (kws : list text) :
  steady (interest_over_time kws).
Proof.
  intros w. unfold interest_over_time.
  destruct (provider w (provider_calls w) kws); reflexivity.
Qed.

End Steady.

Ltac steady_step :=
  first
    [ apply steady_bind | apply steady_try | apply steady_ret
    | apply steady_raise | apply steady_get | apply steady_execute
    | apply steady_sleep | apply steady_interest_over_time
    | match goal with
      | |- steady (match ?x with _ => _ end) => destruct x
      | |- steady (if ?b then _ else _) => destruct b
      | |- forall _, _ => intro
      end ].

Ltac steady_auto := repeat steady_step.

Section SteadyServices.

Lemma steady_select_content p : steady (select_content p).
Proof. unfold select_content. steady_auto. Qed.

Lemma steady_UUID s : steady (UUID s).
Proof. unfold UUID. steady_auto. Qed.

Lemma steady_append_item id kws : forall m, steady (append_item id kws m).
Proof.
  induction kws as [|kw kws IH]; intros m; simpl; [steady_auto|].
  apply steady_bind; [apply steady_UUID|]. intro. apply IH.
Qed.

Lemma steady_collect_keywords items : forall m,
  steady (collect_keywords items m).
Proof.
  induction items as [|item items IH]; intros m; [simpl; steady_auto|].
  cbn [collect_keywords].
  apply steady_bind; [apply steady_append_item|]. intro. apply IH.
Qed.

Lemma steady_extract_keywords_from_content u d n :
  steady (extract_keywords_from_content u d n).
Proof.
  unfold extract_keywords_from_content.
  apply steady_try; [|steady_auto].
  apply steady_bind; [steady_auto|]. intro.
  apply steady_bind; [apply steady_select_content|]. intros rows.
  destruct rows; [steady_auto|].
  apply steady_bind; [apply steady_collect_keywords|]. steady_auto.
Qed.

Lemma steady_get_interest_over_time kws :
  steady (get_interest_over_time kws).
Proof. unfold get_interest_over_time. steady_auto. Qed.

Lemma steady_batch_loop kws starts : forall results,
  steady (batch_loop kws starts results).
Proof.
  induction starts as [|i starts IH]; intros results; simpl; [steady_auto|].
  apply steady_bind; [apply steady_get_interest_over_time|]. intro.
  apply steady_bind; [steady_auto|]. intro. apply IH.
Qed.

Lemma steady_batch_get_interest kws : steady (batch_get_interest kws).
Proof.
  unfold batch_get_interest. apply steady_try; [|steady_auto].
  destruct kws; [steady_auto|]. apply steady_batch_loop.
Qed.

Lemma steady_calculate_velocity u kw : steady (calculate_velocity u kw).
Proof.
  unfold calculate_velocity. apply steady_try; [|steady_auto].
  apply steady_bind; [steady_auto|]. intro.
  apply steady_bind; [apply steady_select_content|]. intro.
  apply steady_bind; [apply steady_select_content|]. steady_auto.
Qed.

Lemma steady_score_candidates u g cands :
  steady (score_candidates u g cands).
Proof.
  induction cands as [|[[kw mc] ids] cands IH]; simpl; [steady_auto|].
  apply steady_bind; [apply steady_calculate_velocity|]. intro.
  apply steady_bind; [apply IH|]. steady_auto.
Qed.

Lemma steady_detect_trends u n : steady (detect_trends u n).
Proof.
  unfold detect_trends. apply steady_try; [|steady_auto].
  apply steady_bind; [apply steady_extract_keywords_from_content|].
  intros tk. destruct tk; [steady_auto|].
  apply steady_bind; [apply steady_batch_get_interest|]. intro.
  apply steady_bind; [apply steady_score_candidates|]. steady_auto.
Qed.

Lemma steady_parse_ids ids : steady (parse_ids ids).
Proof.
  induction ids as [|i ids IH]; simpl; [steady_auto|].
  apply steady_bind; [apply steady_UUID|]. intro.
  apply steady_bind; [apply IH|]. steady_auto.
Qed.

Lemma steady_parse_loop items : steady (parse_loop items).
Proof.
  induction items as [|item items IH]; simpl; [steady_auto|].
  apply steady_bind.
  - apply steady_try; [|steady_auto]. unfold parse_row.
    apply steady_bind; [|steady_auto].
    apply steady_bind; [apply steady_parse_ids|]. steady_auto.
  - intro. apply steady_bind; [apply IH|]. steady_auto.
Qed.

Lemma steady_get_top_trends u n : steady (get_top_trends u n).
Proof.
  unfold get_top_trends. apply steady_try; [|steady_auto].
  apply steady_bind; [steady_auto|]. intro.
  apply steady_bind; [unfold select_top; steady_auto|]. intros rows.
  destruct rows; [steady_auto|]. apply steady_parse_loop.
Qed.

Lemma steady_select_trend u kw : steady (select_trend u kw).
Proof. unfold select_trend. steady_auto. Qed.

Lemma steady_update_trend id d t : steady (update_trend id d t).
Proof.
  unfold update_trend. apply steady_bind; [apply steady_execute|].
  intros _ w. reflexivity.
Qed.

Lemma steady_insert_trend u d t : steady (insert_trend u d t).
Proof.
  unfold insert_trend. apply steady_bind; [apply steady_execute|].
  intros _ w. reflexivity.
Qed.

Lemma steady_save_loop u t ts : forall n, steady (save_loop u t ts n).
Proof.
  induction ts as [|d ts IH]; intros n; simpl; [steady_auto|].
  apply steady_bind; [|intro; apply IH].
  apply steady_try; [|steady_auto].
  apply steady_bind; [apply steady_select_trend|]. intros ex.
  apply steady_bind; [|steady_auto].
  destruct ex; [apply steady_insert_trend | apply steady_update_trend].
Qed.

Lemma steady_save_trends u ts : steady (save_trends u ts).
Proof.
  unfold save_trends. apply steady_try; [|steady_auto].
  destruct ts; [steady_auto|].
  apply steady_bind; [steady_auto|]. intro. apply steady_save_loop.
Qed.

Lemma steady_detect_and_save_trends u : steady (detect_and_save_trends u).
Proof.
  unfold detect_and_save_trends. apply steady_try; [|steady_auto].
  apply steady_bind; [apply steady_detect_trends|]. intros found.
  destruct found; [steady_auto|].
  apply steady_bind; [apply steady_save_trends|]. intro.
  apply steady_bind; [apply steady_get_top_trends|]. steady_auto.
Qed.

End SteadyServices.

(** ** The scheduled detection over all owners *)

Section Scheduler.

Lemma detect_for_users_run (user_ids : list text) :
  forall (total_trends : nat) (w : World),
  exists (n : nat) (w' : World),
    detect_for_users user_ids total_trends w = (Ok n, w')
    /\ total_trends <= n <= total_trends + 10 * length user_ids
    /\ provider_calls w' <= provider_calls w + 4 * length user_ids
    /\ (unique_keys (trends w) -> unique_keys (trends w'))
    /\ (reachable w -> reachable w')
    /\ (Forall (fun u => uuid_ok w u = false) user_ids ->
        trends w' = trends w /\ n = total_trends).
Proof.
  induction user_ids as [|u us IH]; intros total_trends w.
  - exists total_trends, w. split; [reflexivity|]. simpl.
    repeat split; auto; lia.
  - cbn [detect_for_users]. unfold bind at 1, try_except.
    unfold bind at 1. rewrite UUID_run.
    destruct (uuid_ok w u) eqn:Ok_u.
    + unfold bind at 1.
      destruct (detect_and_save_run u w) as (s & w1 & E & D & _ & C & _).
      pose proof (@detect_and_save_unique u w) as U1.
      pose proof (reach_run u (w := w)) as R1.
      rewrite E in *. cbn [snd] in U1, R1. unfold ret.
      destruct (IH (total_trends + detected s) w1)
        as (n & w' & E' & B & C' & U' & R' & _).
      exists n, w'. split; [exact E'|]. cbn [length].
      split; [lia|]. split; [lia|].
      split; [intros U; exact (U' (U1 U))|].
      split; [intros R; exact (R' (R1 R))|].
      intros F. inversion F as [|? ? Fu _]; subst. congruence.
    + unfold ret.
      destruct (IH total_trends w) as (n & w' & E' & B & C' & U' & R' & Z').
      exists n, w'. split; [exact E'|]. cbn [length].
      split; [lia|]. split; [lia|]. split; [exact U'|].
      split; [exact R'|].
      intros F. inversion F; subst. apply Z'. assumption.
Qed.

(** The loop is one detection run for each id that is a UUID, in order. *)
Lemma detect_for_users_runs (user_ids : list text) :
  forall (total_trends : nat) (w : World),
    detect_for_users user_ids total_trends w
    = (Ok (fst (detection_runs (filter (uuid_ok w) user_ids)
                               total_trends w)),
       snd (detection_runs (filter (uuid_ok w) user_ids) total_trends w)).
Proof.
  induction user_ids as [|u us IH]; intros total_trends w; [reflexivity|].
  cbn [detect_for_users filter]. unfold bind at 1, try_except.
  unfold bind at 1. rewrite UUID_run.
  destruct (uuid_ok w u) eqn:Ok_u.
  - unfold bind at 1. cbn [detection_runs].
    pose proof (steady_detect_and_save_trends u w) as U1.
    destruct (detect_and_save_run u w) as (s & w1 & E & _).
    rewrite E in *. cbn [snd] in U1. unfold ret.
    rewrite IH, U1. reflexivity.
  - unfold ret. apply IH.
Qed.

(** X26: the loop of the scheduled job over the owners, in whatever order
    it takes them, never raises, and it is one detection run for each id
    that is a UUID, in the order given: an id that is no UUID is skipped
    wherever it stands, every other owner gets its run of
    [detect_and_save_trends] on the world the runs before it left, and the
    numbers of detected trends are added up.  The total grows by at most
    ten per owner, the provider is called at most four times per owner, and
    a store with one record per (owner, keyword) stays one. *)
Theorem detect_for_users_safe (user_ids : list text) (total_trends : nat)
  (w : World) :
  exists n : nat,
    fst (detect_for_users user_ids total_trends w) = Ok n
    /\ (n, snd (detect_for_users user_ids total_trends w))
       = detection_runs (filter (uuid_ok w) user_ids) total_trends w
    /\ total_trends <= n <= total_trends + 10 * length user_ids
    /\ provider_calls (snd (detect_for_users user_ids total_trends w))
       <= provider_calls w + 4 * length user_ids
    /\ (unique_keys (trends w) ->
        unique_keys
          (trends (snd (detect_for_users user_ids total_trends w))))
    /\ (Forall (fun u => uuid_ok w u = false) user_ids ->
        trends (snd (detect_for_users user_ids total_trends w)) = trends w
        /\ n = total_trends).
Proof.
  destruct (detect_for_users_run user_ids total_trends w)
    as (n & w' & E & B & C & U & _ & Z).
  pose proof (detect_for_users_runs user_ids total_trends w) as R.
  exists n. rewrite E in *. cbn [fst snd].
  split; [reflexivity|]. split; [|auto].
  injection R as -> ->. symmetry. apply surjective_pairing.
Qed.

Lemma detect_for_users_safe_witness :
  exists n : nat,
    fst (detect_for_users [T "nobody"; T "u1"] 0 picky_world) = Ok n
    /\ n = 3
    /\ map t_keyword
         (trends (snd (detect_for_users [T "nobody"; T "u1"] 0 picky_world)))
       = [T "rocket"; T "crypto"; T "#ai"].
Proof.
  destruct (detect_for_users_safe [T "nobody"; T "u1"] 0 picky_world)
    as (n & E & R & _).
  exists n. split; [exact E|].
  assert (R' : detection_runs
                 (filter (uuid_ok picky_world) [T "nobody"; T "u1"]) 0
                 picky_world
               = detection_runs [T "u1"] 0 picky_world) by reflexivity.
  rewrite R' in R.
  split.
  - apply (f_equal fst) in R. cbn [fst] in R. rewrite R.
    vm_compute. reflexivity.
  - apply (f_equal snd) in R. cbn [snd] in R. rewrite R.
    vm_compute. reflexivity.
Defined.

Lemma scheduled_detection_run (w : World) :
  exists w' : World,
    detect_trends_for_all_users w = (Ok tt, w')
    /\ (unique_keys (trends w) -> unique_keys (trends w'))
    /\ (reachable w -> reachable w')
    /\ provider_calls w'
       <= provider_calls w
          + 4 * length (unique_ids (map c_user_id (content w)))
    /\ (content w = [] \/ hd false (faults w) = true ->
        trends w' = trends w /\ provider_calls w' = provider_calls w).
Proof.
  unfold detect_trends_for_all_users, try_except. unfold bind at 1.
  destruct (execute w) as [[[]|e] w1] eqn:X.
  - assert (F0 : hd false (faults w) = false).
    { unfold execute in X. destruct (faults w) as [|[|] f];
        [reflexivity | discriminate | reflexivity]. }
    assert (C1 : content w1 = content w).
    { unfold execute in X. destruct (faults w) as [|[|] f];
        try discriminate X; injection X as <-; reflexivity. }
    destruct (@execute_keeps _ _ _ X) as (T1 & _ & _).
    pose proof (quiet_execute w) as [Q1 _]. rewrite X in Q1. cbn [snd] in Q1.
    unfold bind at 1, get. rewrite C1.
    destruct (content w) as [|c cs] eqn:Cw.
    + exists w1. unfold ret. rewrite T1, Q1.
      split; [reflexivity|]. split; [auto|].
      split; [intros R; exact (@reach_env w w1 R T1)|].
      split; [lia|]. auto.
    + unfold bind at 1.
      destruct (detect_for_users_run
                  (unique_ids (map c_user_id (c :: cs))) 0 w1)
        as (n & w' & E & _ & C & U & R & _).
      rewrite E. exists w'. unfold ret. split; [reflexivity|].
      split; [intros U0; apply U; rewrite T1; exact U0|].
      split; [intros R0; apply R; exact (@reach_env w w1 R0 T1)|].
      split; [lia|].
      intros [H|H]; [discriminate H | congruence].
  - destruct (@execute_keeps _ _ _ X) as (T1 & _ & _).
    pose proof (quiet_execute w) as [Q1 _]. rewrite X in Q1. cbn [snd] in Q1.
    exists w1. unfold ret. rewrite T1, Q1.
    split; [reflexivity|]. split; [auto|].
    split; [intros R; exact (@reach_env w w1 R T1)|].
    split; [lia|]. auto.
Qed.

(** X27: the scheduled job [detect_trends_for_all_users] never raises;
    it keeps the store among those with one record per (owner, keyword),
    calls the provider at most four times per distinct owner of content,
    and when the content table is empty or its query fails it changes
    neither the trend store nor the provider's call count. *)
Theorem scheduled_detection_safe (w : World) :
  fst (detect_trends_for_all_users w) = Ok tt
  /\ (unique_keys (trends w) ->
      unique_keys (trends (snd (detect_trends_for_all_users w))))
  /\ (reachable w -> reachable (snd (detect_trends_for_all_users w)))
  /\ provider_calls (snd (detect_trends_for_all_users w))
     <= provider_calls w
        + 4 * length (unique_ids (map c_user_id (content w)))
  /\ (content w = [] \/ hd false (faults w) = true ->
      trends (snd (detect_trends_for_all_users w)) = trends w
      /\ provider_calls (snd (detect_trends_for_all_users w))
         = provider_calls w).
Proof.
  destruct (scheduled_detection_run w) as (w' & E & H).
  rewrite E. cbn [fst snd]. split; [reflexivity | exact H].
Qed.

Lemma scheduled_detection_safe_witness :
  trends (snd (detect_trends_for_all_users unreachable_world)) = []
  /\ unique_keys (trends (snd (detect_trends_for_all_users demo_world))).
Proof.
  destruct (scheduled_detection_safe unreachable_world)
    as (_ & _ & _ & _ & Z).
  destruct (scheduled_detection_safe demo_world) as (_ & U & _).
  split.
  - destruct Z as [Z _]; [right; reflexivity | exact Z].
  - apply U. constructor.
Defined.

End Scheduler.

(** ** Reading one trend, and the endpoints over the services *)

Section Endpoints.

Lemma targets_spec (user_id : text) (trend_id : nat) (r : TrendRow) :
  targets user_id trend_id r = true
  <-> t_user_id r = user_id /\ t_id r = trend_id.
Proof.
  unfold targets. rewrite andb_true_iff, text_eqb_eq, Nat.eqb_eq. tauto.
Qed.

Lemma execute_outcome (w w1 : World) (o : outcome unit) :
  execute w = (o, w1) ->
  uuid_ok w1 = uuid_ok w
  /\ (hd false (faults w) = false -> o = Ok tt)
  /\ (hd false (faults w) = true -> o = Raised DbError).
Proof.
  unfold execute. destruct (faults w) as [|[|] f]; intros E;
    injection E as <- <-; simpl; repeat split; intros; congruence.
Qed.

Lemma filter_head_unique (user_id : text) (trend_id : nat)
  (rows : list TrendRow) (row : TrendRow) :
  NoDup (map t_id rows) -> In row rows ->
  targets user_id trend_id row = true ->
  exists rest, filter (targets user_id trend_id) rows = row :: rest.
Proof.
  intros N Hr Tr.
  destruct (filter (targets user_id trend_id) rows) as [|x rest] eqn:D.
  - exfalso. assert (H : In row []); [|exact H].
    rewrite <- D. apply filter_In. split; assumption.
  - exists rest. f_equal.
    assert (Hx : In x (filter (targets user_id trend_id) rows))
      by (rewrite D; left; reflexivity).
    apply filter_In in Hx as [Hx Tx].
    apply targets_spec in Tr as [_ Ir]. apply targets_spec in Tx as [_ Ix].
    apply (@NoDup_map_inj _ _ t_id rows x row N Hx Hr). congruence.
Qed.

(** X28: [get_trend_by_id] never writes and never shows another owner's
    record: an answer is a record of that owner with that id; it is 404
    when the owner has none, 500 when the store call fails, and, ids being
    distinct, exactly the stored record when that one validates. *)
Theorem get_trend_by_id_spec (user_id : text) (trend_id : nat) (w : World) :
  trends (snd (get_trend_by_id user_id trend_id w)) = trends w
  /\ (forall r, fst (get_trend_by_id user_id trend_id w) = Replied r ->
        exists row, In row (trends w) /\ t_user_id row = user_id
                    /\ t_id row = trend_id /\ r = response_of row)
  /\ (hd false (faults w) = false ->
      (forall row, In row (trends w) -> t_user_id row = user_id ->
                   t_id row <> trend_id) ->
      fst (get_trend_by_id user_id trend_id w) = HttpError 404)
  /\ (hd false (faults w) = true ->
      fst (get_trend_by_id user_id trend_id w) = HttpError 500)
  /\ (forall row, hd false (faults w) = false ->
        NoDup (map t_id (trends w)) -> In row (trends w) ->
        t_user_id row = user_id -> t_id row = trend_id ->
        parses w row = true ->
        fst (get_trend_by_id user_id trend_id w) = Replied (response_of row)).
Proof.
  unfold get_trend_by_id.
  destruct (execute w) as [o w1] eqn:X.
  destruct (@execute_keeps _ _ _ X) as (T1 & _ & _).
  destruct (@execute_outcome _ _ _ X) as (U1 & OkX & BadX).
  destruct (hd false (faults w)) eqn:F.
  - rewrite (BadX eq_refl). cbn [fst snd].
    split; [exact T1|]. split; [discriminate|]. split; [discriminate|].
    split; [reflexivity|]. intros; discriminate.
  - rewrite (OkX eq_refl), T1.
    assert (P1 : forall row, parses w1 row = parses w row)
      by (intros row; unfold parses; rewrite U1; reflexivity).
    destruct (filter (targets user_id trend_id) (trends w)) as [|x rest]
      eqn:D.
    + cbn [fst snd]. split; [exact T1|]. split; [discriminate|].
      split; [reflexivity|]. split; [discriminate|].
      intros row _ N Hr Er Ir _. exfalso.
      assert (H : In row []); [|exact H].
      rewrite <- D. apply filter_In. split; [exact Hr|].
      apply targets_spec. split; assumption.
    + assert (Hx : In x (filter (targets user_id trend_id) (trends w)))
        by (rewrite D; left; reflexivity).
      apply filter_In in Hx as [Hx Tx]. apply targets_spec in Tx as [Ux Ix].
      rewrite parse_row_run, P1.
      split; [destruct (parses w x); exact T1|].
      split.
      { intros r E. exists x. repeat (split; [assumption|]).
        destruct (parses w x); [|discriminate E].
        cbn [fst] in E. injection E as <-. reflexivity. }
      split.
      { intros _ None. exfalso. exact (None x Hx Ux Ix). }
      split; [discriminate|].
      intros row _ N Hr Er Ir Pr.
      destruct (@filter_head_unique user_id trend_id (trends w) row N Hr)
        as (rest' & D'); [apply targets_spec; split; assumption|].
      rewrite D in D'. injection D' as -> _. rewrite Pr. reflexivity.
Qed.

Lemma get_trend_by_id_spec_witness :
  fst (get_trend_by_id (T "u1") 1 ranking_world)
  = Replied (response_of (stored 1 "rocket" (723 # 10) 960000))
  /\ fst (get_trend_by_id (T "u2") 1 ranking_world) = HttpError 404.
Proof.
  destruct (get_trend_by_id_spec (T "u1") 1 ranking_world)
    as (_ & _ & _ & _ & R).
  destruct (get_trend_by_id_spec (T "u2") 1 ranking_world)
    as (_ & _ & N & _ & _).
  split.
  - apply R; try reflexivity.
    + repeat constructor; simpl; intuition discriminate.
    + right. left. reflexivity.
  - apply N; [reflexivity|].
    intros row [<-|[<-|[]]] E; discriminate E.
Defined.

(** X29: a trend that [delete_trend] has deleted is gone: in every later
    world with the store as the deletion left it, [get_trend_by_id] for
    that owner and id answers 404 when the store answers. *)
Theorem deleted_trend_not_found (user_id : text) (trend_id : nat)
  (w w' : World) :
  fst (delete_trend user_id trend_id w) = Replied tt ->
  trends w' = trends (snd (delete_trend user_id trend_id w)) ->
  hd false (faults w') = false ->
  fst (get_trend_by_id user_id trend_id w') = HttpError 404.
Proof.
  intros Del Same F.
  assert (Gone : filter (targets user_id trend_id) (trends w') = []).
  { rewrite Same. unfold delete_trend in Del |- *.
    destruct (execute w) as [[[]|e] w1]; [|discriminate Del].
    destruct (filter (targets user_id trend_id) (trends w1)) as [|x xs];
      [discriminate Del|].
    cbn [snd trends set_trends]. clear Del.
    induction (trends w1) as [|r rows IH]; [reflexivity|].
    cbn [filter]. destruct (targets user_id trend_id r) eqn:Tr;
      cbn [negb filter]; [exact IH|]. rewrite Tr. exact IH. }
  unfold get_trend_by_id. rewrite (execute_ok w' F).
  cbn [trends set_faults]. rewrite Gone. reflexivity.
Qed.

Lemma deleted_trend_not_found_witness :
  fst (get_trend_by_id (T "u1") 0
         (snd (delete_trend (T "u1") 0 ranking_world)))
  = HttpError 404.
Proof.
  apply (@deleted_trend_not_found (T "u1") 0 ranking_world);
    reflexivity.
Defined.

Lemma never_raises_get_trend_stats u : never_raises (get_trend_stats u).
Proof. apply never_raises_try. intro. apply never_raises_ret. Qed.

(** X30: the endpoints for detection, for the top trends and for the
    statistics never answer 500: the services behind them return a value
    whatever the store and the provider do.  The top-trends answer counts
    its own items, at most [limit]; the detection answer reports at most
    ten detected trends. *)
Theorem service_endpoints_never_500 (user_id : text) (limit : nat)
  (w : World) :
  (exists results : Summary,
     fst (api_detect_trends user_id w)
     = Replied (detected results, saved results, results)
     /\ detected results <= 10)
  /\ (exists found : list TrendResponse,
        fst (api_get_top_trends user_id limit w)
        = Replied (found, length found)
        /\ length found <= limit)
  /\ (exists stats : Stats,
        fst (api_get_trend_stats user_id w) = Replied stats).
Proof.
  unfold api_detect_trends, api_get_top_trends, api_get_trend_stats, or_500.
  split; [|split].
  - destruct (detect_and_save_run user_id w) as (s & w' & E & D & _).
    rewrite E. exists s. split; [reflexivity | exact D].
  - pose proof (@get_top_trends_length w user_id limit) as L.
    destruct (never_raises_get_top_trends user_id limit w) as (l & w' & E).
    rewrite E in *. exists l. split; [reflexivity|]. apply L. reflexivity.
  - destruct (never_raises_get_trend_stats user_id w) as (s & w' & E).
    rewrite E. exists s. reflexivity.
Qed.

End Endpoints.
